(** * browser-agent: command parser, element resolution, dispatcher and
      CAPTCHA detector

    A shallow embedding of [parser.py], [browser.py], [captcha_handler.py]
    and the exception classes of [error_handler.py].

    Text is a Rocq [string] of 7-bit characters.  Python exceptions are
    values of [exn]; a computation that may raise returns [exn + A]. *)

From Stdlib Require Import String Ascii List Bool Arith ZArith NArith Lia.
Import ListNotations.
Local Open Scope string_scope.
Local Open Scope list_scope.
Local Open Scope nat_scope.

(* ===================================================================== *)
(** ** Python string primitives used by the sources                       *)
(* ===================================================================== *)

Module PyStr.

Definition code (c : ascii) : nat := nat_of_ascii c.

Definition is_upper (c : ascii) : bool := (65 <=? code c) && (code c <=? 90).
Definition is_lower (c : ascii) : bool := (97 <=? code c) && (code c <=? 122).
Definition is_digit (c : ascii) : bool := (48 <=? code c) && (code c <=? 57).

(** [str.isspace] on one character: TAB..CR, FS..US and the blank. *)
Definition is_space (c : ascii) : bool :=
  ((9 <=? code c) && (code c <=? 13)) ||
  ((28 <=? code c) && (code c <=? 32)).

Definition lower_char (c : ascii) : ascii :=
  if is_upper c then ascii_of_nat (code c + 32) else c.
Definition upper_char (c : ascii) : ascii :=
  if is_lower c then ascii_of_nat (code c - 32) else c.

Definition chars (s : string) : list ascii := list_ascii_of_string s.
Definition str (l : list ascii) : string := string_of_list_ascii l.

(** [s.lower()] *)
Definition lower (s : string) : string := str (map lower_char (chars s)).

Fixpoint lstrip_chars (l : list ascii) : list ascii :=
  match l with
  | c :: l' => if is_space c then lstrip_chars l' else l
  | [] => []
  end.

(** [s.strip()] *)
Definition strip (s : string) : string :=
  str (rev (lstrip_chars (rev (lstrip_chars (chars s))))).

Fixpoint prefix_chars (p l : list ascii) : bool :=
  match p, l with
  | [], _ => true
  | a :: p', b :: l' => Ascii.eqb a b && prefix_chars p' l'
  | _ :: _, [] => false
  end.

(** [s.startswith(p)] *)
Definition startswith (s p : string) : bool := prefix_chars (chars p) (chars s).

Fixpoint contains_chars (p l : list ascii) : bool :=
  prefix_chars p l ||
  match l with
  | [] => false
  | _ :: l' => contains_chars p l'
  end.

(** [p in s] *)
Definition contains (p s : string) : bool := contains_chars (chars p) (chars s).

End PyStr.

(* ===================================================================== *)
(** ** The fragment of Python's [re] that [COMMAND_PATTERNS] is written in *)
(* ===================================================================== *)

Module Re.
Import PyStr.

(** Repetition only ever applies to a one-character class in the patterns
    of [parser.py], so [Rep] carries a class and a minimum count. *)
Inductive regex : Type :=
| Eps
| Chr (c : ascii)
| Cls (p : ascii -> bool)
| Seq (r1 r2 : regex)
| Alt (r1 r2 : regex)
| Rep (min : nat) (p : ascii -> bool)
| Grp (n : nat) (r : regex).

(** Captured groups: the most recent binding of a group number is first. *)
Definition groups := list (nat * string).

Fixpoint group (g : groups) (n : nat) : option string :=
  match g with
  | [] => None
  | (i, s) :: g' => if Nat.eqb i n then Some s else group g' n
  end.

(** Character tests under [re.IGNORECASE]. *)
Definition chr_i (a c : ascii) : bool :=
  Ascii.eqb (lower_char a) (lower_char c).
Definition cls_i (p : ascii -> bool) (c : ascii) : bool :=
  p c || p (lower_char c) || p (upper_char c).

Section Matcher.
Variable R : Type.
Definition cont := list ascii -> groups -> option R.

Definition orelse (a : option R) (b : unit -> option R) : option R :=
  match a with
  | Some x => Some x
  | None => b tt
  end.

(** Greedy [p{min,}]: take one more character first; give the rest to
    the continuation only when that fails. *)
Fixpoint rep (p : ascii -> bool) (min : nat) (s : list ascii)
         (g : groups) (k : cont) : option R :=
  let stop := fun _ : unit =>
    match min with O => k s g | S _ => None end in
  match s with
  | c :: s' =>
      if cls_i p c
      then orelse (rep p (pred min) s' g k) stop
      else stop tt
  | [] => stop tt
  end.

Fixpoint run (r : regex) (s : list ascii) (g : groups) (k : cont)
  : option R :=
  match r with
  | Eps => k s g
  | Chr a =>
      match s with
      | c :: s' => if chr_i a c then k s' g else None
      | [] => None
      end
  | Cls p =>
      match s with
      | c :: s' => if cls_i p c then k s' g else None
      | [] => None
      end
  | Seq r1 r2 => run r1 s g (fun s' g' => run r2 s' g' k)
  | Alt r1 r2 => orelse (run r1 s g k) (fun _ => run r2 s g k)
  | Rep min p => rep p min s g k
  | Grp n r1 =>
      run r1 s g (fun s' g' =>
        k s' ((n, str (firstn (length s - length s') s)) :: g'))
  end.
End Matcher.

(** [re.match(pattern, text, re.IGNORECASE)]: the pattern must match at the
    first character; what follows the match is not looked at. *)
Definition re_match (r : regex) (text : string) : option groups :=
  run groups r (chars text) [] (fun _ g => Some g).

(** A first-character test: [false] only when no match of [r] can begin
    with [a] (a pattern that may match the empty text passes). *)
Fixpoint may_start (r : regex) (a : ascii) : bool :=
  match r with
  | Eps => true
  | Chr x => chr_i x a
  | Cls p => cls_i p a
  | Seq r1 _ => may_start r1 a
  | Alt r1 r2 => may_start r1 a || may_start r2 a
  | Rep min p => Nat.eqb min 0 || cls_i p a
  | Grp _ r1 => may_start r1 a
  end.

(** *** Pattern combinators *)

Fixpoint lit_chars (l : list ascii) : regex :=
  match l with
  | [] => Eps
  | [c] => Chr c
  | c :: l' => Seq (Chr c) (lit_chars l')
  end.
Definition lit (s : string) : regex := lit_chars (chars s).

Fixpoint seq (l : list regex) : regex :=
  match l with
  | [] => Eps
  | [r] => r
  | r :: l' => Seq r (seq l')
  end.

Fixpoint alt (l : list regex) : regex :=
  match l with
  | [] => Cls (fun _ => false)
  | [r] => r
  | r :: l' => Alt r (alt l')
  end.

(** [(?:r)?] *)
Definition opt (r : regex) : regex := Alt r Eps.
(** [p+] and [p*] *)
Definition plus (p : ascii -> bool) : regex := Rep 1 p.
Definition star (p : ascii -> bool) : regex := Rep 0 p.

(** *** Character classes of the patterns *)

Definition is_char (a c : ascii) : bool := Ascii.eqb a c.

(** The two quote characters, code 39 (single) and code 34 (double). *)
Definition squote : ascii := ascii_of_nat 39.
Definition dquote : ascii := ascii_of_nat 34.

(** The class of the two quote characters, and its complement. *)
Definition quote (c : ascii) : bool := is_char squote c || is_char dquote c.
Definition not_quote (c : ascii) : bool := negb (quote c).
(** [a-zA-Z] *)
Definition alpha (c : ascii) : bool := is_lower c || is_upper c.
(** [a-zA-Z0-9 ] *)
Definition word_sp (c : ascii) : bool := alpha c || is_digit c || is_char " " c.
(** [a-zA-Z0-9.-] *)
Definition host (c : ascii) : bool :=
  alpha c || is_digit c || is_char "." c || is_char "-" c.
(** [\d.] *)
Definition digit_dot (c : ascii) : bool := is_digit c || is_char "." c.
(** [\S] *)
Definition non_space (c : ascii) : bool := negb (is_space c).

End Re.

(* ===================================================================== *)
(** ** Exceptions ([error_handler.py]) and parameter values               *)
(* ===================================================================== *)

Module Exn.

(** [BrowserAutomationError] and the subclasses the sources raise, the
    built-in [ValueError] and [TypeError], and [PageError] for whatever
    the page capability raises (a Playwright timeout, a detached node). *)
Inductive exn : Type :=
| BrowserAutomationError (message : string)
| ElementNotFoundError (message : string) (element_identifier : option string)
| NavigationError (message : string)
| TimeoutError (message : string)
| ValueError (message : string)
| TypeError (message : string)
| PageError (message : string).

(** [str(e)] *)
Definition message (e : exn) : string :=
  match e with
  | BrowserAutomationError m | ElementNotFoundError m _ | NavigationError m
  | TimeoutError m | ValueError m | TypeError m | PageError m => m
  end.

(** [isinstance(e, BrowserAutomationError)] *)
Definition is_BrowserAutomationError (e : exn) : bool :=
  match e with
  | BrowserAutomationError _ | ElementNotFoundError _ _
  | NavigationError _ | TimeoutError _ => true
  | ValueError _ | TypeError _ | PageError _ => false
  end.

(** [isinstance(e, ElementNotFoundError)] *)
Definition is_ElementNotFoundError (e : exn) : bool :=
  match e with
  | ElementNotFoundError _ _ => true
  | _ => false
  end.

(** [e.details]: only [ElementNotFoundError] is ever built by the sources
    with a chance of details, and no call site passes the identifier. *)
Definition details (e : exn) : list (string * string) :=
  match e with
  | ElementNotFoundError _ (Some i) => [("element_identifier", i)]
  | _ => []
  end.

End Exn.

Module Value.

(** A non-negative decimal literal [num / 10^scale]: what [float] reads
    from a run of digits and dots (rounding to binary is left out). *)
Record decimal : Type := Decimal { num : N; scale : nat }.

Inductive value : Type :=
| VStr (s : string)
| VInt (z : Z)
| VFloat (d : decimal)
| VBool (b : bool)
| VNone.

(** A Python dict with string keys, in insertion order. *)
Definition dict := list (string * value).

Fixpoint get (d : dict) (k : string) : option value :=
  match d with
  | [] => None
  | (k', v) :: d' => if String.eqb k' k then Some v else get d' k
  end.

End Value.

(* ===================================================================== *)
(** ** [parser.py]                                                        *)
(* ===================================================================== *)

Module Parser.
Import PyStr Re Exn Value.

(** [float(s)] for [s] made of digits and dots: one dot at most and one
    digit at least. *)
Fixpoint digits_value (l : list ascii) (acc : N) : N :=
  match l with
  | [] => acc
  | c :: l' => digits_value l' (acc * 10 + N.of_nat (code c - 48))%N
  end.

Fixpoint split_dot (l : list ascii) : list ascii * option (list ascii) :=
  match l with
  | [] => ([], None)
  | c :: l' =>
      if is_char "." c then ([], Some l')
      else let '(a, b) := split_dot l' in (c :: a, b)
  end.

Definition py_float (s : string) : exn + decimal :=
  let bad := inl (ValueError ("could not convert string to float: '" ++ s ++ "'")) in
  let '(ip, rest) := split_dot (chars s) in
  let fp := match rest with Some f => f | None => [] end in
  if forallb is_digit ip && forallb is_digit fp
     && negb (Nat.eqb (length ip + length fp) 0)
  then inr (Decimal (digits_value (ip ++ fp) 0) (length fp))
  else bad.

(** [m.group(n)] for a group that takes part in every match. *)
Definition grp (m : groups) (n : nat) : string :=
  match group m n with
  | Some s => s
  | None => ""
  end.

(** [m.group(n) if ... and m.group(n) else None] *)
Definition grp_or_none (m : groups) (n : nat) : value :=
  match group m n with
  | Some s => if String.eqb s "" then VNone else VStr s
  | None => VNone
  end.

Definition rule : Type := regex * string * (groups -> exn + dict).

Definition verb : regex := alt [lit "type"; lit "enter"; lit "input"; lit "fill in"].
Definition into : regex := alt [Seq (lit "in") (opt (lit "to")); lit "on"].
Definition target : regex := alt [lit "button"; lit "link"; lit "element"].
Definition field_suffix : regex := opt (alt [lit " field"; lit " input"; lit " box"]).
(** [[a-zA-Z0-9.-]+\.[a-zA-Z]{2,}] *)
Definition domain : regex := seq [plus host; lit "."; Rep 2 alpha].

Definition pat_navigate : regex :=
  seq [alt [lit "go to"; lit "navigate to"; lit "open"]; lit " ";
       opt (lit "the ");
       opt (alt [lit "website "; lit "site "; lit "page "]);
       opt (lit "at ");
       opt (seq [lit "http"; opt (lit "s"); lit "://"]);
       Grp 1 (seq [domain; opt (Seq (lit "/") (star non_space))])].

Definition pat_click_quoted : regex :=
  seq [lit "click"; opt (lit " on"); lit " "; opt (lit "the "); target;
       opt (Seq (lit " ") (alt [lit "with"; lit "that says"; lit "containing"]));
       lit " "; Cls quote; Grp 1 (plus not_quote); Cls quote].

Definition pat_click_bare : regex :=
  seq [lit "click"; opt (lit " on"); lit " "; opt (lit "the ");
       Grp 1 (plus word_sp); lit " "; target].

Definition pat_type_quoted : regex :=
  seq [verb; lit " "; Cls quote; Grp 1 (plus not_quote); Cls quote; lit " ";
       into; lit " "; opt (lit "the "); Grp 2 (plus word_sp); field_suffix].

Definition pat_type_bare : regex :=
  seq [verb; lit " "; Grp 1 (plus word_sp); lit " ";
       into; lit " "; opt (lit "the "); Grp 2 (plus word_sp); field_suffix].

Definition pat_submit : regex :=
  seq [alt [lit "submit"; lit "send"]; opt (lit " the"); opt (lit " form")].

Definition pat_wait : regex :=
  seq [lit "wait "; opt (lit "for "); Grp 1 (plus digit_dot);
       lit " second"; opt (lit "s")].

Definition pat_wait_for : regex :=
  seq [lit "wait for"; opt (lit " the"); lit " "; Grp 1 (plus word_sp);
       opt (alt [lit " to appear"; lit " to load"])].

Definition pat_screenshot : regex :=
  seq [opt (alt [lit "take a "; lit "capture "; lit "grab a "]); lit "screenshot"].

Definition pat_login : regex :=
  seq [lit "log"; opt (lit "in"); alt [lit " to"; lit " into"]; lit " ";
       Grp 1 domain;
       opt (seq [lit " with username "; Cls quote; Grp 2 (plus not_quote);
                 Cls quote; lit " and password "; Cls quote;
                 Grp 3 (plus not_quote); Cls quote])].

Definition pat_search : regex :=
  seq [lit "search "; opt (lit "for "); Cls quote; Grp 1 (plus not_quote);
       Cls quote; lit " "; alt [lit "on"; lit "in"]; lit " "; Grp 2 domain].

Definition url_of (g : string) : string :=
  if startswith g "http://" || startswith g "https://" then g
  else "https://" ++ g.

Definition COMMAND_PATTERNS : list rule :=
  [ (pat_navigate, "navigate", fun m => inr [("url", VStr (url_of (grp m 1)))]);
    (pat_click_quoted, "click", fun m => inr [("text", VStr (grp m 1))]);
    (pat_click_bare, "click", fun m => inr [("text", VStr (grp m 1))]);
    (pat_type_quoted, "type",
       fun m => inr [("text", VStr (grp m 1)); ("field", VStr (grp m 2))]);
    (pat_type_bare, "type",
       fun m => inr [("text", VStr (grp m 1)); ("field", VStr (grp m 2))]);
    (pat_submit, "submit", fun _ => inr []);
    (pat_wait, "wait",
       fun m => match py_float (grp m 1) with
                | inl e => inl e
                | inr d => inr [("seconds", VFloat d)]
                end);
    (pat_wait_for, "wait_for_element", fun m => inr [("element", VStr (grp m 1))]);
    (pat_screenshot, "screenshot", fun _ => inr []);
    (pat_login, "login",
       fun m => inr [("website", VStr (grp m 1));
                     ("username", grp_or_none m 2);
                     ("password", grp_or_none m 3)]);
    (pat_search, "search",
       fun m => inr [("query", VStr (grp m 1)); ("website", VStr (grp m 2))]) ].

(** The [for pattern, action, param_extractor in ...] loop. *)
Fixpoint try_patterns (rules : list rule) (command : string)
  : exn + (string * dict) :=
  match rules with
  | [] => inl (ValueError ("Could not understand command: " ++ command))
  | (pattern, action, param_extractor) :: rest =>
      match re_match pattern command with
      | Some m =>
          match param_extractor m with
          | inl e => inl e
          | inr params => inr (action, params)
          end
      | None => try_patterns rest command
      end
  end.

Definition normalize (command : string) : string := lower (strip command).

Definition parse_command (command : string) : exn + (string * dict) :=
  try_patterns COMMAND_PATTERNS (normalize command).

(** A text with double-quoted parts: [q] is the one-character string. *)
Definition q : string := String dquote EmptyString.

Definition pattern_of (rl : rule) : regex := fst (fst rl).
Definition action_of (rl : rule) : string := snd (fst rl).
Definition extractor_of (rl : rule) : groups -> exn + dict := snd rl.

(** The rule's pattern does not match the text at its start. *)
Definition misses (c : string) (rl : rule) : Prop :=
  re_match (pattern_of rl) c = None.

End Parser.


(* ===================================================================== *)
(** ** The page capability and the monad of browser-facing code           *)
(* ===================================================================== *)

Module Page.
Import Exn Value.

(** One entry per call made on the page capability, in call order. *)
Inductive event : Type :=
| ELaunch
| EShutdown
| EGoto (url : string)
| EWaitForLoadState (state : string)
| EWaitForSelector (selector : string) (timeout : Z)
| EQuerySelector (selector : string)
| EGetAttribute (name : string)
| EElementQuerySelector (selector : string)
| EClick
| EFill (text : string)
| EType (text : string) (delay : Z)
| EPress (key : string)
| EKeyboardPress (key : string)
| EUrl
| ETitle
| EContent
| EScreenshot
| EWriteFile (path : string)
| ESleep (seconds : decimal).

(** The external collaborators: Playwright's page and element handles,
    [asyncio.sleep], file output and [base64.b64encode].  [W] is the state
    of the browser and of everything outside the program, [H] the type of
    element handles.  Every call on the page may raise and may change [W];
    a sleep only lets [W] move on. *)
Record api (W H : Type) : Type := Api {
  launch : W -> (exn + unit) * W;
  shutdown : W -> (exn + unit) * W;
  goto : string -> W -> (exn + unit) * W;
  wait_for_load_state : string -> W -> (exn + unit) * W;
  wait_for_selector : string -> Z -> W -> (exn + option H) * W;
  query_selector : string -> W -> (exn + option H) * W;
  get_attribute : H -> string -> W -> (exn + option string) * W;
  element_query_selector : H -> string -> W -> (exn + option H) * W;
  click : H -> W -> (exn + unit) * W;
  fill : H -> string -> W -> (exn + unit) * W;
  type : H -> string -> Z -> W -> (exn + unit) * W;
  press : H -> string -> W -> (exn + unit) * W;
  keyboard_press : string -> W -> (exn + unit) * W;
  url : W -> string;
  url_call : W -> (exn + string) * W;
  title : W -> (exn + string) * W;
  content : W -> (exn + string) * W;
  screenshot : W -> (exn + string) * W;
  write_file : string -> string -> W -> (exn + unit) * W;
  sleep : decimal -> W -> W;
  b64encode : string -> string
}.

Arguments launch {W H}.
Arguments shutdown {W H}.
Arguments goto {W H}.
Arguments wait_for_load_state {W H}.
Arguments wait_for_selector {W H}.
Arguments query_selector {W H}.
Arguments get_attribute {W H}.
Arguments element_query_selector {W H}.
Arguments click {W H}.
Arguments fill {W H}.
Arguments type {W H}.
Arguments press {W H}.
Arguments keyboard_press {W H}.
Arguments url {W H}.
Arguments url_call {W H}.
Arguments title {W H}.
Arguments content {W H}.
Arguments screenshot {W H}.
Arguments write_file {W H}.
Arguments sleep {W H}.
Arguments b64encode {W H}.

(** The state the code runs in: the outside world, the controller's
    [initialized] flag and the calls made so far. *)
Record state (W : Type) : Type := State {
  world : W;
  initialized : bool;
  trace : list event
}.
Arguments State {W}.
Arguments world {W}.
Arguments initialized {W}.
Arguments trace {W}.

Definition M (W A : Type) : Type := state W -> (exn + A) * state W.

Definition ret {W A} (a : A) : M W A := fun s => (inr a, s).
Definition raise {W A} (e : exn) : M W A := fun s => (inl e, s).
Definition bind {W A B} (c : M W A) (f : A -> M W B) : M W B :=
  fun s => match c s with
           | (inr a, s') => f a s'
           | (inl e, s') => (inl e, s')
           end.

(** [try: c  except <any> as e: h e] *)
Definition try_except {W A} (c : M W A) (h : exn -> M W A) : M W A :=
  fun s => match c s with
           | (inr a, s') => (inr a, s')
           | (inl e, s') => h e s'
           end.

(** One call on the capability: logged, then performed. *)
Definition call {W A} (ev : event) (op : W -> (exn + A) * W) : M W A :=
  fun s => let '(r, w) := op (world s) in
           (r, State w (initialized s) (trace s ++ [ev])).

Definition get_initialized {W} : M W bool := fun s => (inr (initialized s), s).
Definition set_initialized {W} (b : bool) : M W unit :=
  fun s => (inr tt, State (world s) b (trace s)).
Definition read {W A} (f : W -> A) : M W A := fun s => (inr (f (world s)), s).

Declare Scope py_scope.
Delimit Scope py_scope with py.
Notation "x <- c ;; k" := (bind c (fun x => k))
  (at level 61, c at next level, right associativity) : py_scope.
Notation "c ;; k" := (bind c (fun _ => k))
  (at level 61, right associativity) : py_scope.

End Page.

(* ===================================================================== *)
(** ** [browser.py]: [BrowserController]                                  *)
(* ===================================================================== *)

Module Browser.
Import PyStr Exn Value Page.
Local Open Scope py_scope.

Section Controller.
Context {W H : Type} (page : api W H).

Local Abbreviation M := (M W).

(** *** Calls on the capability *)
Definition page_goto (u : string) : M unit := call (EGoto u) (goto page u).
Definition page_wait_for_load_state (st : string) : M unit :=
  call (EWaitForLoadState st) (wait_for_load_state page st).
Definition page_wait_for_selector (sel : string) (timeout : Z) : M (option H) :=
  call (EWaitForSelector sel timeout) (wait_for_selector page sel timeout).
Definition page_query_selector (sel : string) : M (option H) :=
  call (EQuerySelector sel) (query_selector page sel).
Definition el_get_attribute (h : H) (name : string) : M (option string) :=
  call (EGetAttribute name) (get_attribute page h name).
Definition el_query_selector (h : H) (sel : string) : M (option H) :=
  call (EElementQuerySelector sel) (element_query_selector page h sel).
Definition el_click (h : H) : M unit := call EClick (click page h).
Definition el_fill (h : H) (t : string) : M unit := call (EFill t) (fill page h t).
Definition el_type (h : H) (t : string) (delay : Z) : M unit :=
  call (EType t delay) (type page h t delay).
Definition el_press (h : H) (key : string) : M unit :=
  call (EPress key) (press page h key).
Definition page_keyboard_press (key : string) : M unit :=
  call (EKeyboardPress key) (keyboard_press page key).
Definition page_url_call : M string := call EUrl (url_call page).
Definition page_title : M string := call ETitle (title page).
Definition page_screenshot : M string := call EScreenshot (screenshot page).
Definition asyncio_sleep (d : decimal) : M unit :=
  call (ESleep d) (fun w => (inr tt, sleep page d w)).

(** *** [initialize] and [close]
    The four start-up calls (engine, browser, context, page) are one
    [launch] of the capability, the four tear-down calls one [shutdown]. *)
Definition close : M unit :=
  try_except (call EShutdown (shutdown page) ;; set_initialized false)
             (fun _ => ret tt).

Definition initialize : M unit :=
  i <- get_initialized ;;
  if i then ret tt
  else try_except
         (call ELaunch (launch page) ;; set_initialized true)
         (fun e => close ;;
            raise (BrowserAutomationError
                     ("Browser initialization failed: " ++ message e))).

(** *** [_navigate] *)
Definition _navigate (u : string) : M dict :=
  let u : string :=
    if startswith u "http://" || startswith u "https://" then u
    else ("https://" ++ u)%string in
  try_except
    (page_goto u ;;
     page_wait_for_load_state "networkidle" ;;
     cur <- read (url page) ;;
     t <- page_title ;;
     ret [("url", VStr cur); ("title", VStr t)])
    (fun e => raise (NavigationError
                       ("Failed to navigate to " ++ u ++ ": " ++ message e))).

(** *** [_find_element]
    Each strategy is one [try: ... except: pass] block of the source; its
    value [Some h] stands for [return h], [None] for falling through. *)
Definition by_text (identifier : string) (timeout : Z) : M (option H) :=
  try_except
    (page_wait_for_selector ("text='" ++ identifier ++ "'") timeout)
    (fun _ => ret None).

Definition by_placeholder (identifier : string) (timeout : Z) : M (option H) :=
  try_except
    (page_wait_for_selector ("[placeholder*='" ++ identifier ++ "' i]") timeout)
    (fun _ => ret None).

(** [if label_for:] *)
Definition truthy (s : option string) : option string :=
  match s with
  | Some x => if String.eqb x "" then None else Some x
  | None => None
  end.

Definition by_label (identifier : string) (timeout : Z) : M (option H) :=
  try_except
    (element <- page_wait_for_selector
                  ("label:has-text('" ++ identifier ++ "')") timeout ;;
     match element with
     | None => ret None
     | Some element =>
         label_for <- el_get_attribute element "for" ;;
         input_element <-
           match truthy label_for with
           | Some label_for =>
               page_wait_for_selector ("#" ++ label_for) 1000
           | None => ret None
           end ;;
         match input_element with
         | Some input_element => ret (Some input_element)
         | None =>
             input_inside <- el_query_selector element "input" ;;
             match input_inside with
             | Some input_inside => ret (Some input_inside)
             | None => ret (Some element)
             end
         end
     end)
    (fun _ => ret None).

Definition common_selectors (identifier : string) : list string :=
  [ "input[name*='" ++ identifier ++ "' i]";
    "input[id*='" ++ identifier ++ "' i]";
    "input[aria-label*='" ++ identifier ++ "' i]";
    "textarea[name*='" ++ identifier ++ "' i]";
    "textarea[id*='" ++ identifier ++ "' i]";
    "textarea[aria-label*='" ++ identifier ++ "' i]";
    "button:has-text('" ++ identifier ++ "')";
    "a:has-text('" ++ identifier ++ "')" ]%string.

Definition by_selector (selector : string) : M (option H) :=
  try_except (page_wait_for_selector selector 1000) (fun _ => ret None).

(** The [for selector in common_selectors] loop. *)
Fixpoint probe (selectors : list string) : M (option H) :=
  match selectors with
  | [] => ret None
  | selector :: rest =>
      r <- by_selector selector ;;
      match r with
      | Some element => ret (Some element)
      | None => probe rest
      end
  end.

Definition not_found (identifier : string) : exn :=
  ElementNotFoundError ("Could not find element: " ++ identifier) None.

Definition _find_element (identifier : string) (timeout : Z) : M H :=
  try_except
    (r1 <- by_text identifier timeout ;;
     match r1 with
     | Some element => ret element
     | None =>
     r2 <- by_placeholder identifier timeout ;;
     match r2 with
     | Some element => ret element
     | None =>
     r3 <- by_label identifier timeout ;;
     match r3 with
     | Some element => ret element
     | None =>
     r4 <- probe (common_selectors identifier) ;;
     match r4 with
     | Some element => ret element
     | None => raise (not_found identifier)
     end end end end)
    (fun e =>
       if is_ElementNotFoundError e then raise e
       else raise (ElementNotFoundError
                     ("Error finding element '" ++ identifier ++ "': "
                      ++ message e) None)).

(** *** [_click], [_type] *)
Definition _click (text : string) : M dict :=
  try_except
    (element <- _find_element text 5000 ;;
     el_click element ;;
     ret [("clicked", VStr text)])
    (fun e =>
       if is_ElementNotFoundError e then raise e
       else raise (BrowserAutomationError
                     ("Failed to click on '" ++ text ++ "': " ++ message e))).

Definition _type (text field : string) : M dict :=
  try_except
    (element <- _find_element field 5000 ;;
     el_fill element "" ;;
     el_type element text 50 ;;
     ret [("field", VStr field); ("typed", VStr text)])
    (fun e =>
       if is_ElementNotFoundError e then raise e
       else raise (BrowserAutomationError
                     ("Failed to type in field '" ++ field ++ "': "
                      ++ message e))).

(** *** [_submit] *)
Definition submit_selectors : list string :=
  [ "input[type='submit']";
    "button[type='submit']";
    "button:has-text('Submit')";
    "button:has-text('Login')";
    "button:has-text('Sign in')";
    "button:has-text('Search')";
    "button:has-text('Send')" ]%string.

Definition submitted : dict := [("submitted", VBool true)].

(** One turn of the button loop: [true] stands for the [return] inside
    the [try], [false] for [continue] or for a falsy handle. *)
Definition try_button (selector : string) : M bool :=
  try_except
    (submit_button <- page_wait_for_selector selector 1000 ;;
     match submit_button with
     | Some submit_button =>
         el_click submit_button ;;
         page_wait_for_load_state "networkidle" ;;
         ret true
     | None => ret false
     end)
    (fun _ => ret false).

Fixpoint button_loop (selectors : list string) : M bool :=
  match selectors with
  | [] => ret false
  | selector :: rest =>
      r <- try_button selector ;;
      if r then ret true else button_loop rest
  end.

Definition _submit : M dict :=
  try_except
    (done <- button_loop submit_selectors ;;
     if done then ret submitted
     else
       form <- page_query_selector "form" ;;
       match form with
       | Some form =>
           el_press form "Enter" ;;
           page_wait_for_load_state "networkidle" ;;
           ret submitted
       | None =>
           page_keyboard_press "Enter" ;;
           page_wait_for_load_state "networkidle" ;;
           ret submitted
       end)
    (fun e => raise (BrowserAutomationError
                       ("Failed to submit form: " ++ message e))).

(** *** [_wait], [_wait_for_element], [_screenshot] *)
Definition _wait (seconds : decimal) : M dict :=
  try_except
    (asyncio_sleep seconds ;; ret [("waited", VFloat seconds)])
    (fun e => raise (BrowserAutomationError ("Failed to wait: " ++ message e))).

Definition _wait_for_element (element : string) (timeout : Z) : M dict :=
  try_except
    (_find_element element timeout ;; ret [("waited_for", VStr element)])
    (fun e =>
       if is_ElementNotFoundError e
       then raise (TimeoutError ("Timed out waiting for element: " ++ element))
       else raise (BrowserAutomationError
                     ("Failed to wait for element: " ++ message e))).

Definition _screenshot : M dict :=
  try_except
    (screenshot_bytes <- page_screenshot ;;
     ret [("screenshot", VStr (b64encode page screenshot_bytes));
          ("format", VStr "base64")])
    (fun e => raise (BrowserAutomationError
                       ("Failed to take screenshot: " ++ message e))).

(** *** [_login] *)
Definition login_buttons : list string :=
  [ "Log in"; "Login"; "Sign in"; "Signin"; "Sign In"; "Account"; "My Account" ]%string.
Definition username_fields : list string := [ "username"; "email"; "user"; "login" ]%string.
Definition password_fields : list string := [ "password"; "pass" ]%string.

(** One turn of the login-button loop: [true] stands for [break]. *)
Definition try_login_button (button_text : string) : M bool :=
  try_except
    (login_button <- page_wait_for_selector ("text='" ++ button_text ++ "'") 2000 ;;
     match login_button with
     | Some login_button =>
         el_click login_button ;;
         page_wait_for_load_state "networkidle" ;;
         ret true
     | None => ret false
     end)
    (fun _ => ret false).

Fixpoint login_button_loop (buttons : list string) : M unit :=
  match buttons with
  | [] => ret tt
  | button_text :: rest =>
      r <- try_login_button button_text ;;
      if r then ret tt else login_button_loop rest
  end.

(** [for field in fields: try: _type(text, field); filled = True; break
    except: continue]; the value is [filled]. *)
Fixpoint fill_first (text : string) (fields : list string) : M bool :=
  match fields with
  | [] => ret false
  | field :: rest =>
      r <- try_except (_type text field ;; ret true) (fun _ => ret false) ;;
      if r then ret true else fill_first text rest
  end.

Definition is_not_none {A} (o : option A) : bool :=
  match o with Some _ => true | None => false end.

Definition _login (website : string) (username password : option string) : M dict :=
  try_except
    (_navigate website ;;
     login_button_loop login_buttons ;;
     match truthy username, truthy password with
     | Some u, Some p =>
         username_filled <- fill_first u username_fields ;;
         if negb username_filled
         then raise (ElementNotFoundError "Could not find username field" None)
         else
           password_filled <- fill_first p password_fields ;;
           if negb password_filled
           then raise (ElementNotFoundError "Could not find password field" None)
           else _submit ;; ret tt
     | _, _ => ret tt
     end ;;
     current_url <- page_url_call ;;
     ret [("logged_in", VBool (is_not_none username && is_not_none password));
          ("website", VStr website);
          ("current_url", VStr current_url)])
    (fun e => raise (BrowserAutomationError
                       ("Failed to login to " ++ website ++ ": " ++ message e))).

(** *** [_search] *)
Definition search_fields : list string := [ "search"; "q"; "query"; "find" ]%string.
Definition search_box_selector : string :=
  "input[type='search'], input[placeholder*='search' i], input[aria-label*='search' i]".

Definition _search (query website : string) : M dict :=
  try_except
    (_navigate website ;;
     search_filled <- fill_first query search_fields ;;
     search_filled <-
       (if search_filled then ret true
        else
          search_box <- page_wait_for_selector search_box_selector 5000 ;;
          match search_box with
          | Some search_box =>
              el_fill search_box "" ;;
              el_type search_box query 50 ;;
              ret true
          | None => ret false
          end) ;;
     if negb search_filled
     then raise (ElementNotFoundError "Could not find search field" None)
     else
       _submit ;;
       page_wait_for_load_state "networkidle" ;;
       current_url <- page_url_call ;;
       ret [("search_query", VStr query);
            ("website", VStr website);
            ("current_url", VStr current_url)])
    (fun e => raise (BrowserAutomationError
                       ("Failed to search for '" ++ query ++ "' on " ++ website
                        ++ ": " ++ message e))).

(** *** [execute]
      The handler is called with the dict unpacked as keyword arguments:
      every key must name a parameter of the
      handler and every parameter without a default must be given, else
      the call raises [TypeError]; the interpreter's wording of the message
      is not reproduced.  Python checks no annotation: a value of another
      type than the annotated one would be handed to the handler as it is
      (an integer number of seconds, say, is slept through).  The handlers
      below take their arguments at the annotated types, which is what the
      parser produces, and a value of another type is outside of what they
      describe: [bad_call] stands in for it, and nothing that is proved
      about the dispatcher turns on that case. *)
Definition keys_ok (allowed : list string) (p : dict) : bool :=
  forallb (fun kv => existsb (String.eqb (fst kv)) allowed) p.

Definition bad_call (f : string) : exn :=
  TypeError (f ++ "() got unexpected or missing arguments").

Definition str_arg (p : dict) (k : string) : option string :=
  match get p k with
  | Some (VStr s) => Some s
  | _ => None
  end.

Definition opt_str_arg (p : dict) (k : string) : option (option string) :=
  match get p k with
  | None | Some VNone => Some None
  | Some (VStr s) => Some (Some s)
  | Some _ => None
  end.

Definition call_navigate (p : dict) : M dict :=
  match keys_ok ["url"%string] p, str_arg p "url" with
  | true, Some u => _navigate u
  | _, _ => raise (bad_call "_navigate")
  end.

Definition call_click (p : dict) : M dict :=
  match keys_ok ["text"%string] p, str_arg p "text" with
  | true, Some t => _click t
  | _, _ => raise (bad_call "_click")
  end.

Definition call_type (p : dict) : M dict :=
  match keys_ok ["text"; "field"]%string p, str_arg p "text", str_arg p "field" with
  | true, Some t, Some f => _type t f
  | _, _, _ => raise (bad_call "_type")
  end.

Definition call_submit (p : dict) : M dict :=
  if keys_ok [] p then _submit else raise (bad_call "_submit").

Definition call_wait (p : dict) : M dict :=
  match keys_ok ["seconds"%string] p, get p "seconds" with
  | true, Some (VFloat d) => _wait d
  | _, _ => raise (bad_call "_wait")
  end.

Definition call_wait_for_element (p : dict) : M dict :=
  match keys_ok ["element"; "timeout"]%string p, str_arg p "element", get p "timeout" with
  | true, Some e, None => _wait_for_element e 30000
  | true, Some e, Some (VInt t) => _wait_for_element e t
  | _, _, _ => raise (bad_call "_wait_for_element")
  end.

Definition call_screenshot (p : dict) : M dict :=
  if keys_ok [] p then _screenshot else raise (bad_call "_screenshot").

Definition call_login (p : dict) : M dict :=
  match keys_ok ["website"; "username"; "password"]%string p,
        str_arg p "website", opt_str_arg p "username", opt_str_arg p "password" with
  | true, Some w, Some u, Some pw => _login w u pw
  | _, _, _, _ => raise (bad_call "_login")
  end.

Definition call_search (p : dict) : M dict :=
  match keys_ok ["query"; "website"]%string p, str_arg p "query", str_arg p "website" with
  | true, Some qy, Some w => _search qy w
  | _, _, _ => raise (bad_call "_search")
  end.

Definition action_map : list (string * (dict -> M dict)) :=
  [ ("navigate", call_navigate);
    ("click", call_click);
    ("type", call_type);
    ("submit", call_submit);
    ("wait", call_wait);
    ("wait_for_element", call_wait_for_element);
    ("screenshot", call_screenshot);
    ("login", call_login);
    ("search", call_search) ]%string.

Fixpoint lookup_action (m : list (string * (dict -> M dict))) (action : string)
  : option (dict -> M dict) :=
  match m with
  | [] => None
  | (a, h) :: m' => if String.eqb a action then Some h else lookup_action m' action
  end.

Definition execute (action : string) (parameters : dict) : M dict :=
  i <- get_initialized ;;
  (if i then ret tt else initialize) ;;
  match lookup_action action_map action with
  | None => raise (BrowserAutomationError ("Unknown action: " ++ action))
  | Some handler =>
      try_except (handler parameters)
        (fun e =>
           if is_BrowserAutomationError e then raise e
           else raise (BrowserAutomationError
                         ("Failed to execute " ++ action ++ ": " ++ message e)))
  end.

End Controller.
End Browser.

(* ===================================================================== *)
(** ** [captcha_handler.py]: [CaptchaHandler]                             *)
(* ===================================================================== *)

Module Captcha.
Import PyStr Exn Value Page.
Local Open Scope py_scope.

Definition CAPTCHA_SELECTORS : list string :=
  [ "iframe[src*='recaptcha']";
    "iframe[title*='recaptcha']";
    ".g-recaptcha";
    "div[data-sitekey]";
    "iframe[src*='hcaptcha']";
    ".h-captcha";
    "img[alt*='captcha' i]";
    "input[name*='captcha' i]";
    "div[class*='captcha' i]";
    "label:has-text('I am not a robot')";
    "div:has-text('Verify you are human')" ]%string.

Definition CAPTCHA_TEXT_PATTERNS : list string :=
  [ "captcha";
    "i am not a robot";
    "verify you are human";
    "security check";
    "prove you're human";
    "human verification" ]%string.

(** The [if/elif] chain on the lower-cased selector. *)
Definition classify (selector : string) : string :=
  let selector_text := lower selector in
  if contains "recaptcha" selector_text then "recaptcha"
  else if contains "hcaptcha" selector_text then "hcaptcha"
  else if contains "captcha" selector_text then "text_captcha"
  else "unknown".

Section Handler.
Context {W H : Type} (page : api W H) (api_key : option string).

Local Abbreviation M := (M W).
Local Abbreviation page_query_selector := (Browser.page_query_selector page).
Local Abbreviation page_screenshot := (Browser.page_screenshot page).
Local Abbreviation asyncio_sleep := (Browser.asyncio_sleep page).

Definition page_content : M string := call EContent (content page).
Definition save_file (path data : string) : M unit :=
  call (EWriteFile path) (write_file page path data).

(** [(is_captcha_present, captcha_type, captcha_element)] *)
Definition detection : Type := bool * option string * option H.
Definition absent : detection := (false, None, None).

(** The [for selector in CAPTCHA_SELECTORS] loop; [Some d] stands for
    [return d] from inside it. *)
Fixpoint scan_selectors (selectors : list string) : M (option detection) :=
  match selectors with
  | [] => ret None
  | selector :: rest =>
      element <- page_query_selector selector ;;
      match element with
      | Some element => ret (Some (true, Some (classify selector), Some element))
      | None => scan_selectors rest
      end
  end.

(** The body of the [try] in [detect_captcha]. *)
Definition detect_body : M detection :=
  hit <- scan_selectors CAPTCHA_SELECTORS ;;
  match hit with
  | Some d => ret d
  | None =>
      page_text <- page_content ;;
      let page_text_lower := lower page_text in
      if existsb (fun pattern => contains pattern page_text_lower)
                 CAPTCHA_TEXT_PATTERNS
      then ret (true, Some "unknown"%string, None)
      else ret absent
  end.

Definition detect_captcha : M detection :=
  try_except detect_body (fun _ => ret absent).

Definition _solve_recaptcha : M bool :=
  match Browser.truthy api_key with
  | None => ret false
  | Some _ => ret false
  end.
Definition _solve_hcaptcha : M bool := ret false.
Definition _solve_text_captcha (element : option H) : M bool := ret false.

Definition one_second : decimal := Decimal 1 0.
Definition wait_time : nat := 30.

(** [for i in range(n)]: a poll, then either [return True] or a sleep of
    one second; [False] when the range is used up. *)
Fixpoint poll (n : nat) : M bool :=
  match n with
  | O => ret false
  | S n' =>
      d <- detect_captcha ;;
      let '(is_captcha_present, _, _) := d in
      if negb is_captcha_present then ret true
      else asyncio_sleep one_second ;; poll n'
  end.

Definition _manual_intervention : M bool :=
  try_except
    (screenshot_bytes <- page_screenshot ;;
     save_file "captcha_screenshot.png" screenshot_bytes ;;
     poll wait_time)
    (fun _ => ret false).

(** [None] stands for leaving the [if self.api_key] block without a
    [return]. *)
Definition solve_captcha (captcha_type : string) (captcha_element : option H)
  : M bool :=
  solved <-
    match Browser.truthy api_key with
    | Some _ =>
        try_except
          (if String.eqb captcha_type "recaptcha"
           then r <- _solve_recaptcha ;; ret (Some r)
           else if String.eqb captcha_type "hcaptcha"
           then r <- _solve_hcaptcha ;; ret (Some r)
           else if String.eqb captcha_type "text_captcha"
           then r <- _solve_text_captcha captcha_element ;; ret (Some r)
           else ret None)
          (fun _ => ret None)
    | None => ret None
    end ;;
  match solved with
  | Some r => ret r
  | None => _manual_intervention
  end.

End Handler.
End Captcha.

(* ===================================================================== *)
(** ** Concrete pages                                                     *)
(* ===================================================================== *)

Module Scenario.
Import PyStr Exn Value Page.

(** A page told by tables.  The world is the number of sleeps so far, so
    a table may change its answer as time passes; handles are numbers. *)
Record script : Type := Script {
  on_wait_for_selector : nat -> string -> exn + option nat;
  on_query_selector : nat -> string -> exn + option nat;
  on_get_attribute : nat -> string -> exn + option string;
  on_element_query_selector : nat -> string -> exn + option nat;
  on_load_state : exn + unit;
  on_keyboard : exn + unit;
  on_screenshot : exn + string;
  on_content : nat -> exn + string
}.

Definition scripted (sc : script) : api nat nat :=
  {| launch := fun w => (inr tt, w);
     shutdown := fun w => (inr tt, w);
     goto := fun _ w => (inr tt, w);
     wait_for_load_state := fun _ w => (on_load_state sc, w);
     wait_for_selector := fun sel _ w => (on_wait_for_selector sc w sel, w);
     query_selector := fun sel w => (on_query_selector sc w sel, w);
     get_attribute := fun h name w => (on_get_attribute sc h name, w);
     element_query_selector :=
       fun h sel w => (on_element_query_selector sc h sel, w);
     click := fun _ w => (inr tt, w);
     fill := fun _ _ w => (inr tt, w);
     type := fun _ _ _ w => (inr tt, w);
     press := fun _ _ w => (on_keyboard sc, w);
     keyboard_press := fun _ w => (on_keyboard sc, w);
     url := fun _ => "https://example.com/";
     url_call := fun w => (inr "https://example.com/", w);
     title := fun w => (inr "Example", w);
     content := fun w => (on_content sc w, w);
     screenshot := fun w => (on_screenshot sc, w);
     write_file := fun _ _ w => (inr tt, w);
     sleep := fun _ w => S w;
     b64encode := fun b => b |}.

Definition timed_out : exn := PageError "Timeout exceeded".

(** Nothing on the page answers any selector; everything else works. *)
Definition blank : script :=
  {| on_wait_for_selector := fun _ _ => inl timed_out;
     on_query_selector := fun _ _ => inr None;
     on_get_attribute := fun _ _ => inr None;
     on_element_query_selector := fun _ _ => inr None;
     on_load_state := inr tt;
     on_keyboard := inr tt;
     on_screenshot := inr "png";
     on_content := fun _ => inr "<html><body>hello</body></html>" |}.


(** As [blank], but a wait for a selector comes back empty-handed instead
    of raising. *)
Definition silent : script :=
  {| on_wait_for_selector := fun _ _ => inr None;
     on_query_selector := on_query_selector blank;
     on_get_attribute := on_get_attribute blank;
     on_element_query_selector := on_element_query_selector blank;
     on_load_state := on_load_state blank;
     on_keyboard := on_keyboard blank;
     on_screenshot := on_screenshot blank;
     on_content := on_content blank |}.

(** A page whose only findable element is the one with the text
    [username] (handle 1). *)
Definition only_username : script :=
  {| on_wait_for_selector :=
       fun _ sel => if String.eqb sel "text='username'" then inr (Some 1)
                    else inl timed_out;
     on_query_selector := on_query_selector blank;
     on_get_attribute := on_get_attribute blank;
     on_element_query_selector := on_element_query_selector blank;
     on_load_state := on_load_state blank;
     on_keyboard := on_keyboard blank;
     on_screenshot := on_screenshot blank;
     on_content := on_content blank |}.

(** A page that embeds a reCAPTCHA frame (handle 7) and whose text has
    none of the tell-tale phrases. *)
Definition recaptcha_frame : script :=
  {| on_wait_for_selector := on_wait_for_selector blank;
     on_query_selector :=
       fun _ sel => if String.eqb sel "iframe[src*='recaptcha']"
                    then inr (Some 7) else inr None;
     on_get_attribute := on_get_attribute blank;
     on_element_query_selector := on_element_query_selector blank;
     on_load_state := on_load_state blank;
     on_keyboard := on_keyboard blank;
     on_screenshot := on_screenshot blank;
     on_content := on_content blank |}.

(** A page whose challenge widget (handle 3) is there until [k] seconds
    have been slept through, and gone from then on. *)
Definition solved_after (k : nat) : script :=
  {| on_wait_for_selector := on_wait_for_selector blank;
     on_query_selector :=
       fun w sel => if String.eqb sel ".g-recaptcha" && (w <? k)
                    then inr (Some 3) else inr None;
     on_get_attribute := on_get_attribute blank;
     on_element_query_selector := on_element_query_selector blank;
     on_load_state := on_load_state blank;
     on_keyboard := on_keyboard blank;
     on_screenshot := on_screenshot blank;
     on_content := on_content blank |}.

(** As [solved_after k], but no screenshot can be taken. *)
Definition no_screenshot (k : nat) : script :=
  {| on_wait_for_selector := on_wait_for_selector blank;
     on_query_selector := on_query_selector (solved_after k);
     on_get_attribute := on_get_attribute blank;
     on_element_query_selector := on_element_query_selector blank;
     on_load_state := on_load_state blank;
     on_keyboard := on_keyboard blank;
     on_screenshot := inl (PageError "Target closed");
     on_content := on_content blank |}.

(** A page with a challenge widget, whose text cannot be read and whose
    third structural query raises. *)
Definition broken_query : script :=
  {| on_wait_for_selector := on_wait_for_selector blank;
     on_query_selector :=
       fun _ sel => if String.eqb sel ".g-recaptcha"
                    then inl (PageError "Execution context was destroyed")
                    else inr None;
     on_get_attribute := on_get_attribute blank;
     on_element_query_selector := on_element_query_selector blank;
     on_load_state := on_load_state blank;
     on_keyboard := on_keyboard blank;
     on_screenshot := on_screenshot blank;
     on_content := fun _ => inl (PageError "Target closed") |}.

(** A page on which the placeholder lookup (handle 2) and the first
    probe (handle 5) would both find something for [email]. *)
Definition two_matches : script :=
  {| on_wait_for_selector :=
       fun _ sel =>
         if String.eqb sel "[placeholder*='email' i]" then inr (Some 2)
         else if String.eqb sel "input[name*='email' i]" then inr (Some 5)
         else inl timed_out;
     on_query_selector := on_query_selector blank;
     on_get_attribute := on_get_attribute blank;
     on_element_query_selector := on_element_query_selector blank;
     on_load_state := on_load_state blank;
     on_keyboard := on_keyboard blank;
     on_screenshot := on_screenshot blank;
     on_content := on_content blank |}.

(** A page with a label for [email] (handle 4) that wraps an input
    (handle 6) and whose [for] attribute names an element that is not
    there. *)
Definition dangling_label : script :=
  {| on_wait_for_selector :=
       fun _ sel =>
         if String.eqb sel "label:has-text('email')" then inr (Some 4)
         else inl timed_out;
     on_query_selector := on_query_selector blank;
     on_get_attribute := fun _ _ => inr (Some "missing"%string);
     on_element_query_selector := fun _ _ => inr (Some 6);
     on_load_state := on_load_state blank;
     on_keyboard := on_keyboard blank;
     on_screenshot := on_screenshot blank;
     on_content := on_content blank |}.

(** As [dangling_label], but the label has no [for] attribute. *)
Definition plain_label : script :=
  {| on_wait_for_selector := on_wait_for_selector dangling_label;
     on_query_selector := on_query_selector blank;
     on_get_attribute := fun _ _ => inr None;
     on_element_query_selector := fun _ _ => inr (Some 6);
     on_load_state := on_load_state blank;
     on_keyboard := on_keyboard blank;
     on_screenshot := on_screenshot blank;
     on_content := on_content blank |}.

Definition credentials : dict :=
  [ ("website", VStr "example.com");
    ("username", VStr "alice");
    ("password", VStr "secret") ].

Definition start : state nat := State 0 true [].

End Scenario.

(* ===================================================================== *)
(** ** What a run leaves behind                                           *)
(* ===================================================================== *)

Module Obs.
Import PyStr Exn Value Page.

(** The calls made between two states of one run. *)
Definition since {W} (s s' : state W) : list event :=
  skipn (length (trace s)) (trace s').

(** The timeouts of the selector waits in a trace, in call order. *)
Fixpoint timeouts (tr : list event) : list Z :=
  match tr with
  | [] => []
  | EWaitForSelector _ t :: tr' => t :: timeouts tr'
  | _ :: tr' => timeouts tr'
  end.

(** The number of sleeps in a trace. *)
Fixpoint sleeps (tr : list event) : nat :=
  match tr with
  | [] => 0
  | ESleep _ :: tr' => S (sleeps tr')
  | _ :: tr' => sleeps tr'
  end.

(** The number of queries for [sel] in a trace. *)
Fixpoint queries (sel : string) (tr : list event) : nat :=
  match tr with
  | [] => 0
  | EQuerySelector x :: tr' =>
      (if String.eqb x sel then 1 else 0) + queries sel tr'
  | _ :: tr' => queries sel tr'
  end.

(** Every call a computation makes satisfies [P]. *)
Definition emits {W A} (P : event -> Prop) (c : M W A) : Prop :=
  forall s, exists l, trace (snd (c s)) = trace s ++ l /\ Forall P l.

Section Table.
Context {W H : Type} (page : api W H).

(** The resolution chain as the specification words it: one ordered table
    of lookups, the first one to produce a handle decides. *)
Definition strategies (identifier : string) (timeout : Z)
  : list (M W (option H)) :=
  [ Browser.by_text page identifier timeout;
    Browser.by_placeholder page identifier timeout;
    Browser.by_label page identifier timeout ]
  ++ map (Browser.by_selector page) (Browser.common_selectors identifier).

Fixpoint first_hit (l : list (M W (option H))) (s : state W)
  : option H * state W :=
  match l with
  | [] => (None, s)
  | c :: l' =>
      match c s with
      | (inr (Some h), s') => (Some h, s')
      | (_, s') => first_hit l' s'
      end
  end.

(** The selectors of the three lookups that are given the caller's budget. *)
Definition budget_selectors (identifier : string) : list string :=
  [ "text='" ++ identifier ++ "'";
    "[placeholder*='" ++ identifier ++ "' i]";
    "label:has-text('" ++ identifier ++ "')" ]%string.

End Table.

Section Polls.
Context {W H : Type} (page : api W H).

(** Every structural query of [sels] comes back empty, without raising;
    the value is the world after the last of them. *)
Fixpoint all_miss (sels : list string) (w : W) : option W :=
  match sels with
  | [] => Some w
  | sel :: rest =>
      match query_selector page sel w with
      | (inr None, w') => all_miss rest w'
      | _ => None
      end
  end.




End Polls.

(** The error [_submit] wraps a failure in. *)
Definition submit_failed (e : exn) : exn :=
  BrowserAutomationError ("Failed to submit form: " ++ message e).


(** What resolution may ask of the page: the three budgeted lookups at the
    caller's timeout; the label's target and the probes at 1000 ms; the
    label's attribute and its inner input. *)
Definition lookup_ok (identifier : string) (timeout : Z) (ev : event) : Prop :=
  match ev with
  | EWaitForSelector sel z =>
      (In sel (budget_selectors identifier) /\ z = timeout)
      \/ ((In sel (Browser.common_selectors identifier)
           \/ exists target, sel = ("#" ++ target)%string) /\ z = 1000%Z)
  | EGetAttribute _ | EElementQuerySelector _ => True
  | _ => False
  end.

End Obs.

(* ===================================================================== *)
(** ** Definitions that follow the specification's wording                *)
(* ===================================================================== *)

Module Spec.
Import PyStr Re Exn Value Parser.

(** The specification's reading of a match: the pattern has to use the
    normalized text up, from its first character to its last. *)
Definition re_fullmatch (r : regex) (text : string) : option groups :=
  run groups r (chars text) []
      (fun rest g => match rest with [] => Some g | _ :: _ => None end).

Definition no_rule_matches_fully (text : string) : bool :=
  forallb (fun rl : rule =>
             match re_fullmatch (fst (fst rl)) text with
             | None => true
             | Some _ => false
             end) COMMAND_PATTERNS.

End Spec.

(* ===================================================================== *)
(** ** What a pattern can match, stated without the matcher              *)
(* ===================================================================== *)

Module ReSpec.
Import PyStr Re.

(** [matches r w]: the pattern [r], read under [re.IGNORECASE], matches
    exactly the text [w]. *)
Inductive matches : regex -> list ascii -> Prop :=
| m_eps : matches Eps []
| m_chr a c : chr_i a c = true -> matches (Chr a) [c]
| m_cls p c : cls_i p c = true -> matches (Cls p) [c]
| m_seq r1 r2 w1 w2 :
    matches r1 w1 -> matches r2 w2 -> matches (Seq r1 r2) (w1 ++ w2)
| m_alt_l r1 r2 w : matches r1 w -> matches (Alt r1 r2) w
| m_alt_r r1 r2 w : matches r2 w -> matches (Alt r1 r2) w
| m_rep min p w :
    min <= length w -> Forall (fun c => cls_i p c = true) w ->
    matches (Rep min p) w
| m_grp n r w : matches r w -> matches (Grp n r) w.

(** The 256 characters, and a test that holds of all of them. *)
Definition all_ascii : list ascii := map ascii_of_nat (List.seq 0 256).
Definition ascii_all (f : ascii -> bool) : bool := forallb f all_ascii.

(** Every character the pattern can consume satisfies [P]. *)
Fixpoint only (P : ascii -> bool) (r : regex) : bool :=
  match r with
  | Eps => true
  | Chr a => ascii_all (fun c => implb (chr_i a c) (P c))
  | Cls p => ascii_all (fun c => implb (cls_i p c) (P c))
  | Seq r1 r2 | Alt r1 r2 => only P r1 && only P r2
  | Rep _ p => ascii_all (fun c => implb (cls_i p c) (P c))
  | Grp _ r1 => only P r1
  end.

(** The pattern cannot match the empty text. *)
Fixpoint nonempty (r : regex) : bool :=
  match r with
  | Eps => false
  | Chr _ | Cls _ => true
  | Seq r1 r2 => nonempty r1 || nonempty r2
  | Alt r1 r2 => nonempty r1 && nonempty r2
  | Rep min _ => 0 <? min
  | Grp _ r1 => nonempty r1
  end.

(** Every capture group of the pattern takes a non-empty text made of
    characters that satisfy [P]. *)
Fixpoint groups_only (P : ascii -> bool) (r : regex) : bool :=
  match r with
  | Grp _ r1 => only P r1 && nonempty r1 && groups_only P r1
  | Seq r1 r2 | Alt r1 r2 => groups_only P r1 && groups_only P r2
  | Eps | Chr _ | Cls _ | Rep _ _ => true
  end.

(** Every match of the pattern binds group [n]. *)
Fixpoint binds (n : nat) (r : regex) : bool :=
  match r with
  | Grp i r1 => Nat.eqb i n || binds n r1
  | Seq r1 r2 => binds n r1 || binds n r2
  | Alt r1 r2 => binds n r1 && binds n r2
  | Eps | Chr _ | Cls _ | Rep _ _ => false
  end.

Section Invariant.
(** [Pin] holds of every character of the text that is matched, [Q n w]
    of whatever text [w] group [n] is allowed to capture. *)
Variable Pin : ascii -> Prop.
Variable Q : nat -> list ascii -> Prop.

Definition good (g : groups) : Prop :=
  forall n t, In (n, t) g -> Q n (chars t) /\ Forall Pin (chars t).

Fixpoint grp_ok (r : regex) : Prop :=
  match r with
  | Grp n r1 => (forall w, matches r1 w -> Q n w) /\ grp_ok r1
  | Seq r1 r2 | Alt r1 r2 => grp_ok r1 /\ grp_ok r2
  | Eps | Chr _ | Cls _ | Rep _ _ => True
  end.

End Invariant.

(** [strip] on the list of characters. *)
Definition strip_chars (l : list ascii) : list ascii :=
  rev (lstrip_chars (rev (lstrip_chars l))).

(** [s.upper()] *)
Definition upper (s : string) : string := str (map upper_char (chars s)).

Definition no_upper (c : ascii) : Prop := is_upper c = false.
Definition no_quote (c : ascii) : bool := negb (quote c).

(** A captured text that is not empty and has no quote character. *)
Definition plain (w : list ascii) : Prop :=
  w <> [] /\ forallb no_quote w = true.

(** A captured text that does not begin with a URL scheme. *)
Definition schemeless (w : list ascii) : Prop :=
  prefix_chars (chars "http://") w = false
  /\ prefix_chars (chars "https://") w = false.

(** Every string among the values of a dict satisfies [P]. *)
Definition str_values (P : string -> Prop) (d : Value.dict) : Prop :=
  forall k v, In (k, Value.VStr v) d -> P v.

End ReSpec.

(* ===================================================================== *)
(** ** [browser.py]: [get_status]                                        *)
(* ===================================================================== *)

Module Status.
Import PyStr Exn Value Page.
Local Open Scope py_scope.

Section Controller.
Context {W H : Type} (page : api W H).

Definition get_status : M W dict :=
  i <- get_initialized ;;
  if negb i then ret [("status", VStr "not_initialized")]
  else
    try_except
      (current_url <- Browser.page_url_call page ;;
       t <- Browser.page_title page ;;
       ret [("status", VStr "ready");
            ("current_url", VStr current_url);
            ("title", VStr t)])
      (fun e => ret [("status", VStr "error"); ("message", VStr (message e))]).

End Controller.

(** Counts over a trace. *)
Fixpoint clicks (tr : list event) : nat :=
  match tr with
  | [] => 0
  | EClick :: tr' => S (clicks tr')
  | _ :: tr' => clicks tr'
  end.

Fixpoint enters (tr : list event) : nat :=
  match tr with
  | [] => 0
  | EPress _ :: tr' | EKeyboardPress _ :: tr' => S (enters tr')
  | _ :: tr' => enters tr'
  end.

(** Calls that only look at the page. *)
Definition looks (ev : event) : Prop :=
  match ev with
  | EQuerySelector _ | EContent => True
  | _ => False
  end.

(** Calls that put text into the page or send it a key. *)
Definition writes (ev : event) : bool :=
  match ev with
  | EFill _ | EType _ _ | EPress _ | EKeyboardPress _ => true
  | _ => false
  end.

End Status.

(* ===================================================================== *)
(** ** [error_handler.py]: the classes and [handle_error]                 *)
(* ===================================================================== *)

Module ErrorHandler.
Import PyStr Exn Value.

Inductive klass : Type :=
| KBrowserAutomationError
| KElementNotFoundError
| KNavigationError
| KTimeoutError
| KAuthenticationError
| KInvalidCommandError
| KBrowserInitializationError.

(** [error.__class__.__name__] *)
Definition class_name (k : klass) : string :=
  match k with
  | KBrowserAutomationError => "BrowserAutomationError"
  | KElementNotFoundError => "ElementNotFoundError"
  | KNavigationError => "NavigationError"
  | KTimeoutError => "TimeoutError"
  | KAuthenticationError => "AuthenticationError"
  | KInvalidCommandError => "InvalidCommandError"
  | KBrowserInitializationError => "BrowserInitializationError"
  end.

(** An instance: its class, [message] and [details]. *)
Record error : Type := Error {
  klass_of : klass;
  message_of : string;
  details_of : dict
}.

(** [{key: x} if x else {}] *)
Definition detail (key : string) (x : option string) : dict :=
  match Browser.truthy x with
  | Some v => [(key, VStr v)]
  | None => []
  end.

Definition new_BrowserAutomationError (message : string) (details : option dict)
  : error :=
  Error KBrowserAutomationError message
        match details with Some d => d | None => [] end.

Definition new_ElementNotFoundError (message : string)
           (element_identifier : option string) : error :=
  Error KElementNotFoundError message (detail "element_identifier" element_identifier).

Definition new_NavigationError (message : string) (url : option string) : error :=
  Error KNavigationError message (detail "url" url).

(** [timeout_ms] is left out when it is [None] or 0. *)
Definition new_TimeoutError (message : string) (operation : option string)
           (timeout_ms : option Z) : error :=
  Error KTimeoutError message
        (detail "operation" operation
         ++ match timeout_ms with
            | Some t => if Z.eqb t 0 then [] else [("timeout_ms", VInt t)]
            | None => []
            end).

Definition new_AuthenticationError (message : string) (website : option string)
  : error :=
  Error KAuthenticationError message (detail "website" website).

Definition new_InvalidCommandError (message : string) (command : option string)
  : error :=
  Error KInvalidCommandError message (detail "command" command).

Definition new_BrowserInitializationError (message : string)
           (browser_type : option string) : error :=
  Error KBrowserInitializationError message (detail "browser_type" browser_type).

(** [error.recovery_suggestions], an attribute the base class lacks. *)
Definition recovery_suggestions (k : klass) : option (list string) :=
  match k with
  | KBrowserAutomationError => None
  | KElementNotFoundError =>
      Some [ "Check if the element identifier is correct";
             "Try waiting longer for the element to appear";
             "The page structure might have changed" ]%string
  | KNavigationError =>
      Some [ "Check if the URL is correct and accessible";
             "Verify your internet connection";
             "The website might be down or blocking automated access" ]%string
  | KTimeoutError =>
      Some [ "Try increasing the timeout value";
             "Check if the page is loading slowly";
             "The operation might be blocked by the website" ]%string
  | KAuthenticationError =>
      Some [ "Verify your credentials";
             "Check if the website requires two-factor authentication";
             "The website might have anti-bot measures in place" ]%string
  | KInvalidCommandError =>
      Some [ "Check the command syntax";
             "See documentation for supported commands";
             "Try rephrasing the command" ]%string
  | KBrowserInitializationError =>
      Some [ "Check if the browser is installed and accessible";
             "Verify that no other instances are running that might cause conflicts";
             "Try restarting the application" ]%string
  end.

(** What [handle_error] is given: an instance of the hierarchy, or any
    other exception with its text and the traceback of the moment. *)
Inductive raised : Type :=
| Typed (e : error)
| Untyped (message traceback : string).

(** The dict [handle_error] returns; [suggestions] is [None] when the key
    [recovery_suggestions] is not put in. *)
Record response : Type := Response {
  error_type : string;
  message : string;
  details : dict;
  suggestions : option (list string)
}.

Definition handle_error (r : raised) : response :=
  match r with
  | Typed e =>
      Response (class_name (klass_of e)) (message_of e) (details_of e)
               (recovery_suggestions (klass_of e))
  | Untyped m tb =>
      Response "UnexpectedError" m [("traceback", VStr tb)] None
  end.

(** The exceptions of the controller as instances: no call site of
    [browser.py] passes a URL, an operation or a timeout. *)
Definition of_exn (e : exn) (traceback : string) : raised :=
  match e with
  | BrowserAutomationError m => Typed (new_BrowserAutomationError m None)
  | ElementNotFoundError m i => Typed (new_ElementNotFoundError m i)
  | NavigationError m => Typed (new_NavigationError m None)
  | TimeoutError m => Typed (new_TimeoutError m None None)
  | ValueError m | TypeError m | PageError m => Untyped m traceback
  end.

End ErrorHandler.

(* ===================================================================== *)
(** ** [app.py]: [interact]                                              *)
(* ===================================================================== *)

Module App.
Import PyStr Exn Value Page.

(** [d[k] = v] *)
Fixpoint set_key (d : dict) (k : string) (v : value) : dict :=
  match d with
  | [] => [(k, v)]
  | (k', v') :: d' =>
      if String.eqb k' k then (k', v) :: d' else (k', v') :: set_key d' k v
  end.

(** [d.update(o)] *)
Definition update (d o : dict) : dict :=
  fold_left (fun acc kv => set_key acc (fst kv) (snd kv)) o d.

Definition keys (d : dict) : list string := map fst d.

(** What the endpoint answers: a [CommandResponse], whose [data] is the
    result of the action or the dict of [handle_error], or an
    [HTTPException]. *)
Inductive answer : Type :=
| CommandResponse (success : bool) (message : string)
                  (data : dict + ErrorHandler.response)
| HTTPException (status_code : nat) (detail : string).

Section Endpoint.
Context {W H : Type} (page : api W H).
(** [traceback.format_exc()], whatever it is at the time. *)
Variable traceback : string.

(** The two [except] clauses of [interact]. *)
Definition on_error (e : exn) : answer :=
  if is_BrowserAutomationError e
  then CommandResponse false (Exn.message e)
         (inr (ErrorHandler.handle_error (ErrorHandler.of_exn e traceback)))
  else HTTPException 500 ("Unexpected error: " ++ Exn.message e).

(** [controller] tells whether the global [browser_controller] is set. *)
Definition interact (controller : bool) (command : string)
           (options : option dict) : M W answer :=
  if negb controller
  then ret (HTTPException 500 "Browser controller not initialized")
  else
    match Parser.parse_command command with
    | inl e => ret (on_error e)
    | inr (action, parameters) =>
        let parameters :=
          match options with
          | Some (kv :: o) => update parameters (kv :: o)
          | Some [] | None => parameters
          end in
        fun s =>
          match Browser.execute page action parameters s with
          | (inr result, s') =>
              (inr (CommandResponse true
                      ("Successfully executed: " ++ command) (inl result)), s')
          | (inl e, s') => (inr (on_error e), s')
          end
    end.

End Endpoint.
End App.

(* ===================================================================== *)
(** ** [browser.py]: [initialize] and [close], call by call;
       [app.py]: [reset_browser]                                          *)
(* ===================================================================== *)

Module Lifecycle.
Import Exn.

(** The calls on Playwright that start and stop a session. *)
Inductive step : Type :=
| Start
| Launch (headless : bool) (slow_mo : Z)
| NewContext (width height : Z) (user_agent : string)
| NewPage
| PageClose
| ContextClose
| BrowserClose
| Stop.

(** A call returns ([None]) or raises ([Some e]) and may change the
    world. *)
Definition engine (W : Type) : Type := step -> W -> option exn * W.

(** The fields of a [BrowserController]; of the four handles only whether
    they are set matters. *)
Record controller : Type := Controller {
  headless : bool;
  slow_mo : Z;
  playwright : bool;
  browser : bool;
  context : bool;
  page : bool;
  initialized : bool
}.

(** [BrowserController()] *)
Definition fresh : controller := Controller false 50 false false false false false.

Record st (W : Type) : Type := St {
  world : W;
  self : controller;
  log : list step
}.
Arguments St {W}.
Arguments world {W}.
Arguments self {W}.
Arguments log {W}.

Definition L (W A : Type) : Type := st W -> (exn + A) * st W.

Definition ret {W A} (a : A) : L W A := fun s => (inr a, s).
Definition raise {W A} (e : exn) : L W A := fun s => (inl e, s).
Definition bind {W A B} (c : L W A) (f : A -> L W B) : L W B :=
  fun s => match c s with
           | (inr a, s') => f a s'
           | (inl e, s') => (inl e, s')
           end.
Definition try_except {W A} (c : L W A) (h : exn -> L W A) : L W A :=
  fun s => match c s with
           | (inr a, s') => (inr a, s')
           | (inl e, s') => h e s'
           end.
Definition get {W} : L W controller := fun s => (inr (self s), s).
Definition put {W} (c : controller) : L W unit :=
  fun s => (inr tt, St (world s) c (log s)).

Declare Scope life_scope.
Delimit Scope life_scope with life.
Notation "x <- c ;; k" := (bind c (fun x => k))
  (at level 61, c at next level, right associativity) : life_scope.
Notation "c ;; k" := (bind c (fun _ => k))
  (at level 61, right associativity) : life_scope.
Local Open Scope life_scope.

Definition set_playwright (b : bool) (c : controller) : controller :=
  Controller (headless c) (slow_mo c) b (browser c) (context c) (page c)
             (initialized c).
Definition set_browser (b : bool) (c : controller) : controller :=
  Controller (headless c) (slow_mo c) (playwright c) b (context c) (page c)
             (initialized c).
Definition set_context (b : bool) (c : controller) : controller :=
  Controller (headless c) (slow_mo c) (playwright c) (browser c) b (page c)
             (initialized c).
Definition set_page (b : bool) (c : controller) : controller :=
  Controller (headless c) (slow_mo c) (playwright c) (browser c) (context c) b
             (initialized c).
Definition set_initialized (b : bool) (c : controller) : controller :=
  Controller (headless c) (slow_mo c) (playwright c) (browser c) (context c)
             (page c) b.

Definition user_agent : string :=
  "Mozilla/5.0 (Windows NT 10.0; Win64; x64) AppleWebKit/537.36 (KHTML, like Gecko) Chrome/96.0.4664.110 Safari/537.36".

Section Session.
Context {W : Type} (e : engine W).

Definition call (x : step) : L W unit :=
  fun s => let '(r, w) := e x (world s) in
           (match r with None => inr tt | Some ex => inl ex end,
            St w (self s) (log s ++ [x])).

Definition modify (f : controller -> controller) : L W unit :=
  c <- get ;; put (f c).

(** [if self.x: await self.x.close(); self.x = None] *)
Definition release (held : controller -> bool) (x : step)
           (clear : controller -> controller) : L W unit :=
  c <- get ;;
  if held c then call x ;; modify clear else ret tt.

Definition close : L W unit :=
  try_except
    (release page PageClose (set_page false) ;;
     release context ContextClose (set_context false) ;;
     release browser BrowserClose (set_browser false) ;;
     release playwright Stop (set_playwright false) ;;
     modify (set_initialized false))
    (fun _ => ret tt).

Definition initialize : L W unit :=
  c <- get ;;
  if initialized c then ret tt
  else
    try_except
      (call Start ;;
       modify (set_playwright true) ;;
       c <- get ;;
       call (Launch (headless c) (slow_mo c)) ;;
       modify (set_browser true) ;;
       call (NewContext 1280 800 user_agent) ;;
       modify (set_context true) ;;
       call NewPage ;;
       modify (set_page true) ;;
       modify (set_initialized true))
      (fun ex =>
         close ;;
         raise (BrowserAutomationError
                  ("Browser initialization failed: " ++ message ex))).

(** [reset_browser] of [app.py]; [controller] tells whether the global
    [browser_controller] is set.  The value is the dict it returns, as
    [status] and [message]. *)
Definition reset_browser (controller : bool) : L W (string * string) :=
  try_except
    ((if controller then close else ret tt) ;;
     put fresh ;;
     initialize ;;
     ret ("success", "Browser reset successfully")%string)
    (fun ex => ret ("error"%string, message ex)).

End Session.

Definition starts (c : controller) : list step :=
  [Start; Launch (headless c) (slow_mo c); NewContext 1280 800 user_agent; NewPage].

(** The closing calls [close] owes a controller, in the order it makes
    them. *)
Definition owed (c : controller) : list step :=
  (if page c then [PageClose] else [])
  ++ (if context c then [ContextClose] else [])
  ++ (if browser c then [BrowserClose] else [])
  ++ (if playwright c then [Stop] else []).

Definition is_closer (x : step) : bool :=
  match x with
  | PageClose | ContextClose | BrowserClose | Stop => true
  | _ => false
  end.

Definition all_released (c : controller) : Prop :=
  playwright c = false /\ browser c = false /\ context c = false
  /\ page c = false /\ initialized c = false.

Definition all_held (c : controller) : Prop :=
  playwright c = true /\ browser c = true /\ context c = true
  /\ page c = true /\ initialized c = true.

End Lifecycle.

(* ===================================================================== *)
(** ** Vocabulary for the further properties                              *)
(* ===================================================================== *)

Module More.
Import PyStr Exn Value Page.

(** [None] or a string, as a parameter value. *)
Definition opt_value (o : option string) : value :=
  match o with
  | Some s => VStr s
  | None => VNone
  end.

(** The parameter names of each handler of [action_map]. *)
Definition parameters_of (action : string) : option (list string) :=
  if String.eqb action "navigate" then Some ["url"]%string
  else if String.eqb action "click" then Some ["text"]%string
  else if String.eqb action "type" then Some ["text"; "field"]%string
  else if String.eqb action "submit" then Some []
  else if String.eqb action "wait" then Some ["seconds"]%string
  else if String.eqb action "wait_for_element" then Some ["element"; "timeout"]%string
  else if String.eqb action "screenshot" then Some []
  else if String.eqb action "login" then Some ["website"; "username"; "password"]%string
  else if String.eqb action "search" then Some ["query"; "website"]%string
  else None.

(** A call that is no click. *)
Definition no_click (ev : event) : Prop := ev <> EClick.

(** A call that writes nothing into the page. *)
Definition no_write (ev : event) : Prop := Status.writes ev = false.

End More.

(* ===================================================================== *)
(** ** More concrete pages and engines                                    *)
(* ===================================================================== *)

Module Pages.
Import PyStr Exn Value Page Scenario.

(** A page on which every selector finds a button (handle 1) and whose
    network never goes idle. *)
Definition busy_form : script :=
  {| on_wait_for_selector := fun _ _ => inr (Some 1);
     on_query_selector := on_query_selector blank;
     on_get_attribute := on_get_attribute blank;
     on_element_query_selector := on_element_query_selector blank;
     on_load_state := inl timed_out;
     on_keyboard := on_keyboard blank;
     on_screenshot := on_screenshot blank;
     on_content := on_content blank |}.

(** A page without any challenge widget whose text asks the visitor to
    verify being human. *)
Definition human_check : script :=
  {| on_wait_for_selector := on_wait_for_selector blank;
     on_query_selector := on_query_selector blank;
     on_get_attribute := on_get_attribute blank;
     on_element_query_selector := on_element_query_selector blank;
     on_load_state := on_load_state blank;
     on_keyboard := on_keyboard blank;
     on_screenshot := on_screenshot blank;
     on_content :=
       fun _ => inr "<html><body><p>Please Verify You Are Human</p></body></html>" |}.

(** An engine whose every call returns. *)
Definition steady : Lifecycle.engine unit := fun _ w => (None, w).

(** An engine on which closing the page raises and all else returns. *)
Definition page_stuck : Lifecycle.engine unit :=
  fun x w =>
    (match x with
     | Lifecycle.PageClose => Some (PageError "Target closed")
     | _ => None
     end, w).

(** An engine on which no browser can be launched. *)
Definition no_browser : Lifecycle.engine unit :=
  fun x w =>
    (match x with
     | Lifecycle.Launch _ _ => Some (PageError "Executable doesn't exist")
     | _ => None
     end, w).

(** A controller after a successful [initialize]. *)
Definition running : Lifecycle.controller :=
  Lifecycle.Controller false 50 true true true true true.

End Pages.

(* ===================================================================== *)
(** ** What a run of start-up and closing calls leaves behind             *)
(* ===================================================================== *)

Module LifeObs.
Import Exn Lifecycle.

Section Calls.
Context {W : Type} (e : engine W).

(** The calls of [l] made in order until one of them raises: the calls
    made (the raising one included), the exception if one was raised, and
    the world after the last call made. *)
Fixpoint attempt (l : list step) (w : W) : list step * option exn * W :=
  match l with
  | [] => ([], None, w)
  | x :: l' =>
      match e x w with
      | (Some ex, w') => ([x], Some ex, w')
      | (None, w') =>
          let '(made, failure, w'') := attempt l' w' in
          (x :: made, failure, w'')
      end
  end.

End Calls.

(** The closing call that gives back what a start-up call acquired. *)
Definition undo (x : step) : step :=
  match x with
  | Start => Stop
  | Launch _ _ => BrowserClose
  | NewContext _ _ _ => ContextClose
  | NewPage => PageClose
  | PageClose | ContextClose | BrowserClose | Stop => x
  end.

End LifeObs.

(* ===================================================================== *)
(** * Properties of the command parser                                    *)
(* ===================================================================== *)

Import PyStr Re Exn Value Parser.

(** When no rule matches, the loop runs off the list and raises. *)
Lemma try_patterns_all_miss (rules : list rule) (c : string) :
  Forall (misses c) rules ->
  try_patterns rules c = inl (ValueError ("Could not understand command: " ++ c)).
Proof.
  induction 1 as [| [[p a] f] rest Hm _ IH]; simpl; [reflexivity |].
  unfold misses, pattern_of in Hm; simpl in Hm. now rewrite Hm.
Qed.

(** First match wins: the rules before the first matching one are passed
    over, the ones after it are never tried. *)
Lemma try_patterns_first_match (pre post : list rule) (rl : rule)
      (c : string) (m : groups) :
  Forall (misses c) pre ->
  re_match (pattern_of rl) c = Some m ->
  try_patterns (pre ++ rl :: post) c =
    match extractor_of rl m with
    | inl e => inl e
    | inr params => inr (action_of rl, params)
    end.
Proof.
  intros Hpre Hm. induction Hpre as [| [[p a] f] rest Hx _ IH]; simpl.
  - destruct rl as [[p a] f]; unfold pattern_of in Hm; simpl in *.
    now rewrite Hm.
  - unfold misses, pattern_of in Hx; simpl in Hx. now rewrite Hx.
Qed.

(** The quoted and the bare click rule can match the same text; the
    quoted one, listed first, decides the parameters. *)
Example click_both_match :
  let c := "click on button 'ok'" in
  re_match pat_click_quoted c <> None /\
  re_match pat_click_bare c <> None /\
  parse_command c = inr ("click", [("text", VStr "ok")]).
Proof. vm_compute. repeat split; discriminate. Qed.

Lemma may_start_sound (R : Type) (r : regex) (a : ascii) :
  may_start r a = false ->
  forall s g (k : cont R), run R r (a :: s) g k = None.
Proof.
  induction r as [| x | p | r1 IH1 r2 IH2 | r1 IH1 r2 IH2 | min p | n r1 IH1];
    cbn; intros Hs s g k; try discriminate.
  - now rewrite Hs.
  - now rewrite Hs.
  - now apply IH1.
  - apply orb_false_iff in Hs. destruct Hs as [H1 H2].
    now rewrite IH1, IH2.
  - apply orb_false_iff in Hs. destruct Hs as [H1 H2].
    rewrite H2. destruct min; [discriminate | reflexivity].
  - now apply IH1.
Qed.

Lemma match_starts (r : regex) (a : ascii) (c : string) (m : groups) :
  re_match r (String a c) = Some m -> may_start r a = true.
Proof.
  intro Hm. destruct (may_start r a) eqn:E; [reflexivity |].
  unfold re_match in Hm. cbn [chars list_ascii_of_string] in Hm.
  now rewrite (may_start_sound _ r a E) in Hm.
Qed.

Lemma miss_by_first_char (r : regex) (a : ascii) (c : string) :
  may_start r a = false -> re_match r (String a c) = None.
Proof. intro E. unfold re_match. now apply may_start_sound. Qed.

Lemma chr_i_true (x a : ascii) : chr_i x a = true -> lower_char a = lower_char x.
Proof. unfold chr_i. intro E. apply Ascii.eqb_eq in E. now symmetry. Qed.

(** The rule-ordering property in general: whenever the quoted click rule
    matches the normalized text, it is the rule that decides, and likewise
    the quoted type rule; no rule listed before them can match a text that
    they match, and the bare rules listed after them are not consulted. *)
Lemma quoted_rules_decide (command : string) (m : groups) :
  (re_match pat_click_quoted (normalize command) = Some m ->
   parse_command command = inr ("click", [("text", VStr (grp m 1))]))
  /\ (re_match pat_type_quoted (normalize command) = Some m ->
      parse_command command
      = inr ("type", [("text", VStr (grp m 1)); ("field", VStr (grp m 2))])).
Proof.
  unfold parse_command. generalize (normalize command) as c. intro c.
  split; intro Hm.
  - destruct c as [| a c]; [discriminate Hm |].
    pose proof (match_starts _ _ _ _ Hm) as Hs. cbn in Hs.
    apply chr_i_true in Hs.
    unfold COMMAND_PATTERNS. cbn [try_patterns].
    rewrite (miss_by_first_char pat_navigate a c)
      by (cbn; unfold chr_i; rewrite Hs; reflexivity).
    now rewrite Hm.
  - destruct c as [| a c]; [discriminate Hm |].
    pose proof (match_starts _ _ _ _ Hm) as Hs. cbn in Hs.
    unfold COMMAND_PATTERNS. cbn [try_patterns].
    assert (Hfirst : lower_char a = "t"%char \/ lower_char a = "e"%char
                     \/ lower_char a = "i"%char \/ lower_char a = "f"%char).
    { repeat (apply orb_true_iff in Hs; destruct Hs as [Hs | Hs]);
        apply chr_i_true in Hs; auto. }
    rewrite (miss_by_first_char pat_navigate a c),
            (miss_by_first_char pat_click_quoted a c),
            (miss_by_first_char pat_click_bare a c), Hm;
      [ reflexivity | | | ];
      cbn; unfold chr_i;
      destruct Hfirst as [-> | [-> | [-> | ->]]]; reflexivity.
Qed.

Lemma py_float_error (s : string) (e : exn) :
  py_float s = inl e ->
  e = ValueError ("could not convert string to float: '" ++ s ++ "'").
Proof.
  unfold py_float. destruct (split_dot (chars s)) as [ip rest].
  destruct (_ && _); [discriminate | now intros [= <-]].
Qed.

(** C1 (the code at the input in question).  The quoted type rule is the one
    that parses [type "hello world" into the search field], and its text is
    [hello world]; but the field it extracts is [search field], not
    [search]: the greedy field group runs to the end of the text before the
    optional [ field] suffix is tried. *)
Theorem parse_type_quoted_keeps_suffix :
  parse_command ("type " ++ q ++ "hello world" ++ q ++ " into the search field")
  = inr ("type", [("text", VStr "hello world"); ("field", VStr "search field")]).
Proof. vm_compute. reflexivity. Qed.

(** On that input only the quoted rule matches: the bare rule cannot start
    on a quote. *)
Example type_bare_misses_quoted :
  re_match pat_type_bare
    ("type " ++ q ++ "hello world" ++ q ++ " into the search field") = None.
Proof. vm_compute. reflexivity. Qed.

(** The bare click rule, by contrast, does leave its suffix out. *)
Example click_bare_drops_suffix :
  parse_command "Click on the login button" = inr ("click", [("text", VStr "login")]).
Proof. vm_compute. reflexivity. Qed.

(** C7 (the code at the input in question).  [Click on "Sign In"] is not
    parsed at all: the quoted click rule wants one of the words button,
    link or element before the quote, and the bare rule admits no quote. *)
Theorem parse_click_on_quoted_fails :
  parse_command ("Click on " ++ q ++ "Sign In" ++ q)
  = inl (ValueError ("Could not understand command: click on "
                     ++ q ++ "sign in" ++ q)).
Proof. vm_compute. reflexivity. Qed.

(** With the word the rule wants, the text comes back case-folded. *)
Example click_button_quoted_is_folded :
  parse_command ("Click on the button " ++ q ++ "Sign In" ++ q)
  = inr ("click", [("text", VStr "sign in")]).
Proof. vm_compute. reflexivity. Qed.

(** C6, refuted as stated: no rule matches the whole of this text, yet it
    is parsed, on the strength of its first word. *)
Lemma parse_accepts_partial_match :
  Spec.no_rule_matches_fully (normalize "submit the form and then log out") = true /\
  parse_command "submit the form and then log out" = inr ("submit", []).
Proof. vm_compute. split; reflexivity. Qed.

(** C6, amended.  [parse_command] raises its own error, [ValueError] with
    the message [Could not understand command: <normalized text>], exactly
    when no rule's pattern matches the normalized text at its start (text
    after the match is not looked at); the only other failure is the wait
    rule matching a number that [float] rejects. *)
Theorem parse_fails_iff_no_prefix_match (command : string) :
  (parse_command command
     = inl (ValueError ("Could not understand command: " ++ normalize command))
   <-> Forall (misses (normalize command)) COMMAND_PATTERNS)
  /\ (forall e, parse_command command = inl e ->
        e = ValueError ("Could not understand command: " ++ normalize command)
        \/ exists m, re_match pat_wait (normalize command) = Some m
                     /\ py_float (grp m 1) = inl e).
Proof.
  unfold parse_command. generalize (normalize command) as c. intro c.
  split; [split |].
  - intro Hr. unfold COMMAND_PATTERNS in *. cbn [try_patterns] in Hr.
    repeat
      match type of Hr with
      | match re_match ?p c with _ => _ end = _ =>
          let E := fresh "E" in
          destruct (re_match p c) eqn:E;
          [ first [ discriminate Hr
                  | destruct (py_float _) eqn:F in Hr;
                    [ apply py_float_error in F; subst;
                      injection Hr as Hr; cbn in Hr; discriminate Hr
                    | discriminate Hr ] ]
          | ]
      end.
    repeat constructor; assumption.
  - apply try_patterns_all_miss.
  - intros e Hr. unfold COMMAND_PATTERNS in *. cbn [try_patterns] in Hr.
    repeat
      match type of Hr with
      | match re_match ?p c with _ => _ end = _ =>
          let E := fresh "E" in
          destruct (re_match p c) eqn:E;
          [ first [ discriminate Hr
                  | right; eexists; split; [reflexivity |];
                    destruct (py_float _) eqn:F in Hr;
                    [ now injection Hr as -> | discriminate Hr ] ]
          | ]
      end.
    left. now injection Hr as <-.
Qed.

Lemma parse_fails_iff_no_prefix_match_witness :
  parse_command "dance" = inl (ValueError "Could not understand command: dance").
Proof.
  apply (proj2 (proj1 (parse_fails_iff_no_prefix_match "dance"))).
  repeat constructor.
Defined.

(* ===================================================================== *)
(** * Properties of element resolution                                    *)
(* ===================================================================== *)

Import Page Browser Obs.

Section Resolution.
Context {W H : Type} (page : api W H).

(** A block of the shape [try: ... except: pass] never raises. *)
Lemma swallow_total {A} (c : M W (option A)) (s : state W) :
  exists r s', try_except c (fun _ => ret None) s = (inr r, s').
Proof.
  unfold try_except, ret. destruct (c s) as [[e | r] s']; eauto.
Qed.

Lemma by_text_total (i : string) (t : Z) (s : state W) :
  exists r s', by_text page i t s = (inr r, s').
Proof. apply swallow_total. Qed.

Lemma by_placeholder_total (i : string) (t : Z) (s : state W) :
  exists r s', by_placeholder page i t s = (inr r, s').
Proof. apply swallow_total. Qed.

Lemma by_label_total (i : string) (t : Z) (s : state W) :
  exists r s', by_label page i t s = (inr r, s').
Proof. apply swallow_total. Qed.

Lemma by_selector_total (sel : string) (s : state W) :
  exists r s', by_selector page sel s = (inr r, s').
Proof. apply swallow_total. Qed.

(** The probe loop is the table walk over its selectors. *)
Lemma probe_first_hit (sels : list string) (s : state W) :
  probe page sels s =
    (inr (fst (first_hit (map (by_selector page) sels) s)),
     snd (first_hit (map (by_selector page) sels) s)).
Proof.
  revert s. induction sels as [| sel rest IH]; intro s; simpl.
  - reflexivity.
  - unfold bind.
    destruct (by_selector_total sel s) as (r & s' & E). rewrite E.
    destruct r as [h |]; simpl; [reflexivity | apply IH].
Qed.

(** The nested blocks of [_find_element] are the table walk. *)
Lemma find_element_walks_table (identifier : string) (timeout : Z)
      (s : state W) :
  _find_element page identifier timeout s =
    (match fst (first_hit (strategies page identifier timeout) s) with
     | Some element => inr element
     | None => inl (not_found identifier)
     end,
     snd (first_hit (strategies page identifier timeout) s)).
Proof.
  unfold _find_element, strategies, try_except at 1, bind.
  cbn [app first_hit].
  destruct (by_text_total identifier timeout s) as (r1 & s1 & E1).
  rewrite E1. destruct r1 as [h |]; [reflexivity |].
  destruct (by_placeholder_total identifier timeout s1) as (r2 & s2 & E2).
  rewrite E2. destruct r2 as [h |]; [reflexivity |].
  destruct (by_label_total identifier timeout s2) as (r3 & s3 & E3).
  rewrite E3. destruct r3 as [h |]; [reflexivity |].
  rewrite probe_first_hit.
  destruct (first_hit _ s3) as [[h |] s4]; reflexivity.
Qed.

(** The chain in general.  Resolution walks the fixed table (text,
    placeholder, label, then the eight tag and attribute probes) in order.
    It returns one handle, that of the first lookup of the table to produce
    one, and makes no later lookup.  It raises exactly when every lookup of
    the table has produced nothing, and what it raises then is
    [ElementNotFoundError] with the message
    [Could not find element: <identifier>].  A lookup that raises counts as
    having produced nothing. *)
Lemma find_element_first_match (identifier : string) (timeout : Z)
        (s : state W) :
  _find_element page identifier timeout s =
    (match fst (first_hit (strategies page identifier timeout) s) with
     | Some element => inr element
     | None => inl (ElementNotFoundError
                      ("Could not find element: " ++ identifier) None)
     end,
     snd (first_hit (strategies page identifier timeout) s))
  /\ (forall element,
        fst (_find_element page identifier timeout s) = inr element
        <-> fst (first_hit (strategies page identifier timeout) s) = Some element)
  /\ (forall e,
        fst (_find_element page identifier timeout s) = inl e
        <-> fst (first_hit (strategies page identifier timeout) s) = None
            /\ e = ElementNotFoundError
                     ("Could not find element: " ++ identifier) None).
Proof.
  rewrite find_element_walks_table. unfold not_found. cbn [fst].
  split; [reflexivity |].
  destruct (fst (first_hit (strategies page identifier timeout) s)) as [h |];
    split; intros; split; intro Hx;
    try discriminate Hx; try (destruct Hx; discriminate);
    try (injection Hx as <-; auto); try (destruct Hx as [_ ->]; reflexivity).
Qed.

(** The order inside the label lookup.  With a [for] attribute that names
    an element, that element is the result. *)
Lemma by_label_for (i : string) (t : Z) (s : state W)
      (label input : H) (target : string) (w1 w2 w3 : W) :
  wait_for_selector page ("label:has-text('" ++ i ++ "')") t (world s)
    = (inr (Some label), w1) ->
  get_attribute page label "for" w1 = (inr (Some target), w2) ->
  target <> ""%string ->
  wait_for_selector page ("#" ++ target) 1000 w2 = (inr (Some input), w3) ->
  fst (by_label page i t s) = inr (Some input).
Proof.
  intros E1 E2 Ht E3.
  unfold by_label, try_except, bind, page_wait_for_selector, el_get_attribute,
    call. cbn in E1, E3 |- *. rewrite E1. cbn. rewrite E2. cbn.
  destruct (String.eqb_spec target ""); [contradiction |].
  cbn. rewrite E3. reflexivity.
Qed.

(** Without a [for] attribute, an input inside the label is the result,
    and the label itself when there is none. *)
Lemma by_label_nested_or_self (i : string) (t : Z) (s : state W)
      (label : H) (inner : option H) (w1 w2 w3 : W) :
  wait_for_selector page ("label:has-text('" ++ i ++ "')") t (world s)
    = (inr (Some label), w1) ->
  get_attribute page label "for" w1 = (inr None, w2) ->
  element_query_selector page label "input" w2 = (inr inner, w3) ->
  fst (by_label page i t s)
    = inr (Some match inner with Some input => input | None => label end).
Proof.
  intros E1 E2 E3.
  unfold by_label, try_except, bind, page_wait_for_selector, el_get_attribute,
    el_query_selector, call, ret. cbn in E1 |- *. rewrite E1. cbn.
  rewrite E2. cbn. rewrite E3. destruct inner; reflexivity.
Qed.

(** A [for] attribute whose target cannot be waited for ends the label
    lookup with nothing: the inner input and the label are not tried. *)
Lemma by_label_for_raises (i : string) (t : Z) (s : state W)
      (label : H) (target : string) (e : exn) (w1 w2 w3 : W) :
  wait_for_selector page ("label:has-text('" ++ i ++ "')") t (world s)
    = (inr (Some label), w1) ->
  get_attribute page label "for" w1 = (inr (Some target), w2) ->
  target <> ""%string ->
  wait_for_selector page ("#" ++ target) 1000 w2 = (inl e, w3) ->
  fst (by_label page i t s) = inr None.
Proof.
  intros E1 E2 Ht E3.
  unfold by_label, try_except, bind, page_wait_for_selector, el_get_attribute,
    call. cbn in E1, E3 |- *. rewrite E1. cbn. rewrite E2. cbn.
  destruct (String.eqb_spec target ""); [contradiction |].
  cbn. rewrite E3. reflexivity.
Qed.

End Resolution.

(** Two lookups would match; the earlier one decides, and the later one is
    never made. *)
Example earlier_strategy_decides :
  let r := _find_element (Scenario.scripted Scenario.two_matches) "email" 5000 Scenario.start in
  fst r = inr 2
  /\ trace (snd r) = [ EWaitForSelector "text='email'" 5000;
                       EWaitForSelector "[placeholder*='email' i]" 5000 ].
Proof. vm_compute. split; reflexivity. Qed.

(** Nothing matches: the error names the identifier. *)
Example nothing_matches :
  fst (_find_element (Scenario.scripted Scenario.blank) "email" 5000 Scenario.start)
  = inl (ElementNotFoundError "Could not find element: email" None).
Proof. vm_compute. reflexivity. Qed.

(** C2 (the code at a page that shows the gap).  The page has a label for
    [email]; the label wraps an input; its [for] attribute names an element
    that never appears, so the wait for it raises.  The label lookup then
    ends without asking for the input inside the label and without falling
    back on the label itself: resolution goes on to the probes and raises
    [ElementNotFoundError], although the third strategy, as the
    specification describes it, has a control to return. *)
Theorem find_element_skips_label_fallbacks :
  let page := Scenario.scripted Scenario.dangling_label in
  let r := _find_element page "email" 5000 Scenario.start in
  wait_for_selector page "label:has-text('email')" 5000 0 = (inr (Some 4), 0)
  /\ get_attribute page 4 "for" 0 = (inr (Some "missing"%string), 0)
  /\ wait_for_selector page "#missing" 1000 0 = (inl Scenario.timed_out, 0)
  /\ element_query_selector page 4 "input" 0 = (inr (Some 6), 0)
  /\ fst r = inl (ElementNotFoundError "Could not find element: email" None)
  /\ trace (snd r)
     = [ EWaitForSelector "text='email'" 5000;
         EWaitForSelector "[placeholder*='email' i]" 5000;
         EWaitForSelector "label:has-text('email')" 5000;
         EGetAttribute "for";
         EWaitForSelector "#missing" 1000;
         EWaitForSelector "input[name*='email' i]" 1000;
         EWaitForSelector "input[id*='email' i]" 1000;
         EWaitForSelector "input[aria-label*='email' i]" 1000;
         EWaitForSelector "textarea[name*='email' i]" 1000;
         EWaitForSelector "textarea[id*='email' i]" 1000;
         EWaitForSelector "textarea[aria-label*='email' i]" 1000;
         EWaitForSelector "button:has-text('email')" 1000;
         EWaitForSelector "a:has-text('email')" 1000 ].
Proof. vm_compute. repeat split. Qed.

(** The same label without a [for] attribute resolves to the input it
    wraps. *)
Example label_without_for_resolves :
  fst (_find_element (Scenario.scripted Scenario.plain_label) "email" 5000
         Scenario.start) = inr 6.
Proof. vm_compute. reflexivity. Qed.

(* ===================================================================== *)
(** * Traces                                                              *)
(* ===================================================================== *)

Section Traces.
Context {W : Type}.

Lemma since_app (s s' : state W) (l : list event) :
  trace s' = trace s ++ l -> since s s' = l.
Proof.
  intro E. unfold since. rewrite E.
  rewrite skipn_app, skipn_all, Nat.sub_diag. reflexivity.
Qed.

Lemma emits_ret {A} (P : event -> Prop) (a : A) : emits P (@ret W A a).
Proof. intro s. exists []. cbn. now rewrite app_nil_r. Qed.

Lemma emits_raise {A} (P : event -> Prop) (e : exn) : emits P (@raise W A e).
Proof. intro s. exists []. cbn. now rewrite app_nil_r. Qed.

Lemma emits_call {A} (P : event -> Prop) (ev : event)
      (op : W -> (exn + A) * W) :
  P ev -> emits P (call ev op).
Proof.
  intros Hev s. exists [ev]. unfold call.
  destruct (op (world s)) as [r w]. cbn. auto.
Qed.

Lemma emits_bind {A B} (P : event -> Prop) (c : M W A) (f : A -> M W B) :
  emits P c -> (forall a, emits P (f a)) -> emits P (bind c f).
Proof.
  intros Hc Hf s. unfold bind. destruct (Hc s) as (l1 & E1 & F1).
  destruct (c s) as [[e | a] s1]; cbn in *.
  - eauto.
  - destruct (Hf a s1) as (l2 & E2 & F2). exists (l1 ++ l2).
    rewrite E2, E1, app_assoc. split; [reflexivity | now apply Forall_app].
Qed.

Lemma emits_try {A} (P : event -> Prop) (c : M W A) (h : exn -> M W A) :
  emits P c -> (forall e, emits P (h e)) -> emits P (try_except c h).
Proof.
  intros Hc Hh s. unfold try_except. destruct (Hc s) as (l1 & E1 & F1).
  destruct (c s) as [[e | a] s1]; cbn in *.
  - destruct (Hh e s1) as (l2 & E2 & F2). exists (l1 ++ l2).
    rewrite E2, E1, app_assoc. split; [reflexivity | now apply Forall_app].
  - eauto.
Qed.

Lemma emits_weaken {A} (P Q : event -> Prop) (c : M W A) :
  (forall ev, P ev -> Q ev) -> emits P c -> emits Q c.
Proof.
  intros HPQ Hc s. destruct (Hc s) as (l & E & F). exists l. split; [exact E |].
  eapply Forall_impl; eauto.
Qed.

End Traces.

Create HintDb emits.
#[local] Hint Resolve emits_ret emits_raise emits_call emits_bind emits_try : emits.

Ltac emits_step :=
  first [ apply emits_ret | apply emits_raise
        | apply emits_try; [| intro ] | apply emits_bind; [| intro ]
        | apply emits_call ].

(* ===================================================================== *)
(** * Timeouts of element resolution                                      *)
(* ===================================================================== *)

Section Budget.
Context {W H : Type} (page : api W H).

Lemma by_text_emits (i : string) (t : Z) :
  emits (lookup_ok i t) (by_text page i t).
Proof.
  unfold by_text, page_wait_for_selector. repeat emits_step.
  cbn. left. split; [now left | reflexivity].
Qed.

Lemma by_placeholder_emits (i : string) (t : Z) :
  emits (lookup_ok i t) (by_placeholder page i t).
Proof.
  unfold by_placeholder, page_wait_for_selector. repeat emits_step.
  cbn. left. split; [right; now left | reflexivity].
Qed.

Lemma by_label_emits (i : string) (t : Z) :
  emits (lookup_ok i t) (by_label page i t).
Proof.
  unfold by_label, page_wait_for_selector, el_get_attribute, el_query_selector.
  apply emits_try; [| intro; apply emits_ret].
  apply emits_bind.
  - apply emits_call. cbn. left. split; [right; right; now left | reflexivity].
  - intros [label |]; [| apply emits_ret].
    apply emits_bind; [apply emits_call; exact I |]. intro label_for.
    apply emits_bind.
    + destruct (truthy label_for) as [target |]; [| apply emits_ret].
      apply emits_call. cbn. right. split; [right; now exists target | reflexivity].
    + intros [input |]; [apply emits_ret |].
      apply emits_bind; [apply emits_call; exact I |].
      intros [inner |]; apply emits_ret.
Qed.

Lemma by_selector_emits (i : string) (t : Z) (sel : string) :
  In sel (common_selectors i) -> emits (lookup_ok i t) (by_selector page sel).
Proof.
  intro Hin. unfold by_selector, page_wait_for_selector. repeat emits_step.
  cbn. right. split; [now left | reflexivity].
Qed.

Lemma strategies_emit (i : string) (t : Z) :
  Forall (emits (lookup_ok i t)) (strategies page i t).
Proof.
  unfold strategies. apply Forall_app. split.
  - repeat constructor;
      [apply by_text_emits | apply by_placeholder_emits | apply by_label_emits].
  - apply Forall_forall. intros c Hc. apply in_map_iff in Hc.
    destruct Hc as (sel & <- & Hsel). now apply by_selector_emits.
Qed.

Lemma first_hit_emits (P : event -> Prop) (l : list (M W (option H)))
      (s : state W) :
  Forall (emits P) l ->
  exists evs, trace (snd (first_hit l s)) = trace s ++ evs /\ Forall P evs.
Proof.
  intro Hl. revert s. induction Hl as [| c rest Hc _ IH]; intro s; cbn.
  - exists []. now rewrite app_nil_r.
  - destruct (Hc s) as (l1 & E1 & F1).
    destruct (c s) as [[e | [h |]] s1]; cbn in *; eauto;
      destruct (IH s1) as (l2 & E2 & F2); exists (l1 ++ l2);
      rewrite E2, E1, app_assoc; (split; [reflexivity | now apply Forall_app]).
Qed.

Lemma first_hit_head (P : event -> Prop) (c : M W (option H))
      (l : list (M W (option H))) (s : state W) :
  Forall (emits P) l ->
  exists l2, trace (snd (first_hit (c :: l) s)) = trace (snd (c s)) ++ l2.
Proof.
  intro Hl. cbn.
  destruct (c s) as [[e | [h |]] s1]; cbn;
    try (destruct (first_hit_emits P l s1 Hl) as (l2 & E2 & _); eauto).
  exists []. now rewrite app_nil_r.
Qed.

(** The first call of a run is the text lookup, at the caller's timeout. *)
Lemma by_text_trace (i : string) (t : Z) (s : state W) :
  trace (snd (by_text page i t s))
  = trace s ++ [EWaitForSelector ("text='" ++ i ++ "'") t].
Proof.
  unfold by_text, try_except, page_wait_for_selector, call, ret.
  destruct (wait_for_selector page _ t (world s)) as [[e | r] w]; reflexivity.
Qed.

(** C3, amended.  Resolution opens with the text lookup at the timeout it
    was given.  Each of its selector waits is either one of the three
    budgeted lookups (text, placeholder, label), which are all given that
    same timeout, or the label's target or a tag and attribute probe, which
    are given 1000 ms whatever the budget.  So the waits other than the
    three budgeted ones stay below the budget when, and only as far as, the
    budget is above 1000 ms. *)
Theorem find_element_timeouts (identifier : string) (timeout : Z)
        (s : state W) :
  let evs := since s (snd (_find_element page identifier timeout s)) in
  (exists rest,
      evs = EWaitForSelector ("text='" ++ identifier ++ "'") timeout :: rest)
  /\ Forall (lookup_ok identifier timeout) evs
  /\ ((1000 < timeout)%Z ->
      forall sel z, In (EWaitForSelector sel z) evs ->
                    ~ In sel (budget_selectors identifier) -> (z < timeout)%Z).
Proof.
  cbv zeta. rewrite find_element_walks_table. cbn [snd].
  assert (Hall : exists evs,
             trace (snd (first_hit (strategies page identifier timeout) s))
             = trace s ++ evs /\ Forall (lookup_ok identifier timeout) evs)
    by (apply first_hit_emits, strategies_emit).
  destruct Hall as (evs & E & F). rewrite (since_app _ _ _ E).
  split; [| split].
  - pose proof (strategies_emit identifier timeout) as HS.
    unfold strategies in E, HS. cbn [app] in E, HS.
    apply Forall_inv_tail in HS.
    destruct (first_hit_head _ (by_text page identifier timeout) _ s HS)
      as (l2 & E2).
    rewrite by_text_trace, E, <- app_assoc in E2.
    apply app_inv_head in E2. eauto.
  - exact F.
  - intros Hbig sel z Hin Hnot.
    rewrite Forall_forall in F. specialize (F _ Hin). cbn in F.
    destruct F as [[Hb _] | [_ ->]]; [contradiction | exact Hbig].
Qed.

End Budget.

Import Scenario.

(** C3, refuted as stated: on a page where nothing is found, resolution
    with a budget of 5000 ms waits the full 5000 ms three times over (text,
    placeholder, label) before its eight probes of 1000 ms; the second and
    third strategy are not given less than the budget. *)
Lemma find_element_full_budget_thrice :
  timeouts (since start (snd (_find_element (scripted blank) "email" 5000 start)))
  = [5000; 5000; 5000; 1000; 1000; 1000; 1000; 1000; 1000; 1000; 1000]%Z
  /\ ~ Forall (fun z => (z < 5000)%Z)
         (tl (timeouts
                (since start
                   (snd (_find_element (scripted blank) "email" 5000 start))))).
Proof.
  split; [vm_compute; reflexivity |].
  vm_compute. intro F. apply Forall_inv in F. discriminate F.
Qed.

Lemma find_element_timeouts_witness :
  (1000 < 5000)%Z
  /\ In (EWaitForSelector "a:has-text('email')" 1000)
        (since start (snd (_find_element (scripted blank) "email" 5000 start)))
  /\ (1000 < 5000)%Z.
Proof.
  split; [reflexivity | split].
  - vm_compute. do 10 right. left. reflexivity.
  - apply (proj2 (proj2 (find_element_timeouts (scripted blank) "email" 5000 start))
             eq_refl "a:has-text('email')"%string 1000%Z).
    + vm_compute. do 10 right. left. reflexivity.
    + vm_compute. intros [E | [E | [E | []]]]; discriminate E.
Defined.

(** With a budget below 1000 ms the probes even outlast it. *)
Example probes_outlast_small_budget :
  timeouts (since start (snd (_find_element (scripted blank) "email" 500 start)))
  = [500; 500; 500; 1000; 1000; 1000; 1000; 1000; 1000; 1000; 1000]%Z.
Proof. vm_compute. reflexivity. Qed.

(* ===================================================================== *)
(** * Properties of [_submit]                                             *)
(* ===================================================================== *)

Section Submit.
Context {W H : Type} (page : api W H).




End Submit.



(* ===================================================================== *)
(** * Properties of the dispatcher                                        *)
(* ===================================================================== *)

Section Dispatch.
Context {W H : Type} (page : api W H).

(** Whatever goes wrong inside [_login], its last [except] clause turns it
    into a plain [BrowserAutomationError]: no [ElementNotFoundError] that
    is raised in its body gets out as one. *)
Lemma login_errors_are_plain (website : string) (username password : option string)
      (s : state W) (e : exn) :
  fst (_login page website username password s) = inl e ->
  exists m, e = BrowserAutomationError
                  ("Failed to login to " ++ website ++ ": " ++ m).
Proof.
  unfold _login, try_except, raise.
  match goal with |- context [match ?c s with _ => _ end] =>
    destruct (c s) as [[e0 | d] s'] end; cbn [fst]; intro Hx;
    [injection Hx as <-; exists (message e0); reflexivity | discriminate Hx].
Qed.

Lemma search_errors_are_plain (query website : string) (s : state W) (e : exn) :
  fst (_search page query website s) = inl e ->
  exists m, e = BrowserAutomationError
                  ("Failed to search for '" ++ query ++ "' on " ++ website
                   ++ ": " ++ m).
Proof.
  unfold _search, try_except, raise.
  match goal with |- context [match ?c s with _ => _ end] =>
    destruct (c s) as [[e0 | d] s'] end; cbn [fst]; intro Hx;
    [injection Hx as <-; exists (message e0); reflexivity | discriminate Hx].
Qed.

(** The dispatcher itself re-raises what a handler lets out, as long as
    it is a [BrowserAutomationError] or one of its subclasses. *)
Lemma execute_passes_typed_errors (action : string) (parameters : dict)
      (handler : dict -> M W dict) (s s' : state W) (e : exn) :
  initialized s = true ->
  lookup_action (action_map page) action = Some handler ->
  handler parameters s = (inl e, s') ->
  is_BrowserAutomationError e = true ->
  execute page action parameters s = (inl e, s').
Proof.
  intros Hi Hl Hh He.
  unfold execute, bind, get_initialized. rewrite Hi. cbn [ret].
  rewrite Hl. unfold try_except. rewrite Hh, He. reflexivity.
Qed.

End Dispatch.

(** C5 (the code at the inputs in question).  A login with credentials on a
    page where no username field resolves, one where only the username
    field resolves, and a search on a page with no search field: each time
    the error that leaves [execute] is the base [BrowserAutomationError]
    wrapping the message of the [ElementNotFoundError] raised inside the
    handler, not that [ElementNotFoundError]. *)
Theorem login_search_rewrap_not_found :
  fst (execute (scripted blank) "login" credentials start)
  = inl (BrowserAutomationError
           "Failed to login to example.com: Could not find username field")
  /\ fst (execute (scripted only_username) "login" credentials start)
     = inl (BrowserAutomationError
              "Failed to login to example.com: Could not find password field")
  /\ fst (execute (scripted silent) "search"
            [("query", VStr "rocq"); ("website", VStr "example.com")] start)
     = inl (BrowserAutomationError
              "Failed to search for 'rocq' on example.com: Could not find search field").
Proof. repeat split; vm_compute; reflexivity. Qed.

(** The sibling handlers do let it through: [_type] and [_click] re-raise
    an [ElementNotFoundError] before their catch-all clause. *)
Example type_passes_not_found :
  fst (execute (scripted blank) "type"
         [("text", VStr "alice"); ("field", VStr "email")] start)
  = inl (ElementNotFoundError "Could not find element: email" None)
  /\ fst (execute (scripted blank) "click" [("text", VStr "Sign in")] start)
     = inl (ElementNotFoundError "Could not find element: Sign in" None).
Proof. split; vm_compute; reflexivity. Qed.

(** [_wait_for_element] turns it into a [TimeoutError], on purpose. *)
Example wait_for_element_times_out :
  fst (execute (scripted blank) "wait_for_element" [("element", VStr "results")] start)
  = inl (TimeoutError "Timed out waiting for element: results").
Proof. vm_compute. reflexivity. Qed.

(* ===================================================================== *)
(** * Properties of CAPTCHA detection                                     *)
(* ===================================================================== *)

Import Captcha.

Section Detection.
Context {W H : Type} (page : api W H).

Lemma scan_all_miss (sels : list string) (s : state W) (w1 : W) :
  all_miss page sels (world s) = Some w1 ->
  scan_selectors page sels s
  = (inr None, State w1 (initialized s) (trace s ++ map EQuerySelector sels)).
Proof.
  revert s. induction sels as [| sel rest IH]; intros s Hm; cbn in *.
  - injection Hm as <-. rewrite app_nil_r. now destruct s.
  - unfold bind, page_query_selector, call.
    destruct (query_selector page sel (world s)) as [[e | [h |]] w'];
      try discriminate Hm.
    rewrite (IH (State w' (initialized s) (trace s ++ [EQuerySelector sel])) Hm).
    cbn. now rewrite <- app_assoc.
Qed.

Lemma scan_stops (pre post : list string) (sel : string) (s : state W)
      (w1 w2 : W) (r : exn + option H) :
  all_miss page pre (world s) = Some w1 ->
  query_selector page sel w1 = (r, w2) ->
  r <> inr None ->
  scan_selectors page (pre ++ sel :: post) s
  = (match r with
     | inl e => inl e
     | inr (Some h) => inr (Some (true, Some (classify sel), Some h))
     | inr None => inr None
     end,
     State w2 (initialized s) (trace s ++ map EQuerySelector (pre ++ [sel]))).
Proof.
  revert s. induction pre as [| p pre IH]; intros s Hm Hq Hr; cbn in *.
  - injection Hm as <-. unfold bind, page_query_selector, call. rewrite Hq.
    destruct r as [e | [h |]]; [reflexivity | reflexivity | contradiction].
  - unfold bind, page_query_selector, call.
    destruct (query_selector page p (world s)) as [[e | [h |]] w'];
      try discriminate Hm.
    rewrite (IH (State w' (initialized s) (trace s ++ [EQuerySelector p])) Hm Hq Hr).
    cbn. now rewrite <- app_assoc.
Qed.

(** C8.  Detection queries the structural selectors in list order.  At the
    first one that yields an element it returns at once: presence, the kind
    read off that selector's own text, and the element; the selectors after
    it are not queried and the page text is not read.  A page with an
    iframe whose source contains [recaptcha] answers the first selector, so
    its kind is [recaptcha] whatever its text.  When every structural query
    comes back empty the page text is read and lower-cased: a listed phrase
    in it gives presence of kind [unknown] with no element, none gives
    absence.  The phrases are [captcha], [i am not a robot],
    [verify you are human], [security check], [prove you're human] and
    [human verification]: each of them, in whatever case the page writes
    it, is enough for presence, and a text with none of the six gives
    absence. *)
Theorem detect_structural_then_text (s : state W) :
  (forall pre sel post w1 h w2,
      CAPTCHA_SELECTORS = pre ++ sel :: post ->
      all_miss page pre (world s) = Some w1 ->
      query_selector page sel w1 = (inr (Some h), w2) ->
      detect_captcha page s
      = (inr (true, Some (classify sel), Some h),
         State w2 (initialized s) (trace s ++ map EQuerySelector (pre ++ [sel]))))
  /\ (forall h w2,
        query_selector page "iframe[src*='recaptcha']" (world s)
          = (inr (Some h), w2) ->
        fst (detect_captcha page s) = inr (true, Some "recaptcha"%string, Some h))
  /\ (forall w1 text w2,
        all_miss page CAPTCHA_SELECTORS (world s) = Some w1 ->
        content page w1 = (inr text, w2) ->
        fst (detect_captcha page s)
        = inr (if existsb (fun pattern => contains pattern (lower text))
                          CAPTCHA_TEXT_PATTERNS
               then (true, Some "unknown"%string, None)
               else (false, None, None)))
  /\ map classify CAPTCHA_SELECTORS
     = [ "recaptcha"; "recaptcha"; "recaptcha"; "unknown"; "hcaptcha";
         "text_captcha"; "text_captcha"; "text_captcha"; "text_captcha";
         "unknown"; "unknown" ]%string
  /\ (forall w1 text w2 phrase,
        all_miss page CAPTCHA_SELECTORS (world s) = Some w1 ->
        content page w1 = (inr text, w2) ->
        In phrase [ "captcha"; "i am not a robot"; "verify you are human";
                    "security check"; "prove you're human";
                    "human verification" ]%string ->
        contains phrase (lower text) = true ->
        fst (detect_captcha page s) = inr (true, Some "unknown"%string, None))
  /\ (forall w1 text w2,
        all_miss page CAPTCHA_SELECTORS (world s) = Some w1 ->
        content page w1 = (inr text, w2) ->
        (forall phrase,
            In phrase [ "captcha"; "i am not a robot"; "verify you are human";
                        "security check"; "prove you're human";
                        "human verification" ]%string ->
            contains phrase (lower text) = false) ->
        fst (detect_captcha page s) = inr (false, None, None)).
Proof.
  assert (Hhit : forall pre sel post w1 h w2,
      CAPTCHA_SELECTORS = pre ++ sel :: post ->
      all_miss page pre (world s) = Some w1 ->
      query_selector page sel w1 = (inr (Some h), w2) ->
      detect_captcha page s
      = (inr (true, Some (classify sel), Some h),
         State w2 (initialized s) (trace s ++ map EQuerySelector (pre ++ [sel])))).
  { intros pre sel post w1 h w2 Hl Hm Hq.
    unfold detect_captcha, try_except, detect_body, bind. rewrite Hl.
    rewrite (scan_stops pre post sel s w1 w2 (inr (Some h)) Hm Hq)
      by discriminate.
    reflexivity. }
  assert (Htext : forall w1 text w2,
      all_miss page CAPTCHA_SELECTORS (world s) = Some w1 ->
      content page w1 = (inr text, w2) ->
      fst (detect_captcha page s)
      = inr (if existsb (fun pattern => contains pattern (lower text))
                        CAPTCHA_TEXT_PATTERNS
             then (true, Some "unknown"%string, None)
             else (false, None, None))).
  { intros w1 text w2 Hm Hc.
    unfold detect_captcha, try_except, detect_body, bind.
    rewrite (scan_all_miss _ _ _ Hm).
    unfold page_content, call, ret, absent. cbn [world]. rewrite Hc.
    destruct (existsb _ _); reflexivity. }
  split; [exact Hhit | split; [| split; [exact Htext | split; [| split]]]].
  - intros h w2 Hq.
    rewrite (Hhit [] "iframe[src*='recaptcha']"%string
                  (tl CAPTCHA_SELECTORS) (world s) h w2 eq_refl eq_refl Hq).
    reflexivity.
  - vm_compute. reflexivity.
  - intros w1 text w2 phrase Hm Hc Hin Hp.
    rewrite (Htext w1 text w2 Hm Hc).
    replace (existsb _ CAPTCHA_TEXT_PATTERNS) with true; [reflexivity |].
    symmetry. apply existsb_exists. exists phrase. split; [exact Hin | exact Hp].
  - intros w1 text w2 Hm Hc Hnone.
    rewrite (Htext w1 text w2 Hm Hc).
    replace (existsb _ CAPTCHA_TEXT_PATTERNS) with false; [reflexivity |].
    symmetry. apply not_true_is_false. intro Hex.
    apply existsb_exists in Hex. destruct Hex as (phrase & Hin & Hp).
    rewrite (Hnone phrase Hin) in Hp. discriminate Hp.
Qed.

Lemma detect_captcha_total (s : state W) :
  exists d s', detect_captcha page s = (inr d, s').
Proof.
  unfold detect_captcha, try_except, ret, absent.
  destruct (detect_body page s) as [[e | d] s']; eauto.
Qed.

(** C10.  [detect_captcha] never raises; whenever the body of its [try]
    raises, be it at a structural query or at the reading of the page text,
    the answer is [(False, None, None)], the very answer it gives for a
    page on which nothing was found. *)
Theorem detect_never_raises (s : state W) :
  (exists d s', detect_captcha page s = (inr d, s'))
  /\ (forall e s', detect_body page s = (inl e, s') ->
        detect_captcha page s = (inr (false, None, None), s'))
  /\ (forall pre sel post w1 e w2,
        CAPTCHA_SELECTORS = pre ++ sel :: post ->
        all_miss page pre (world s) = Some w1 ->
        query_selector page sel w1 = (inl e, w2) ->
        fst (detect_captcha page s) = inr (false, None, None))
  /\ (forall w1 e w2,
        all_miss page CAPTCHA_SELECTORS (world s) = Some w1 ->
        content page w1 = (inl e, w2) ->
        fst (detect_captcha page s) = inr (false, None, None)).
Proof.
  split; [| split; [| split]].
  - apply detect_captcha_total.
  - intros e s' Hb. unfold detect_captcha, try_except. now rewrite Hb.
  - intros pre sel post w1 e w2 Hl Hm Hq.
    unfold detect_captcha, try_except, detect_body, bind. rewrite Hl.
    rewrite (scan_stops pre post sel s w1 w2 (inl e) Hm Hq) by discriminate.
    reflexivity.
  - intros w1 e w2 Hm Hc.
    unfold detect_captcha, try_except, detect_body, bind.
    rewrite (scan_all_miss _ _ _ Hm).
    unfold page_content, call. cbn [world]. rewrite Hc. reflexivity.
Qed.

End Detection.

Lemma detect_structural_then_text_witness :
  fst (detect_captcha (scripted recaptcha_frame) start)
  = inr (true, Some "recaptcha"%string, Some 7)
  /\ fst (detect_captcha (scripted Pages.human_check) start)
     = inr (true, Some "unknown"%string, None)
  /\ fst (detect_captcha (scripted blank) start) = inr (false, None, None).
Proof.
  split; [| split].
  - apply (proj1 (proj2 (detect_structural_then_text
                           (scripted recaptcha_frame) start)) 7 0).
    reflexivity.
  - apply (proj1 (proj2 (proj2 (proj2 (proj2
             (detect_structural_then_text (scripted Pages.human_check) start)))))
             0 "<html><body><p>Please Verify You Are Human</p></body></html>"%string
             0 "verify you are human"%string);
      [reflexivity | reflexivity | cbn; tauto | vm_compute; reflexivity].
  - apply (proj2 (proj2 (proj2 (proj2 (proj2
             (detect_structural_then_text (scripted blank) start)))))
             0 "<html><body>hello</body></html>"%string 0);
      [reflexivity | reflexivity |].
    intros phrase Hin. cbn in Hin.
    repeat (destruct Hin as [<- | Hin]; [vm_compute; reflexivity |]).
    destruct Hin.
Defined.

Lemma detect_never_raises_witness :
  fst (detect_captcha (scripted broken_query) start) = inr (false, None, None).
Proof.
  apply (proj1 (proj2 (proj2 (detect_never_raises (scripted broken_query) start)))
           [ "iframe[src*='recaptcha']"; "iframe[title*='recaptcha']" ]%string
           ".g-recaptcha"%string
           (skipn 3 CAPTCHA_SELECTORS) 0
           (PageError "Execution context was destroyed") 0);
    reflexivity.
Defined.

(* ===================================================================== *)
(** * Properties of the manual-intervention loop                          *)
(* ===================================================================== *)



Section Polling.
Context {W H : Type} (page : api W H).












End Polling.


(** The scenario of the specification: the challenge is there for nine
    polls and gone at the tenth.  [_manual_intervention] answers [True]
    after ten polls and nine sleeps, not after thirty. *)
Example solved_at_tenth_poll :
  let r := _manual_intervention (scripted (solved_after 9)) start in
  fst r = inr true
  /\ queries "iframe[src*='recaptcha']" (trace (snd r)) = 10
  /\ sleeps (trace (snd r)) = 9.
Proof. vm_compute. repeat split. Qed.

(** A challenge that stays makes it give up after thirty polls. *)
Example never_solved :
  let r := _manual_intervention (scripted (solved_after 100)) start in
  fst r = inr false
  /\ queries "iframe[src*='recaptcha']" (trace (snd r)) = 30
  /\ sleeps (trace (snd r)) = 30.
Proof. vm_compute. repeat split. Qed.

(** Before the loop: on a page whose challenge stays and whose
    screenshot cannot be taken, [_manual_intervention] answers failure
    after its one screenshot call; the loop is not entered, so no poll is
    made and no second slept. *)
Example manual_intervention_fails_unpolled :
  let r := _manual_intervention (scripted (no_screenshot 100)) start in
  fst r = inr false
  /\ trace (snd r) = [EScreenshot]
  /\ queries "iframe[src*='recaptcha']" (trace (snd r)) = 0
  /\ sleeps (trace (snd r)) = 0.
Proof. vm_compute. repeat split. Qed.

(* ===================================================================== *)
(** * The matcher against the declarative reading of patterns            *)
(* ===================================================================== *)

Import ReSpec.

Lemma chars_str (l : list ascii) : chars (str l) = l.
Proof. apply list_ascii_of_string_of_list_ascii. Qed.

Lemma str_chars (s : string) : str (chars s) = s.
Proof. apply string_of_list_ascii_of_string. Qed.

Lemma ascii_all_spec (f : ascii -> bool) :
  ascii_all f = true -> forall c, f c = true.
Proof.
  unfold ascii_all, all_ascii. intros Hall c.
  rewrite forallb_forall in Hall. apply Hall.
  rewrite <- (ascii_nat_embedding c). apply in_map, in_seq.
  pose proof (nat_ascii_bounded c). lia.
Qed.

Lemma only_sound (P : ascii -> bool) (r : regex) (w : list ascii) :
  only P r = true -> matches r w -> forallb P w = true.
Proof.
  intros Ho Hm. induction Hm; cbn [only forallb] in Ho |- *.
  - reflexivity.
  - pose proof (ascii_all_spec _ Ho c) as Hc. cbv beta in Hc.
    rewrite H in Hc. cbn in Hc. now rewrite Hc.
  - pose proof (ascii_all_spec _ Ho c) as Hc. cbv beta in Hc.
    rewrite H in Hc. cbn in Hc. now rewrite Hc.
  - apply andb_true_iff in Ho. destruct Ho as [H1 H2].
    rewrite forallb_app, IHHm1, IHHm2; auto.
  - apply andb_true_iff in Ho. now apply IHHm.
  - apply andb_true_iff in Ho. now apply IHHm.
  - apply forallb_forall. intros c Hc.
    rewrite Forall_forall in H0. specialize (H0 c Hc).
    pose proof (ascii_all_spec _ Ho c) as Hx. cbv beta in Hx.
    rewrite H0 in Hx. exact Hx.
  - now apply IHHm.
Qed.

Lemma nonempty_sound (r : regex) (w : list ascii) :
  nonempty r = true -> matches r w -> w <> [].
Proof.
  intros Hn Hm. induction Hm; cbn [nonempty] in Hn; try discriminate.
  - apply orb_true_iff in Hn. intro E. apply app_eq_nil in E.
    destruct E as [E1 E2]. destruct Hn as [Hn | Hn]; [now apply IHHm1 | now apply IHHm2].
  - apply andb_true_iff in Hn. now apply IHHm.
  - apply andb_true_iff in Hn. now apply IHHm.
  - apply Nat.ltb_lt in Hn. intros ->. cbn in H. lia.
  - now apply IHHm.
Qed.

Section Soundness.
Variable Pin : ascii -> Prop.
Variable Q : nat -> list ascii -> Prop.
Variable R : Type.

Lemma rep_sound (p : ascii -> bool) (s : list ascii) :
  forall min g (k : cont R) x,
    rep R p min s g k = Some x ->
    exists w s', s = w ++ s' /\ min <= length w
                 /\ Forall (fun c => cls_i p c = true) w
                 /\ k s' g = Some x.
Proof.
  induction s as [| c s IH]; intros min g k x Hr; cbn in Hr.
  - destruct min; [| discriminate]. exists [], [].
    split; [reflexivity | split; [cbn; lia | now split]].
  - destruct (cls_i p c) eqn:Hc.
    + unfold orelse in Hr.
      destruct (rep R p (Nat.pred min) s g k) as [y |] eqn:Hrec.
      * injection Hr as <-.
        destruct (IH _ _ _ _ Hrec) as (w & s' & -> & Hl & Hf & Hk).
        exists (c :: w), s'.
        split; [reflexivity | split; [cbn; lia | split; [now constructor | exact Hk]]].
      * destruct min; [| discriminate]. exists [], (c :: s).
        split; [reflexivity | split; [cbn; lia | now split]].
    + destruct min; [| discriminate]. exists [], (c :: s).
      split; [reflexivity | split; [cbn; lia | now split]].
Qed.

(** Whatever the matcher accepts, the pattern matches: the text it hands
    on is what is left after a text the pattern matches, and every group
    it has bound holds a piece of the input its sub-pattern matches. *)
Lemma run_sound (r : regex) :
  forall s g (k : cont R) x,
    grp_ok Q r -> good Pin Q g -> Forall Pin s ->
    run R r s g k = Some x ->
    exists w s' g', s = w ++ s' /\ matches r w /\ good Pin Q g'
                    /\ k s' g' = Some x.
Proof.
  induction r as [| a | p | r1 IH1 r2 IH2 | r1 IH1 r2 IH2 | min p | n r1 IH1];
    intros s g k x Hok Hg Hs Hr; cbn in Hr.
  - exists [], s, g. split; [reflexivity | split; [constructor | now split]].
  - destruct s as [| c s]; [discriminate |].
    destruct (chr_i a c) eqn:Hc; [| discriminate].
    exists [c], s, g.
    split; [reflexivity | split; [now constructor | now split]].
  - destruct s as [| c s]; [discriminate |].
    destruct (cls_i p c) eqn:Hc; [| discriminate].
    exists [c], s, g.
    split; [reflexivity | split; [now constructor | now split]].
  - destruct Hok as [Hok1 Hok2].
    destruct (IH1 _ _ _ _ Hok1 Hg Hs Hr) as (w1 & s1 & g1 & -> & Hm1 & Hg1 & Hk1).
    apply Forall_app in Hs. destruct Hs as [_ Hs1].
    destruct (IH2 _ _ _ _ Hok2 Hg1 Hs1 Hk1) as (w2 & s2 & g2 & -> & Hm2 & Hg2 & Hk2).
    exists (w1 ++ w2), s2, g2.
    split; [now rewrite app_assoc | split; [now constructor | now split]].
  - destruct Hok as [Hok1 Hok2]. unfold orelse in Hr.
    destruct (run R r1 s g k) as [y |] eqn:H1.
    + injection Hr as <-.
      destruct (IH1 _ _ _ _ Hok1 Hg Hs H1) as (w & s' & g' & -> & Hm & Hg' & Hk).
      exists w, s', g'.
      split; [reflexivity | split; [now apply m_alt_l | now split]].
    + destruct (IH2 _ _ _ _ Hok2 Hg Hs Hr) as (w & s' & g' & -> & Hm & Hg' & Hk).
      exists w, s', g'.
      split; [reflexivity | split; [now apply m_alt_r | now split]].
  - destruct (rep_sound _ _ _ _ _ _ Hr) as (w & s' & -> & Hl & Hf & Hk).
    exists w, s', g.
    split; [reflexivity | split; [now constructor | now split]].
  - destruct Hok as [HQ Hok1].
    destruct (IH1 _ _ _ _ Hok1 Hg Hs Hr) as (w & s' & g' & -> & Hm & Hg' & Hk).
    rewrite length_app, Nat.add_sub, firstn_app, Nat.sub_diag, firstn_all in Hk.
    cbn [firstn] in Hk. rewrite app_nil_r in Hk.
    exists w, s', ((n, str w) :: g').
    split; [reflexivity | split; [now constructor | split; [| exact Hk]]].
    intros m t [E | Hin]; [| now apply Hg'].
    injection E as <- <-. rewrite chars_str. split; [now apply HQ |].
    apply Forall_app in Hs. tauto.
Qed.

End Soundness.

Lemma re_match_sound (Pin : ascii -> Prop) (Q : nat -> list ascii -> Prop)
      (r : regex) (text : string) (m : groups) :
  grp_ok Q r -> Forall Pin (chars text) ->
  re_match r text = Some m -> good Pin Q m.
Proof.
  intros Hok Hs Hr. unfold re_match in Hr.
  assert (Hnil : good Pin Q []) by (intros n t []).
  destruct (run_sound Pin Q groups r _ _ _ _ Hok Hnil Hs Hr)
    as (w & s' & g' & _ & _ & Hg & Hk).
  now injection Hk as <-.
Qed.


(* ===================================================================== *)
(** * More on the command parser                                          *)
(* ===================================================================== *)

Lemma lower_char_no_upper (c : ascii) : is_upper (lower_char c) = false.
Proof. destruct c as [[] [] [] [] [] [] [] []]; reflexivity. Qed.

Lemma lower_no_upper (s : string) : Forall no_upper (chars (lower s)).
Proof.
  unfold lower. rewrite chars_str. apply Forall_forall. intros c Hc.
  apply in_map_iff in Hc. destruct Hc as (d & <- & _).
  apply lower_char_no_upper.
Qed.

Lemma group_in (m : groups) (n : nat) (s : string) :
  group m n = Some s -> In (n, s) m.
Proof.
  induction m as [| [i t] m IH]; cbn; [discriminate |].
  destruct (Nat.eqb_spec i n) as [-> | _].
  - intros [= ->]. now left.
  - intro H. right. now apply IH.
Qed.

Lemma grp_ok_trivial (r : regex) : grp_ok (fun _ _ => True) r.
Proof. induction r; cbn; auto. Qed.

Section Captured.
Variable Pin : ascii -> Prop.
Variable Q : nat -> list ascii -> Prop.

Lemma grp_pin (m : groups) (n : nat) :
  good Pin Q m -> Forall Pin (chars (grp m n)).
Proof.
  intro Hg. unfold grp. destruct (group m n) as [s |] eqn:E.
  - apply group_in in E. now destruct (Hg _ _ E).
  - constructor.
Qed.

Lemma grp_or_none_str (m : groups) (n : nat) (v : string) :
  grp_or_none m n = VStr v -> group m n = Some v /\ v <> ""%string.
Proof.
  unfold grp_or_none. destruct (group m n) as [s |]; [| discriminate].
  destruct (String.eqb_spec s ""); [discriminate |]. now intros [= <-].
Qed.

Lemma grp_or_none_pin (m : groups) (n : nat) (v : string) :
  good Pin Q m -> grp_or_none m n = VStr v -> Forall Pin (chars v).
Proof.
  intros Hg E. apply grp_or_none_str in E. destruct E as [E _].
  apply group_in in E. now destruct (Hg _ _ E).
Qed.

End Captured.

Lemma url_of_no_upper (g : string) :
  Forall no_upper (chars g) -> Forall no_upper (chars (url_of g)).
Proof.
  intro Hg. unfold url_of. destruct (_ || _); [exact Hg |].
  change (chars ("https://" ++ g)) with (chars "https://" ++ chars g)%list
    || (unfold chars; cbn [append list_ascii_of_string]).
  repeat (constructor; [reflexivity |]). exact Hg.
Qed.

Lemma str_values_nil (P : string -> Prop) : str_values P [].
Proof. intros k v []. Qed.

Lemma str_values_cons (P : string -> Prop) (k : string) (x : value) (d : dict) :
  (forall v, x = VStr v -> P v) -> str_values P d -> str_values P ((k, x) :: d).
Proof.
  intros Hx Hd k' v [E | Hin]; [| now apply (Hd k')].
  injection E as _ ->. now apply Hx.
Qed.

(** Walks the dict an extractor builds, leaving one goal per value. *)
Ltac each_value :=
  repeat (apply str_values_cons; [intros ? ? |]); try apply str_values_nil.

(** X1.  The parser folds the case of the whole command before it matches, so
    no text it hands on (a link text, a field name, a search query, a user
    name, a password, a URL) contains an upper-case letter, however the
    command was typed. *)
Theorem parse_params_have_no_upper_case (command action : string)
        (params : dict) :
  parse_command command = inr (action, params) ->
  str_values (fun v => Forall no_upper (chars v)) params.
Proof.
  unfold parse_command, normalize.
  pose proof (lower_no_upper (strip command)) as Hin.
  generalize dependent (lower (strip command)). intros text Hin Hr.
  unfold COMMAND_PATTERNS in Hr. cbn [try_patterns] in Hr.
  repeat
    match type of Hr with
    | match re_match ?p text with _ => _ end = _ =>
        let E := fresh "E" in
        destruct (re_match p text) as [m |] eqn:E;
        [ pose proof (re_match_sound no_upper (fun _ _ => True) p text m
                        (grp_ok_trivial p) Hin E) as Hg;
          try (destruct (py_float _); [discriminate Hr |]);
          injection Hr as <- <-; each_value;
          match goal with
          | H : VStr _ = VStr _ |- _ =>
              injection H as <-; try apply url_of_no_upper;
              now apply (grp_pin no_upper (fun _ _ => True))
          | H : grp_or_none _ _ = VStr _ |- _ =>
              now apply (grp_or_none_pin no_upper (fun _ _ => True) _ _ _ Hg H)
          | H : _ = VStr _ |- _ => discriminate H
          end
        | ]
    end.
  discriminate Hr.
Qed.

Lemma groups_only_ok (P : ascii -> bool) (r : regex) :
  groups_only P r = true ->
  grp_ok (fun _ w => w <> [] /\ forallb P w = true) r.
Proof.
  induction r as [| a | p | r1 IH1 r2 IH2 | r1 IH1 r2 IH2 | min p | n r1 IH1];
    cbn [groups_only grp_ok]; intro Hc; auto.
  - apply andb_true_iff in Hc. destruct Hc. auto.
  - apply andb_true_iff in Hc. destruct Hc. auto.
  - apply andb_true_iff in Hc. destruct Hc as [Hc H3].
    apply andb_true_iff in Hc. destruct Hc as [H1 H2].
    split; [| now apply IH1]. intros w Hm.
    split; [now apply (nonempty_sound r1) | now apply (only_sound P r1)].
Qed.

Lemma run_binds (R : Type) (r : regex) :
  forall s g (k : cont R) x,
    run R r s g k = Some x ->
    exists s' g', k s' g' = Some x
                  /\ (forall n, group g n <> None -> group g' n <> None)
                  /\ (forall n, binds n r = true -> group g' n <> None).
Proof.
  induction r as [| a | p | r1 IH1 r2 IH2 | r1 IH1 r2 IH2 | min p | i r1 IH1];
    intros s g k x Hr; cbn in Hr.
  - exists s, g. split; [exact Hr | split; [auto | discriminate]].
  - destruct s as [| c s]; [discriminate |]. destruct (chr_i a c); [| discriminate].
    exists s, g. split; [exact Hr | split; [auto | discriminate]].
  - destruct s as [| c s]; [discriminate |]. destruct (cls_i p c); [| discriminate].
    exists s, g. split; [exact Hr | split; [auto | discriminate]].
  - destruct (IH1 _ _ _ _ Hr) as (s1 & g1 & Hk1 & Hkeep1 & Hb1).
    destruct (IH2 _ _ _ _ Hk1) as (s2 & g2 & Hk2 & Hkeep2 & Hb2).
    exists s2, g2. split; [exact Hk2 | split; [auto |]].
    intros n Hn. cbn in Hn. apply orb_true_iff in Hn. destruct Hn; auto.
  - unfold orelse in Hr. destruct (run R r1 s g k) as [y |] eqn:H1.
    + injection Hr as <-. destruct (IH1 _ _ _ _ H1) as (s1 & g1 & Hk1 & Hkeep1 & Hb1).
      exists s1, g1. split; [exact Hk1 | split; [auto |]].
      intros n Hn. cbn in Hn. apply andb_true_iff in Hn. destruct Hn; auto.
    + destruct (IH2 _ _ _ _ Hr) as (s1 & g1 & Hk1 & Hkeep1 & Hb1).
      exists s1, g1. split; [exact Hk1 | split; [auto |]].
      intros n Hn. cbn in Hn. apply andb_true_iff in Hn. destruct Hn; auto.
  - destruct (rep_sound R _ _ _ _ _ _ Hr) as (w & s' & _ & _ & _ & Hk).
    exists s', g. split; [exact Hk | split; [auto | discriminate]].
  - destruct (IH1 _ _ _ _ Hr) as (s1 & g1 & Hk1 & Hkeep1 & Hb1).
    eexists s1, (_ :: g1). split; [exact Hk1 |].
    split; intros n Hn; cbn [group binds] in *; destruct (Nat.eqb i n) eqn:En.
    + discriminate.
    + now apply Hkeep1.
    + discriminate.
    + now apply Hb1.
Qed.

Lemma re_match_binds (r : regex) (text : string) (m : groups) (n : nat) :
  re_match r text = Some m -> binds n r = true -> group m n <> None.
Proof.
  intros Hr Hb. unfold re_match in Hr.
  destruct (run_binds _ r _ _ _ _ Hr) as (s' & g' & Hk & _ & Hbound).
  injection Hk as <-. now apply Hbound.
Qed.

Lemma grp_captured (Pin : ascii -> Prop) (Q : nat -> list ascii -> Prop)
      (m : groups) (n : nat) :
  good Pin Q m -> group m n <> None -> Q n (chars (grp m n)).
Proof.
  intros Hg Hb. unfold grp. destruct (group m n) as [s |] eqn:E; [| contradiction].
  apply group_in in E. now destruct (Hg _ _ E).
Qed.

Lemma grp_or_none_captured (Pin : ascii -> Prop) (Q : nat -> list ascii -> Prop)
      (m : groups) (n : nat) (v : string) :
  good Pin Q m -> grp_or_none m n = VStr v -> Q n (chars v).
Proof.
  intros Hg E. apply grp_or_none_str in E. destruct E as [E _].
  apply group_in in E. now destruct (Hg _ _ E).
Qed.

(** X2.  Apart from the URL of a navigate command, every text the parser hands
    on (link text, typed text, field, element, website, query, user name,
    password) is non-empty and free of quote characters, single or double:
    spliced between the quotes of a selector such as [text='...'], it
    cannot end the quoted part early. *)
Theorem parse_params_are_plain (command action : string) (params : dict) :
  parse_command command = inr (action, params) ->
  action <> "navigate"%string ->
  str_values (fun v => plain (chars v)) params.
Proof.
  unfold parse_command. generalize (normalize command). intros text Hr Hnav.
  assert (Hin : Forall (fun _ => True) (chars text))
    by (apply Forall_forall; auto).
  unfold COMMAND_PATTERNS in Hr. cbn [try_patterns] in Hr.
  destruct (re_match pat_navigate text);
    [injection Hr as <- _; now contradiction Hnav |].
  repeat
    match type of Hr with
    | match re_match ?p text with _ => _ end = _ =>
        let E := fresh "E" in
        destruct (re_match p text) as [m |] eqn:E;
        [ pose proof (re_match_sound (fun _ => True) (fun _ => plain) p text m
                        (groups_only_ok no_quote p
                           ltac:(vm_compute; reflexivity)) Hin E) as Hg;
          try (destruct (py_float _); [discriminate Hr |]);
          injection Hr as <- <-; each_value;
          match goal with
          | H : VStr _ = VStr _ |- _ =>
              injection H as <-;
              apply (grp_captured (fun _ => True) (fun _ => plain) m _ Hg);
              apply (re_match_binds _ _ _ _ E); reflexivity
          | H : grp_or_none _ _ = VStr _ |- _ =>
              now apply (grp_or_none_captured (fun _ => True) (fun _ => plain)
                           _ _ _ Hg H)
          | H : _ = VStr _ |- _ => discriminate H
          end
        | ]
    end.
  discriminate Hr.
Qed.

Lemma prefix_split (p h : list ascii) (d : ascii) (tl : list ascii) :
  prefix_chars p (h ++ d :: tl) = true ->
  In d p \/ (forall c, In c p -> In c h).
Proof.
  revert p. induction h as [| x h IH]; intros [| a p] Hp; cbn in Hp.
  - right. intros c [].
  - apply andb_true_iff in Hp. destruct Hp as [Ha _].
    apply Ascii.eqb_eq in Ha. subst. left. now left.
  - right. intros c [].
  - apply andb_true_iff in Hp. destruct Hp as [Ha Hp].
    apply Ascii.eqb_eq in Ha. subst a.
    destruct (IH _ Hp) as [Hd | Hall].
    + left. now right.
    + right. intros c [<- | Hc]; [now left | right; auto].
Qed.

(** A text that a domain pattern starts does not begin with a scheme: the
    colon is no host character, and the dot that ends the host part is
    none of the letters of [http] or [https]. *)
Lemma domain_is_schemeless (r3 r4 : regex) (w : list ascii) :
  matches (Seq (Seq (Rep 1 host) (Seq (Chr ".") r3)) r4) w -> schemeless w.
Proof.
  intro Hm.
  inversion Hm as [| | | ? ? wd w4 Hd _ | | | |]; subst.
  inversion Hd as [| | | ? ? wh w23 Hh H23 | | | |]; subst.
  inversion H23 as [| | | ? ? wdot w3 Hdot _ | | | |]; subst.
  inversion Hdot as [| ? d Hdc | | | | | |]; subst.
  inversion Hh as [| | | | | | ? ? ? _ Hhost |]; subst.
  rewrite <- !app_assoc. cbn [app].
  assert (Hcolon : ~ In ":"%char wh).
  { intro Hin. rewrite Forall_forall in Hhost. specialize (Hhost _ Hin).
    discriminate Hhost. }
  split.
  - destruct (prefix_chars (chars "http://") (wh ++ d :: w3 ++ w4)) eqn:E;
      [| reflexivity].
    exfalso. destruct (prefix_split _ _ _ _ E) as [Hd' | Hall].
    + cbn in Hd'. repeat (destruct Hd' as [<- | Hd']; [discriminate Hdc |]).
      destruct Hd'.
    + apply Hcolon, Hall. cbn. tauto.
  - destruct (prefix_chars (chars "https://") (wh ++ d :: w3 ++ w4)) eqn:E;
      [| reflexivity].
    exfalso. destruct (prefix_split _ _ _ _ E) as [Hd' | Hall].
    + cbn in Hd'. repeat (destruct Hd' as [<- | Hd']; [discriminate Hdc |]).
      destruct Hd'.
    + apply Hcolon, Hall. cbn. tauto.
Qed.

Lemma url_of_schemeless (g : string) :
  schemeless (chars g) -> url_of g = ("https://" ++ g)%string.
Proof.
  intros [H1 H2]. unfold url_of, startswith. now rewrite H1, H2.
Qed.

Lemma navigate_params_https (command : string) (params : dict) :
  parse_command command = inr ("navigate"%string, params) ->
  exists address,
    params = [("url"%string, VStr ("https://" ++ address))]
    /\ schemeless (chars address).
Proof.
  unfold parse_command. generalize (normalize command). intros text Hr.
  assert (Hin : Forall (fun _ => True) (chars text))
    by (apply Forall_forall; auto).
  unfold COMMAND_PATTERNS in Hr. cbn [try_patterns] in Hr.
  destruct (re_match pat_navigate text) as [m |] eqn:E.
  - injection Hr as <-. exists (grp m 1).
    assert (Hok : grp_ok (fun _ w => schemeless w) pat_navigate).
    { cbn.
      repeat match goal with
             | |- _ /\ _ => split
             | |- True => exact I
             end.
      intros ? Hm. eapply domain_is_schemeless. exact Hm. }
    pose proof (re_match_sound (fun _ => True) (fun _ w => schemeless w)
                  pat_navigate text m Hok Hin E) as Hg.
    assert (Hs : schemeless (chars (grp m 1))).
    { apply (grp_captured (fun _ => True) (fun _ w => schemeless w) m 1 Hg).
      apply (re_match_binds _ _ _ _ E). reflexivity. }
    split; [| exact Hs]. now rewrite (url_of_schemeless _ Hs).
  - repeat
      match type of Hr with
      | match re_match ?p text with _ => _ end = _ =>
          destruct (re_match p text);
          [ first [ discriminate Hr
                  | destruct (py_float _); discriminate Hr ]
          | ]
      end.
    discriminate Hr.
Qed.

(** X3.  Whatever scheme the command gave, or none, a navigate command is
    parsed to an [https] URL: the scheme is matched outside the captured
    group and dropped, and the address that is captured cannot begin with
    one. *)
Theorem parse_navigate_forces_https (command : string) (params : dict) :
  parse_command command = inr ("navigate"%string, params) ->
  exists address,
    params = [("url"%string, VStr ("https://" ++ address))]
    /\ schemeless (chars address).
Proof. apply navigate_params_https. Qed.

(** *** Case and surrounding blanks do not matter *)

Lemma lower_char_idem (c : ascii) : lower_char (lower_char c) = lower_char c.
Proof. destruct c as [[] [] [] [] [] [] [] []]; reflexivity. Qed.

Lemma lower_upper_char (c : ascii) : lower_char (upper_char c) = lower_char c.
Proof. destruct c as [[] [] [] [] [] [] [] []]; reflexivity. Qed.

Lemma is_space_lower_char (c : ascii) : is_space (lower_char c) = is_space c.
Proof. destruct c as [[] [] [] [] [] [] [] []]; reflexivity. Qed.

Lemma is_space_upper_char (c : ascii) : is_space (upper_char c) = is_space c.
Proof. destruct c as [[] [] [] [] [] [] [] []]; reflexivity. Qed.

Lemma lstrip_head (l : list ascii) (c : ascii) (t : list ascii) :
  lstrip_chars l = c :: t -> is_space c = false.
Proof.
  induction l as [| x l IH]; cbn; [discriminate |].
  destruct (is_space x) eqn:E; [exact IH |]. now intros [= <- _].
Qed.

Lemma lstrip_fixed (l : list ascii) :
  match l with [] => True | c :: _ => is_space c = false end ->
  lstrip_chars l = l.
Proof. destruct l as [| c l]; cbn; [reflexivity |]. now intros ->. Qed.

Lemma lstrip_idem (l : list ascii) :
  lstrip_chars (lstrip_chars l) = lstrip_chars l.
Proof.
  apply lstrip_fixed. destruct (lstrip_chars l) as [| c t] eqn:E; [exact I |].
  now apply (lstrip_head l c t).
Qed.

Lemma lstrip_suffix (l : list ascii) :
  exists sp, l = sp ++ lstrip_chars l.
Proof.
  induction l as [| x l [sp IH]]; cbn.
  - now exists [].
  - destruct (is_space x); [| now exists []].
    exists (x :: sp). cbn. now rewrite <- IH.
Qed.

Lemma strip_chars_idem (l : list ascii) :
  strip_chars (strip_chars l) = strip_chars l.
Proof.
  unfold strip_chars. set (a := lstrip_chars l).
  set (b := rev (lstrip_chars (rev a))).
  assert (Hb : lstrip_chars b = b).
  { apply lstrip_fixed. destruct b as [| c t] eqn:Eb; [exact I |].
    destruct (lstrip_suffix (rev a)) as [sp Hsp].
    apply (f_equal (@rev ascii)) in Hsp.
    rewrite rev_involutive, rev_app_distr in Hsp. fold b in Hsp.
    rewrite Eb in Hsp. cbn in Hsp.
    apply (lstrip_head l c (t ++ rev sp)). fold a. exact Hsp. }
  rewrite Hb. unfold b at 1. rewrite rev_involutive, lstrip_idem. reflexivity.
Qed.

Lemma lstrip_map (f : ascii -> ascii) (l : list ascii) :
  (forall c, is_space (f c) = is_space c) ->
  lstrip_chars (map f l) = map f (lstrip_chars l).
Proof.
  intro Hf. induction l as [| x l IH]; cbn; [reflexivity |].
  rewrite Hf. destruct (is_space x); [exact IH | reflexivity].
Qed.

Lemma strip_chars_map (f : ascii -> ascii) (l : list ascii) :
  (forall c, is_space (f c) = is_space c) ->
  strip_chars (map f l) = map f (strip_chars l).
Proof.
  intro Hf. unfold strip_chars.
  now rewrite lstrip_map, <- map_rev, lstrip_map, <- map_rev.
Qed.

Lemma normalize_chars (s : string) :
  chars (normalize s) = map lower_char (strip_chars (chars s)).
Proof.
  unfold normalize, lower, strip. now rewrite !chars_str.
Qed.

Lemma normalize_by_chars (s t : string) :
  map lower_char (strip_chars (chars s)) = map lower_char (strip_chars (chars t)) ->
  normalize s = normalize t.
Proof.
  intro E. rewrite <- (str_chars (normalize s)), <- (str_chars (normalize t)).
  now rewrite !normalize_chars, E.
Qed.

Lemma map_lower_idem (l : list ascii) :
  map lower_char (map lower_char l) = map lower_char l.
Proof. rewrite map_map. apply map_ext. apply lower_char_idem. Qed.

Lemma normalize_idem (s : string) : normalize (normalize s) = normalize s.
Proof.
  apply normalize_by_chars. rewrite normalize_chars.
  rewrite strip_chars_map by apply is_space_lower_char.
  now rewrite strip_chars_idem, map_lower_idem.
Qed.

(** X4.  Parsing does not depend on how the command is capitalised nor on
    blanks around it: the command, its upper-case form, its lower-case
    form and its stripped form all parse alike. *)
Theorem parse_ignores_case_and_padding (command : string) :
  parse_command (upper command) = parse_command command
  /\ parse_command (lower command) = parse_command command
  /\ parse_command (strip command) = parse_command command
  /\ parse_command (normalize command) = parse_command command.
Proof.
  unfold parse_command.
  assert (Hu : normalize (upper command) = normalize command).
  { apply normalize_by_chars. unfold upper. rewrite chars_str.
    rewrite strip_chars_map by apply is_space_upper_char.
    rewrite map_map. apply map_ext. apply lower_upper_char. }
  assert (Hl : normalize (lower command) = normalize command).
  { apply normalize_by_chars. unfold lower. rewrite chars_str.
    rewrite strip_chars_map by apply is_space_lower_char.
    apply map_lower_idem. }
  assert (Hs : normalize (strip command) = normalize command).
  { apply normalize_by_chars. unfold strip. rewrite chars_str.
    fold (strip_chars (chars command)). now rewrite strip_chars_idem. }
  now rewrite Hu, Hl, Hs, normalize_idem.
Qed.

Lemma parse_params_have_no_upper_case_witness :
  parse_command ("Login to GitHub.com with username " ++ q ++ "Alice" ++ q
                 ++ " and password " ++ q ++ "S3cret" ++ q)
  = inr ("login"%string,
         [("website"%string, VStr "github.com");
          ("username"%string, VStr "alice");
          ("password"%string, VStr "s3cret")])
  /\ Forall no_upper (chars "s3cret").
Proof.
  split; [vm_compute; reflexivity |].
  apply (parse_params_have_no_upper_case
           ("Login to GitHub.com with username " ++ q ++ "Alice" ++ q
            ++ " and password " ++ q ++ "S3cret" ++ q)
           "login"%string
           [("website"%string, VStr "github.com");
            ("username"%string, VStr "alice");
            ("password"%string, VStr "s3cret")]
           ltac:(vm_compute; reflexivity)
           "password"%string "s3cret"%string).
  cbn. tauto.
Defined.

Lemma parse_params_are_plain_witness :
  plain (chars "python automation").
Proof.
  apply (parse_params_are_plain
           ("Search for " ++ q ++ "python automation" ++ q ++ " on google.com")
           "search"%string
           [("query"%string, VStr "python automation");
            ("website"%string, VStr "google.com")]
           ltac:(vm_compute; reflexivity)
           ltac:(discriminate)
           "query"%string "python automation"%string).
  cbn. tauto.
Defined.

Lemma parse_navigate_forces_https_witness :
  exists address,
    [("url"%string, VStr "https://example.com/a")]
    = [("url"%string, VStr ("https://" ++ address))]
    /\ schemeless (chars address).
Proof.
  apply (parse_navigate_forces_https "Open http://Example.com/a"
           [("url"%string, VStr "https://example.com/a")]).
  vm_compute. reflexivity.
Defined.

(** The address a command gives with [http://] is opened with [https://]. *)
Example navigate_upgrades_http :
  parse_command "Go to http://example.com/login"
  = inr ("navigate"%string, [("url"%string, VStr "https://example.com/login")]).
Proof. vm_compute. reflexivity. Qed.

(* ===================================================================== *)
(** * More on the dispatcher and its handlers                             *)
(* ===================================================================== *)

Import Status.

Lemma clicks_app (l1 l2 : list event) : clicks (l1 ++ l2) = clicks l1 + clicks l2.
Proof.
  induction l1 as [| ev l1 IH]; [reflexivity |].
  destruct ev; cbn; now rewrite ?IH.
Qed.

Lemma clicks_none (P : event -> Prop) (l : list event) :
  (forall ev, P ev -> ev <> EClick) -> Forall P l -> clicks l = 0.
Proof.
  intros HP. induction 1 as [| ev l Hev _ IH]; [reflexivity |].
  destruct ev; cbn; auto. now destruct (HP _ Hev).
Qed.

Section Handlers.
Context {W H : Type} (page : api W H).

Local Abbreviation typed e := (is_BrowserAutomationError e = true).

(** A [try] whose handlers raise only typed errors lets only typed errors
    out. *)
Lemma try_except_typed {A} (c : M W A) (h : exn -> M W A) :
  (forall e s e' s', h e s = (inl e', s') -> typed e') ->
  forall s e, fst (try_except c h s) = inl e -> typed e.
Proof.
  intros Hh s e. unfold try_except.
  destruct (c s) as [[e0 | a] s1]; cbn [fst].
  - destruct (h e0 s1) as [[e1 | a] s2] eqn:E; cbn; [| discriminate].
    intros [= <-]. eapply Hh. exact E.
  - discriminate.
Qed.

Lemma navigate_typed u s e : fst (_navigate page u s) = inl e -> typed e.
Proof. apply try_except_typed. intros e0 s0 e' s'. cbn. now intros [= <- _]. Qed.

Lemma click_typed t s e : fst (_click page t s) = inl e -> typed e.
Proof.
  apply try_except_typed. intros e0 s0 e' s'.
  destruct e0; cbn; intros [= <- _]; reflexivity.
Qed.

Lemma type_typed t f s e : fst (_type page t f s) = inl e -> typed e.
Proof.
  apply try_except_typed. intros e0 s0 e' s'.
  destruct e0; cbn; intros [= <- _]; reflexivity.
Qed.

Lemma submit_typed s e : fst (_submit page s) = inl e -> typed e.
Proof. apply try_except_typed. intros e0 s0 e' s'. cbn. now intros [= <- _]. Qed.

Lemma wait_typed d s e : fst (_wait page d s) = inl e -> typed e.
Proof. apply try_except_typed. intros e0 s0 e' s'. cbn. now intros [= <- _]. Qed.

Lemma wait_for_element_typed el t s e :
  fst (_wait_for_element page el t s) = inl e -> typed e.
Proof.
  apply try_except_typed. intros e0 s0 e' s'.
  destruct e0; cbn; intros [= <- _]; reflexivity.
Qed.

Lemma screenshot_typed s e : fst (_screenshot page s) = inl e -> typed e.
Proof. apply try_except_typed. intros e0 s0 e' s'. cbn. now intros [= <- _]. Qed.

Lemma login_typed w u p s e : fst (_login page w u p s) = inl e -> typed e.
Proof. apply try_except_typed. intros e0 s0 e' s'. cbn. now intros [= <- _]. Qed.

Lemma search_typed qy w s e : fst (_search page qy w s) = inl e -> typed e.
Proof. apply try_except_typed. intros e0 s0 e' s'. cbn. now intros [= <- _]. Qed.

Lemma close_total (s : state W) : exists s', close page s = (inr tt, s').
Proof.
  unfold close, try_except, ret.
  match goal with |- context [match ?c s with _ => _ end] =>
    destruct (c s) as [[e | []] s'] end; eauto.
Qed.

Lemma initialize_typed s e : fst (initialize page s) = inl e -> typed e.
Proof.
  unfold initialize, bind, get_initialized. cbn [fst snd].
  destruct (initialized s); [discriminate |].
  apply try_except_typed. intros e0 s0 e' s'. unfold bind.
  destruct (close_total s0) as (s1 & ->). cbn. now intros [= <- _].
Qed.

Lemma execute_typed (action : string) (parameters : dict) (s : state W)
      (e : exn) :
  fst (execute page action parameters s) = inl e -> typed e.
Proof.
  unfold execute, bind, get_initialized. cbn [fst snd].
  destruct (initialized s) eqn:Hi.
  - cbn [ret]. destruct (lookup_action (action_map page) action) as [h |].
    + apply try_except_typed. intros e0 s0 e' s'.
      destruct (is_BrowserAutomationError e0) eqn:E0; cbn;
        intros [= <- _]; [exact E0 | reflexivity].
    + cbn. now intros [= <-].
  - destruct (initialize page s) as [[e0 | []] s1] eqn:Ei.
    + cbn. intros [= <-]. apply (initialize_typed s). now rewrite Ei.
    + destruct (lookup_action (action_map page) action) as [h |].
      * apply try_except_typed. intros e1 s2 e' s'.
        destruct (is_BrowserAutomationError e1) eqn:E1; cbn;
          intros [= <- _]; [exact E1 | reflexivity].
      * cbn. now intros [= <-].
Qed.

(** X5.  Whatever happens on the page, the only exceptions that leave
    [execute] are [BrowserAutomationError] and its subclasses: a failure
    of start-up, an unknown action, a bad argument and any error of a
    handler are all of that family or wrapped into it. *)
Theorem execute_raises_only_typed_errors (action : string) (parameters : dict)
        (s : state W) (e : exn) :
  fst (execute page action parameters s) = inl e ->
  is_BrowserAutomationError e = true.
Proof. apply execute_typed. Qed.

End Handlers.

Lemma execute_raises_only_typed_errors_witness :
  is_BrowserAutomationError
    (BrowserAutomationError "Unknown action: dance") = true.
Proof.
  apply (execute_raises_only_typed_errors (scripted blank) "dance" [] start).
  reflexivity.
Defined.

(* ===================================================================== *)
(** * The parser and the dispatcher together                              *)
(* ===================================================================== *)

Import More.

Lemma grp_or_none_opt (m : groups) (n : nat) :
  exists o, grp_or_none m n = opt_value o.
Proof.
  unfold grp_or_none. destruct (group m n) as [s |]; [| now exists None].
  destruct (String.eqb s ""); [now exists None | now exists (Some s)].
Qed.

Section Fit.
Context {W H : Type} (page : api W H).

Lemma call_login_bound (w : string) (u p : option string) :
  call_login page [("website"%string, VStr w); ("username"%string, opt_value u);
                   ("password"%string, opt_value p)]
  = _login page w u p.
Proof. destruct u, p; reflexivity. Qed.

(** X6.  Every command the parser accepts names an action of the dispatcher,
    and its parameters are exactly what the handler of that action takes:
    the handler is entered, so that whatever it raises is an error of the
    taxonomy and never the [TypeError] of a call with wrong arguments. *)
Theorem parsed_commands_fit_their_handlers (command action : string)
        (params : dict) :
  parse_command command = inr (action, params) ->
  exists handler,
    lookup_action (action_map page) action = Some handler
    /\ forall s e, fst (handler params s) = inl e ->
                   is_BrowserAutomationError e = true.
Proof.
  unfold parse_command. generalize (normalize command). intros text Hr.
  unfold COMMAND_PATTERNS in Hr. cbn [try_patterns] in Hr.
  repeat
    match type of Hr with
    | match re_match ?p text with _ => _ end = _ =>
        destruct (re_match p text) as [m |];
        [ try (destruct (py_float _); [discriminate Hr |]);
          injection Hr as <- <-; eexists; split; [reflexivity |]; intros s e
        | ]
    end;
    try discriminate Hr.
  - apply navigate_typed.
  - apply click_typed.
  - apply click_typed.
  - apply type_typed.
  - apply type_typed.
  - apply submit_typed.
  - apply wait_typed.
  - apply wait_for_element_typed.
  - apply screenshot_typed.
  - destruct (grp_or_none_opt m 2) as [u ->].
    destruct (grp_or_none_opt m 3) as [p ->].
    rewrite call_login_bound. apply login_typed.
  - apply search_typed.
Qed.

End Fit.

Lemma parsed_commands_fit_their_handlers_witness :
  exists handler,
    lookup_action (action_map (scripted blank)) "click" = Some handler
    /\ forall s e, fst (handler [("text"%string, VStr "login")] s) = inl e ->
                   is_BrowserAutomationError e = true.
Proof.
  apply (parsed_commands_fit_their_handlers (scripted blank)
           "Click on the login button").
  vm_compute. reflexivity.
Defined.

(* ===================================================================== *)
(** * What the handlers do on the page                                    *)
(* ===================================================================== *)

Section Actions.
Context {W H : Type} (page : api W H).

Lemma resolution_trace (i : string) (t : Z) (s : state W) :
  exists evs,
    trace (snd (first_hit (strategies page i t) s)) = trace s ++ evs
    /\ Forall (lookup_ok i t) evs.
Proof. apply first_hit_emits, strategies_emit. Qed.

Lemma lookup_ok_no_click (i : string) (t : Z) (ev : event) :
  lookup_ok i t ev -> ev <> EClick.
Proof. destruct ev; cbn; intros Hev; try contradiction; discriminate. Qed.

Lemma lookup_ok_no_write (i : string) (t : Z) (ev : event) :
  lookup_ok i t ev -> no_write ev.
Proof. destruct ev; cbn; intros Hev; try contradiction; reflexivity. Qed.

Ltac since_is E l :=
  match goal with
  | |- context [since ?s ?x] =>
      rewrite (since_app s x l)
        by (cbn [trace]; rewrite E, <- ?app_assoc; reflexivity)
  end.

(** X7.  [_wait_for_element] succeeds exactly when one of the lookups of the
    resolution chain produces a handle, and then answers with the name it
    was given; when none does it raises [TimeoutError], whatever the
    reason the lookups failed for and however short the run was.  It makes
    no call on the page beyond those of the resolution. *)
Theorem wait_for_element_outcome (element : string) (timeout : Z)
        (s : state W) :
  _wait_for_element page element timeout s
  = (match fst (first_hit (strategies page element timeout) s) with
     | Some _ => inr [("waited_for", VStr element)]
     | None =>
         inl (TimeoutError ("Timed out waiting for element: " ++ element))
     end,
     snd (first_hit (strategies page element timeout) s)).
Proof.
  unfold _wait_for_element, try_except, bind.
  rewrite find_element_walks_table.
  destruct (first_hit (strategies page element timeout) s) as [[h |] s1];
    reflexivity.
Qed.

Lemma click_trace (text : string) (s : state W) :
  let found := first_hit (strategies page text 5000) s in
  let run := _click page text s in
  (exists evs,
      Forall (lookup_ok text 5000) evs
      /\ since s (snd run)
         = evs ++ match fst found with Some _ => [EClick] | None => [] end)
  /\ clicks (since s (snd run))
     = match fst found with Some _ => 1 | None => 0 end
  /\ (fst found = None -> fst run = inl (not_found text))
  /\ (forall d, fst run = inr d ->
                d = [("clicked", VStr text)] /\ fst found <> None).
Proof.
  cbv zeta. unfold _click, try_except, bind.
  rewrite find_element_walks_table.
  destruct (resolution_trace text 5000 s) as (evs & E & F).
  assert (C0 : clicks evs = 0)
    by (eapply clicks_none; [apply lookup_ok_no_click | exact F]).
  destruct (first_hit (strategies page text 5000) s) as [[h |] s1];
    cbn [fst snd] in *.
  - unfold el_click, call.
    destruct (click page h (world s1)) as [[e | []] w]; cbn [fst snd].
    + destruct (is_ElementNotFoundError e); cbn [raise fst snd];
        since_is E (evs ++ [EClick]);
        (split; [exists evs; split; [exact F | reflexivity] |]);
        (split; [rewrite clicks_app, C0; reflexivity |]);
        (split; [discriminate | discriminate]).
    + cbn [ret fst snd]. since_is E (evs ++ [EClick]).
      split; [exists evs; split; [exact F | reflexivity] |].
      split; [rewrite clicks_app, C0; reflexivity |].
      split; [discriminate |]. intros d [= <-]. split; [reflexivity | discriminate].
  - cbn [raise fst snd not_found is_ElementNotFoundError].
    rewrite (since_app _ _ _ E).
    split; [exists evs; split; [exact F | now rewrite app_nil_r] |].
    split; [exact C0 |].
    split; [reflexivity | discriminate].
Qed.

(** X8.  [_click] resolves the text with a budget of 5000 ms and clicks the
    element found: the one click of the run is the page's [click] on the
    very handle the resolution produced, made in the world the resolution
    left, as the last call of the run.  The answer is [{clicked: text}]
    when that click returns; when it raises, an [ElementNotFoundError]
    passes and anything else is wrapped as [Failed to click on ...].
    When nothing is found it clicks nothing and raises
    [ElementNotFoundError]. *)
Theorem click_clicks_what_it_found (text : string) (s : state W) :
  let found := first_hit (strategies page text 5000) s in
  let run := _click page text s in
  run
  = match fst found with
    | None => (inl (not_found text), snd found)
    | Some h =>
        (match fst (click page h (world (snd found))) with
         | inr _ => inr [("clicked", VStr text)]
         | inl e =>
             inl (if is_ElementNotFoundError e then e
                  else BrowserAutomationError
                         ("Failed to click on '" ++ text ++ "': " ++ message e))
         end,
         State (snd (click page h (world (snd found))))
               (initialized (snd found)) (trace (snd found) ++ [EClick]))
    end
  /\ (exists evs,
        Forall (lookup_ok text 5000) evs
        /\ since s (snd run)
           = evs ++ match fst found with Some _ => [EClick] | None => [] end)
  /\ clicks (since s (snd run))
     = match fst found with Some _ => 1 | None => 0 end.
Proof.
  cbv zeta. split.
  - unfold _click, try_except, bind.
    rewrite find_element_walks_table.
    destruct (first_hit (strategies page text 5000) s) as [[h |] s1];
      cbn [fst snd]; [| reflexivity].
    unfold el_click, call.
    destruct (click page h (world s1)) as [[e | []] w]; cbn [fst snd];
      [destruct (is_ElementNotFoundError e) |]; reflexivity.
  - destruct (click_trace text s) as (Ht & Hc & _). split; assumption.
Qed.

(** X9.  [_type] resolves the field with a budget of 5000 ms, empties it, and
    only then types the text, with a delay of 50 ms a key.  If emptying
    the field fails nothing is typed; if no field is found nothing is
    written at all.  It returns only after having typed. *)
Theorem type_clears_the_field_first (text field : string) (s : state W) :
  let found := first_hit (strategies page field 5000) s in
  let run := _type page text field s in
  (exists evs,
      Forall (lookup_ok field 5000) evs
      /\ since s (snd run)
         = evs ++ match fst found with
                  | None => []
                  | Some h =>
                      EFill ""
                      :: match fst (fill page h "" (world (snd found))) with
                         | inl _ => []
                         | inr _ => [EType text 50]
                         end
                  end)
  /\ (forall d, fst run = inr d ->
                d = [("field", VStr field); ("typed", VStr text)]
                /\ exists evs, since s (snd run)
                               = evs ++ [EFill ""; EType text 50]).
Proof.
  cbv zeta. unfold _type, try_except, bind.
  rewrite find_element_walks_table.
  destruct (resolution_trace field 5000 s) as (evs & E & F).
  destruct (first_hit (strategies page field 5000) s) as [[h |] s1];
    cbn [fst snd] in *.
  - unfold el_fill, el_type, call.
    destruct (fill page h "" (world s1)) as [[e | []] w];
      cbn [fst snd world initialized trace].
    + destruct (is_ElementNotFoundError e); cbn [raise fst snd];
        since_is E (evs ++ [EFill ""]);
        (split; [exists evs; split; [exact F | reflexivity] | discriminate]).
    + destruct (type page h text 50 w) as [[e | []] w'] eqn:Et; cbn [fst snd].
      * destruct (is_ElementNotFoundError e); cbn [raise fst snd];
          since_is E (evs ++ [EFill ""; EType text 50]);
          (split; [exists evs; split; [exact F | reflexivity] | discriminate]).
      * cbn [ret fst snd]. since_is E (evs ++ [EFill ""; EType text 50]).
        split; [exists evs; split; [exact F | reflexivity] |].
        intros d [= <-]. split; [reflexivity | now exists evs].
  - cbn [raise fst snd not_found is_ElementNotFoundError].
    rewrite (since_app _ _ _ E).
    split; [exists evs; split; [exact F | now rewrite app_nil_r] | discriminate].
Qed.

Lemma emits_read {A} (P : event -> Prop) (f : W -> A) : emits P (read f).
Proof. intro s. exists []. cbn. now rewrite app_nil_r. Qed.

Lemma emits_since {A} (P : event -> Prop) (c : M W A) (s : state W) :
  emits P c -> Forall P (since s (snd (c s))).
Proof. intro Hc. destruct (Hc s) as (l & E & F). now rewrite (since_app _ _ _ E). Qed.

Lemma navigate_no_write (u : string) : emits no_write (_navigate page u).
Proof.
  unfold _navigate, page_goto, page_wait_for_load_state, page_title. cbv zeta.
  apply emits_try; [| intro; apply emits_raise].
  apply emits_bind; [now apply emits_call | intros _].
  apply emits_bind; [now apply emits_call | intros _].
  apply emits_bind; [apply emits_read | intro cur].
  apply emits_bind; [now apply emits_call | intro t]. apply emits_ret.
Qed.

Lemma login_button_loop_no_write (l : list string) :
  emits no_write (login_button_loop page l).
Proof.
  induction l as [| b l IH]; cbn [login_button_loop]; [apply emits_ret |].
  apply emits_bind.
  - unfold try_login_button, page_wait_for_selector, el_click,
      page_wait_for_load_state.
    apply emits_try; [| intro; apply emits_ret].
    apply emits_bind; [now apply emits_call |].
    intros [h |]; [| apply emits_ret].
    apply emits_bind; [now apply emits_call | intros _].
    apply emits_bind; [now apply emits_call | intros _]. apply emits_ret.
  - intros [|]; [apply emits_ret | exact IH].
Qed.

Lemma navigate_first (u : string) (s : state W) :
  exists rest, since s (snd (_navigate page u s)) = EGoto (url_of u) :: rest.
Proof.
  unfold _navigate. cbv zeta.
  change (if startswith u "http://" || startswith u "https://" then u
          else ("https://" ++ u)%string) with (url_of u).
  generalize (url_of u) as address. intro address.
  unfold try_except, bind, page_goto, page_wait_for_load_state, page_title,
    read, call.
  destruct (goto page address (world s)) as [[e | []] w1];
    cbn [world initialized trace raise ret fst snd].
  - eexists. apply since_app. cbn [trace]. reflexivity.
  - destruct (wait_for_load_state page "networkidle" w1) as [[e | []] w2];
      cbn [world initialized trace raise ret fst snd].
    + eexists. apply since_app. cbn [trace]. rewrite <- app_assoc. reflexivity.
    + destruct (title page w2) as [[e | t] w3];
        cbn [world initialized trace raise ret fst snd];
        eexists; apply since_app; cbn [trace]; rewrite <- !app_assoc;
        reflexivity.
Qed.

Lemma bind_extends {A B} (c : M W A) (f : A -> M W B) (s : state W) :
  (forall a, emits (fun _ => True) (f a)) ->
  exists l, trace (snd (bind c f s)) = trace (snd (c s)) ++ l.
Proof.
  intro Hf. unfold bind. destruct (c s) as [[e | a] s1]; cbn [snd].
  - exists []. now rewrite app_nil_r.
  - destruct (Hf a s1) as (l & E & _). now exists l.
Qed.

Lemma try_raise_trace {A} (c : M W A) (g : exn -> exn) (s : state W) :
  trace (snd (try_except c (fun e => raise (g e)) s)) = trace (snd (c s)).
Proof. unfold try_except. now destruct (c s) as [[e | a] s1]. Qed.

Lemma try_raise_trace_since {A} (c : M W A) (g : exn -> exn) (s s1 : state W) :
  since s1 (snd (try_except c (fun e => raise (g e)) s)) = since s1 (snd (c s)).
Proof. unfold since. now rewrite try_raise_trace. Qed.

Lemma emits_anything {A} (P : event -> Prop) (c : M W A) :
  emits P c -> emits (fun _ => True) c.
Proof. apply emits_weaken. auto. Qed.

Lemma try_login_button_first (b : string) (s : state W) :
  exists l,
    trace (snd (try_login_button page b s))
    = trace s ++ EWaitForSelector ("text='" ++ b ++ "'") 2000 :: l.
Proof.
  unfold try_login_button, try_except, bind, page_wait_for_selector, el_click,
    page_wait_for_load_state, call, ret.
  destruct (wait_for_selector page _ 2000 (world s)) as [[e | [h |]] w1];
    cbn [world initialized trace snd]; [now exists [] | | now exists []].
  destruct (click page h w1) as [[e | []] w2];
    cbn [world initialized trace snd].
  - exists [EClick]. now rewrite <- app_assoc.
  - destruct (wait_for_load_state page "networkidle" w2) as [[e | []] w3];
      cbn [world initialized trace snd];
      exists [EClick; EWaitForLoadState "networkidle"];
      now rewrite <- !app_assoc.
Qed.

Lemma url_answer_anything (website : string) (username password : option string) :
  emits (fun _ => True)
    (bind (page_url_call page) (fun current_url : string =>
     @ret W dict
       [("logged_in", VBool (is_not_none username && is_not_none password));
        ("website", VStr website);
        ("current_url", VStr current_url)])).
Proof.
  apply emits_bind; [now apply emits_call | intro]. apply emits_ret.
Qed.

(** X10.  When the user name or the password is missing or empty, [_login]
    is the run that opens the site, tries the login buttons and asks the
    page for its address, and nothing else: the part that fills in the
    form and submits it is skipped as a whole.  So the first call of the
    run opens the (normalized) address of the site, once the site is
    open the first login button is looked for, and nothing is written
    into the page and no key is pressed.  An answer, when the page gives
    its address, has [logged_in] set to whether neither argument was
    [None], which is [True] for an empty user name or password; when
    asking for the address raises, the run ends with [Failed to login
    to ...]. *)
Theorem login_without_credentials_fills_nothing
        (website : string) (username password : option string) (s : state W) :
  truthy username = None \/ truthy password = None ->
  let run := _login page website username password s in
  run
  = try_except
      (bind (_navigate page website) (fun _ =>
       bind (login_button_loop page login_buttons) (fun _ =>
       bind (page_url_call page) (fun current_url =>
       ret [("logged_in",
             VBool (is_not_none username && is_not_none password));
            ("website", VStr website);
            ("current_url", VStr current_url)]))))
      (fun e => raise (BrowserAutomationError
                         ("Failed to login to " ++ website ++ ": "
                          ++ message e))) s
  /\ (exists rest, since s (snd run) = EGoto (url_of website) :: rest)
  /\ (forall d s1,
        _navigate page website s = (inr d, s1) ->
        exists rest,
          since s1 (snd run)
          = EWaitForSelector "text='Log in'" 2000 :: rest)
  /\ Forall no_write (since s (snd run))
  /\ (forall e, fst run = inl e ->
        exists cause,
          e = BrowserAutomationError
                ("Failed to login to " ++ website ++ ": " ++ message cause)).
Proof.
  intros Hmissing. cbv zeta.
  assert (Hskip :
            match truthy username, truthy password with
            | Some u, Some p =>
                bind (fill_first page u username_fields)
                  (fun username_filled =>
                     if negb username_filled
                     then raise (ElementNotFoundError
                                   "Could not find username field" None)
                     else
                       bind (fill_first page p password_fields)
                         (fun password_filled =>
                            if negb password_filled
                            then raise (ElementNotFoundError
                                          "Could not find password field" None)
                            else bind (_submit page) (fun _ => ret tt)))
            | _, _ => ret tt
            end = @ret W unit tt).
  { destruct Hmissing as [-> | ->]; [reflexivity |].
    now destruct (truthy username). }
  assert (Heq :
    _login page website username password s
    = try_except
        (bind (_navigate page website) (fun _ =>
         bind (login_button_loop page login_buttons) (fun _ =>
         bind (page_url_call page) (fun current_url =>
         ret [("logged_in",
               VBool (is_not_none username && is_not_none password));
              ("website", VStr website);
              ("current_url", VStr current_url)]))))
        (fun e => raise (BrowserAutomationError
                           ("Failed to login to " ++ website ++ ": "
                            ++ message e))) s).
  { unfold _login. rewrite Hskip. unfold try_except, bind.
    destruct (_navigate page website s) as [[e | d0] s1]; [reflexivity |].
    destruct (login_button_loop page login_buttons s1) as [[e | []] s2];
      reflexivity. }
  split; [exact Heq |]. rewrite Heq. clear Heq Hskip Hmissing.
  split; [| split; [| split]].
  - destruct (navigate_first website s) as (rest & Hn).
    destruct (navigate_no_write website s) as (l0 & E0 & _).
    rewrite (since_app _ _ _ E0) in Hn. subst l0.
    rewrite try_raise_trace_since.
    destruct (bind_extends (_navigate page website)
                (fun _ =>
                   bind (login_button_loop page login_buttons) (fun _ =>
                   bind (page_url_call page) (fun current_url =>
                   ret [("logged_in",
                         VBool (is_not_none username && is_not_none password));
                        ("website", VStr website);
                        ("current_url", VStr current_url)]))) s)
      as (l & El).
    { intros _. apply emits_bind.
      - eapply emits_anything, login_button_loop_no_write.
      - intros _. apply url_answer_anything. }
    exists (rest ++ l). apply since_app.
    etransitivity; [exact El |]. now rewrite E0, <- app_assoc.
  - intros d s1 En.
    assert (Hrun : forall r : (exn + dict) * state W,
               r = try_except
                     (bind (_navigate page website) (fun _ =>
                      bind (login_button_loop page login_buttons) (fun _ =>
                      bind (page_url_call page) (fun current_url =>
                      ret [("logged_in",
                            VBool (is_not_none username
                                   && is_not_none password));
                           ("website", VStr website);
                           ("current_url", VStr current_url)]))))
                     (fun e => raise (BrowserAutomationError
                                        ("Failed to login to " ++ website
                                         ++ ": " ++ message e))) s ->
               exists rest,
                 since s1 (snd r)
                 = EWaitForSelector "text='Log in'" 2000 :: rest);
      [| now apply Hrun].
    intros r ->. rewrite try_raise_trace_since.
    unfold bind at 1. rewrite En.
    destruct (bind_extends (login_button_loop page login_buttons)
                (fun _ =>
                   bind (page_url_call page) (fun current_url =>
                   ret [("logged_in",
                         VBool (is_not_none username && is_not_none password));
                        ("website", VStr website);
                        ("current_url", VStr current_url)])) s1)
      as (l2 & E2).
    { intros _. apply url_answer_anything. }
    cbn [login_buttons login_button_loop] in E2.
    destruct (bind_extends (try_login_button page "Log in")
                (fun r0 : bool =>
                   if r0 then ret tt
                   else login_button_loop page
                          ["Login"; "Sign in"; "Signin"; "Sign In"; "Account";
                           "My Account"]%string) s1)
      as (l1 & E1).
    { intros [|]; [apply emits_ret |].
      eapply emits_anything, login_button_loop_no_write. }
    destruct (try_login_button_first "Log in" s1) as (l0 & E0).
    exists (l0 ++ l1 ++ l2). apply since_app.
    etransitivity; [exact E2 |].
    etransitivity; [apply (f_equal (fun x => x ++ l2)); exact E1 |].
    rewrite E0, <- !app_assoc. reflexivity.
  - apply emits_since.
    apply emits_try; [| intro; apply emits_raise].
    apply emits_bind; [apply navigate_no_write | intros _].
    apply emits_bind; [apply login_button_loop_no_write | intros _].
    apply emits_bind; [now apply emits_call | intro u]. apply emits_ret.
  - unfold try_except.
    match goal with
    | |- forall e, fst (match ?c with _ => _ end) = _ -> _ =>
        destruct c as [[e0 | d0] s1]
    end; cbn [raise fst]; intros e; [| discriminate].
    intros [= <-]. now exists e0.
Qed.

Section Stuck.
(** A page on which every selector of a submit button finds something,
    clicking works, and the network never goes idle. *)
Hypothesis buttons_everywhere :
  forall sel w, exists h w', wait_for_selector page sel 1000 w = (inr (Some h), w').
Hypothesis clicks_work : forall h w, exists w', click page h w = (inr tt, w').
Hypothesis never_settles :
  forall w, exists e w', wait_for_load_state page "networkidle" w = (inl e, w').

Lemma try_button_stuck (sel : string) (s : state W) :
  exists s',
    try_button page sel s = (inr false, s')
    /\ trace s' = trace s ++ [EWaitForSelector sel 1000; EClick;
                              EWaitForLoadState "networkidle"].
Proof.
  unfold try_button, try_except, bind, page_wait_for_selector, el_click,
    page_wait_for_load_state, call.
  destruct (buttons_everywhere sel (world s)) as (h & w1 & ->).
  cbn [world initialized trace].
  destruct (clicks_work h w1) as (w2 & ->). cbn [world initialized trace].
  destruct (never_settles w2) as (e & w3 & ->). cbn [ret].
  eexists. split; [reflexivity |]. cbn [trace].
  now rewrite <- !app_assoc.
Qed.

Lemma button_loop_stuck (sels : list string) (s : state W) :
  exists s' l,
    button_loop page sels s = (inr false, s')
    /\ trace s' = trace s ++ l /\ clicks l = length sels /\ enters l = 0.
Proof.
  revert s. induction sels as [| sel sels IH]; intro s; cbn [button_loop].
  - exists s, []. now rewrite app_nil_r.
  - unfold bind. destruct (try_button_stuck sel s) as (s1 & -> & E1).
    destruct (IH s1) as (s2 & l & -> & E2 & C & N).
    eexists _, _. split; [reflexivity |]. rewrite E2, E1, <- app_assoc.
    split; [reflexivity |]. cbn. now rewrite C, N.
Qed.

Lemma submit_stuck (s : state W) :
  clicks (since s (snd (_submit page s))) = length submit_selectors
  /\ enters (since s (snd (_submit page s))) <= 1
  /\ exists e, fst (_submit page s) = inl (submit_failed e).
Proof.
  unfold _submit, try_except, bind.
  destruct (button_loop_stuck submit_selectors s) as (s1 & l & -> & E1 & C & N).
  unfold page_query_selector, el_press, page_keyboard_press,
    page_wait_for_load_state, call.
  destruct (query_selector page "form" (world s1)) as [[e | [form |]] w1];
    cbn [world initialized trace raise fst snd].
  - since_is E1 (l ++ [EQuerySelector "form"]).
    rewrite clicks_app, !C. cbn [clicks].
    replace (enters (l ++ [EQuerySelector "form"])) with 0.
    2:{ clear - N. induction l as [| x l IH]; [reflexivity |].
        destruct x; cbn in *; auto; discriminate. }
    split; [lia |]. split; [lia |]. now exists e.
  - destruct (press page form "Enter" w1) as [[e | []] w2];
      cbn [world initialized trace raise fst snd].
    + since_is E1 (l ++ [EQuerySelector "form"; EPress "Enter"]).
      rewrite clicks_app, !C. cbn [clicks].
      replace (enters (l ++ [EQuerySelector "form"; EPress "Enter"])) with 1.
      2:{ clear - N. induction l as [| x l IH]; [reflexivity |].
          destruct x; cbn in *; auto; discriminate. }
      split; [lia |]. split; [lia |]. now exists e.
    + destruct (never_settles w2) as (e & w3 & ->).
      cbn [world initialized trace raise fst snd].
      since_is E1 (l ++ [EQuerySelector "form"; EPress "Enter";
                         EWaitForLoadState "networkidle"]).
      rewrite clicks_app, !C. cbn [clicks].
      replace (enters (l ++ [EQuerySelector "form"; EPress "Enter";
                             EWaitForLoadState "networkidle"])) with 1.
      2:{ clear - N. induction l as [| x l IH]; [reflexivity |].
          destruct x; cbn in *; auto; discriminate. }
      split; [lia |]. split; [lia |]. now exists e.
  - destruct (keyboard_press page "Enter" w1) as [[e | []] w2];
      cbn [world initialized trace raise fst snd].
    + since_is E1 (l ++ [EQuerySelector "form"; EKeyboardPress "Enter"]).
      rewrite clicks_app, !C. cbn [clicks].
      replace (enters (l ++ [EQuerySelector "form"; EKeyboardPress "Enter"]))
        with 1.
      2:{ clear - N. induction l as [| x l IH]; [reflexivity |].
          destruct x; cbn in *; auto; discriminate. }
      split; [lia |]. split; [lia |]. now exists e.
    + destruct (never_settles w2) as (e & w3 & ->).
      cbn [world initialized trace raise fst snd].
      since_is E1 (l ++ [EQuerySelector "form"; EKeyboardPress "Enter";
                         EWaitForLoadState "networkidle"]).
      rewrite clicks_app, !C. cbn [clicks].
      replace (enters (l ++ [EQuerySelector "form"; EKeyboardPress "Enter";
                             EWaitForLoadState "networkidle"])) with 1.
      2:{ clear - N. induction l as [| x l IH]; [reflexivity |].
          destruct x; cbn in *; auto; discriminate. }
      split; [lia |]. split; [lia |]. now exists e.
Qed.

End Stuck.

(** X11.  On a page where every selector of the button loop finds an element,
    clicks succeed and the network never goes idle, [_submit] clicks all
    seven candidates one after the other, then tries the Enter key at
    most once, and raises: a failure to settle after a click is taken
    for a failure to click. *)
Theorem submit_clicks_every_button_when_never_idle (s : state W) :
  (forall sel w, exists h w',
        wait_for_selector page sel 1000 w = (inr (Some h), w')) ->
  (forall h w, exists w', click page h w = (inr tt, w')) ->
  (forall w, exists e w',
        wait_for_load_state page "networkidle" w = (inl e, w')) ->
  clicks (since s (snd (_submit page s))) = 7
  /\ enters (since s (snd (_submit page s))) <= 1
  /\ exists e, fst (_submit page s) = inl (submit_failed e).
Proof. intros Hb Hc Hn. exact (submit_stuck Hb Hc Hn s). Qed.

(** X12.  [get_status] never raises.  Before start-up it answers
    [not_initialized] without touching the page.  Afterwards it asks the
    page for its address and then for its title: when both calls return
    it answers [ready] with that address and that title; when one of
    them raises it answers [error] with the text of that very exception,
    and a failed request for the address is not followed by one for the
    title. *)
Theorem get_status_never_raises (s : state W) :
  (exists d, fst (get_status page s) = inr d)
  /\ (initialized s = false ->
      get_status page s = (inr [("status", VStr "not_initialized")], s))
  /\ (forall e w1,
        initialized s = true ->
        url_call page (world s) = (inl e, w1) ->
        get_status page s
        = (inr [("status", VStr "error"); ("message", VStr (message e))],
           State w1 true (trace s ++ [EUrl])))
  /\ (forall u w1 e w2,
        initialized s = true ->
        url_call page (world s) = (inr u, w1) ->
        title page w1 = (inl e, w2) ->
        get_status page s
        = (inr [("status", VStr "error"); ("message", VStr (message e))],
           State w2 true (trace s ++ [EUrl; ETitle])))
  /\ (forall u w1 t w2,
        initialized s = true ->
        url_call page (world s) = (inr u, w1) ->
        title page w1 = (inr t, w2) ->
        get_status page s
        = (inr [("status", VStr "ready"); ("current_url", VStr u);
                ("title", VStr t)],
           State w2 true (trace s ++ [EUrl; ETitle]))).
Proof.
  unfold get_status, bind, get_initialized. cbn [fst snd].
  split; [| split; [| split; [| split]]].
  - destruct (initialized s); cbn [negb]; [| now eexists].
    unfold try_except, bind, page_url_call, page_title, call.
    destruct (url_call page (world s)) as [[e | u] w1];
      cbn [world initialized trace ret fst snd]; [now eexists |].
    destruct (title page w1) as [[e | t] w2]; now eexists.
  - now intros ->.
  - intros e w1 Hi Hu. rewrite Hi. cbn [negb].
    unfold try_except, bind, page_url_call, call. now rewrite Hu, Hi.
  - intros u w1 e w2 Hi Hu Ht. rewrite Hi. cbn [negb].
    unfold try_except, bind, page_url_call, page_title, call. rewrite Hu.
    cbn [world initialized trace]. rewrite Ht, Hi.
    cbn [ret]. now rewrite <- app_assoc.
  - intros u w1 t0 w2 Hi Hu Ht. rewrite Hi. cbn [negb].
    unfold try_except, bind, page_url_call, page_title, call. rewrite Hu.
    cbn [world initialized trace]. rewrite Ht, Hi.
    cbn [ret]. now rewrite <- app_assoc.
Qed.

Lemma execute_bad_keys (action : string) (names : list string)
      (parameters : dict) (s : state W) :
  initialized s = true ->
  parameters_of action = Some names ->
  keys_ok names parameters = false ->
  exists m,
    execute page action parameters s
    = (inl (BrowserAutomationError
              ("Failed to execute " ++ action ++ ": " ++ m)), s).
Proof.
  intros Hi Hn Hk. unfold parameters_of in Hn.
  unfold execute, bind, get_initialized. cbn [fst snd]. rewrite Hi. cbn [ret].
  repeat match type of Hn with
         | (if String.eqb ?a ?b then _ else _) = _ =>
             destruct (String.eqb_spec a b) as [-> | _];
               [injection Hn as <-;
                cbn [lookup_action action_map String.eqb Ascii.eqb Bool.eqb];
                unfold try_except, call_navigate, call_click, call_type,
                  call_submit, call_wait, call_wait_for_element,
                  call_screenshot, call_login, call_search;
                rewrite Hk; cbn; eexists; reflexivity |]
         end.
  discriminate.
Qed.

(** X13.  A call of [execute] whose dict has a key that is no parameter of the
    handler fails before any call on the page: the [TypeError] of the
    call is wrapped into [BrowserAutomationError], and the page is left
    as it was. *)
Theorem execute_rejects_unknown_parameters (action : string)
        (names : list string) (parameters : dict) (s : state W) :
  initialized s = true ->
  parameters_of action = Some names ->
  keys_ok names parameters = false ->
  exists m,
    execute page action parameters s
    = (inl (BrowserAutomationError
              ("Failed to execute " ++ action ++ ": " ++ m)), s).
Proof. apply execute_bad_keys. Qed.

End Actions.

(* ===================================================================== *)
(** * More on the challenge handler                                       *)
(* ===================================================================== *)

Section Solving.
Context {W H : Type} (page : api W H).

Lemma all_miss_or_stop (sels : list string) (w : W) :
  (exists w1, all_miss page sels w = Some w1)
  \/ (exists pre sel post w1 r w2,
        sels = pre ++ sel :: post
        /\ all_miss page pre w = Some w1
        /\ query_selector page sel w1 = (r, w2)
        /\ r <> inr None).
Proof.
  revert w. induction sels as [| sel rest IH]; intro w; cbn [all_miss].
  - left. now exists w.
  - destruct (query_selector page sel w) as [[e | [h |]] w'] eqn:Eq.
    + right. exists [], sel, rest, w, (inl e), w'. repeat split; auto.
      discriminate.
    + right. exists [], sel, rest, w, (inr (Some h)), w'. repeat split; auto.
      discriminate.
    + destruct (IH w') as [(w1 & Hm) | (pre & x & post & w1 & r & w2 & -> & Hm & Hq & Hr)].
      * left. now exists w1.
      * right. exists (sel :: pre), x, post, w1, r, w2.
        cbn [all_miss app]. rewrite Eq. repeat split; auto.
Qed.

(** X14.  Detection only looks at the page, and looks no further than it has
    to.  Either every structural query comes back empty: then its calls
    are the eleven queries in list order and one reading of the page
    text.  Or some query finds an element or raises: then its calls are
    the queries up to and including the first such one, and nothing
    after it, the page text not excepted.  In both cases it makes no
    other call, at most twelve in all, and leaves the controller's
    [initialized] flag alone. *)
Theorem detect_captcha_only_looks (s : state W) :
  ((exists w1,
       all_miss page CAPTCHA_SELECTORS (world s) = Some w1
       /\ since s (snd (detect_captcha page s))
          = map EQuerySelector CAPTCHA_SELECTORS ++ [EContent])
   \/ (exists pre sel post w1,
          CAPTCHA_SELECTORS = pre ++ sel :: post
          /\ all_miss page pre (world s) = Some w1
          /\ fst (query_selector page sel w1) <> inr None
          /\ since s (snd (detect_captcha page s))
             = map EQuerySelector (pre ++ [sel])))
  /\ Forall looks (since s (snd (detect_captcha page s)))
  /\ length (since s (snd (detect_captcha page s))) <= 12
  /\ initialized (snd (detect_captcha page s)) = initialized s.
Proof.
  assert (Hq : forall l, Forall looks (map EQuerySelector l)).
  { intro l. apply Forall_forall. intros ev Hev. apply in_map_iff in Hev.
    destruct Hev as (x & <- & _). exact I. }
  destruct (all_miss_or_stop CAPTCHA_SELECTORS (world s))
    as [(w1 & Hm) | (pre & sel & post & w1 & r & w2 & Hl & Hm & Hqs & Hr)].
  - assert (E : since s (snd (detect_captcha page s))
                = map EQuerySelector CAPTCHA_SELECTORS ++ [EContent]
                /\ initialized (snd (detect_captcha page s)) = initialized s).
    { unfold detect_captcha, try_except, detect_body, bind.
      rewrite (scan_all_miss page _ _ _ Hm).
      unfold page_content, call. cbn [world initialized trace].
      destruct (content page w1) as [[e | text] w2]; cbv zeta;
        [| destruct (existsb _ _)]; cbn [ret fst snd initialized];
        (split; [apply since_app; cbn [trace]; now rewrite <- app_assoc
                | reflexivity]). }
    destruct E as (E & Ei). rewrite E.
    split; [left; now exists w1 |].
    split; [apply Forall_app; split; [apply Hq | repeat constructor] |].
    split; [cbn; lia | exact Ei].
  - assert (E : since s (snd (detect_captcha page s))
                = map EQuerySelector (pre ++ [sel])
                /\ initialized (snd (detect_captcha page s)) = initialized s).
    { unfold detect_captcha, try_except, detect_body, bind. rewrite Hl.
      rewrite (scan_stops page pre post sel s w1 w2 r Hm Hqs Hr).
      destruct r as [e | [h |]]; [| | contradiction];
        cbn [ret fst snd initialized];
        (split; [apply since_app | reflexivity]); reflexivity. }
    destruct E as (E & Ei). rewrite E.
    split.
    { right. exists pre, sel, post, w1. rewrite Hqs.
      repeat split; auto. }
    split; [apply Hq |].
    split; [| exact Ei].
    rewrite length_map, length_app. cbn [length].
    apply (f_equal (@length string)) in Hl. rewrite length_app in Hl.
    cbn in Hl. lia.
Qed.

Section Key.
Variable api_key : option string.

(** The kinds for which [solve_captcha] has a solver of its own. *)
Local Abbreviation known kind :=
  (String.eqb kind "recaptcha" || String.eqb kind "hcaptcha"
   || String.eqb kind "text_captcha").

(** X15.  With an API key set, a challenge of kind [recaptcha], [hcaptcha] or
    [text_captcha] is answered [False] at once, without a call on the
    page and without waiting for a person; in every other case, and
    whenever no key is set, [solve_captcha] is [_manual_intervention]. *)
Theorem solve_captcha_with_key_gives_up (kind : string) (element : option H)
        (s : state W) :
  solve_captcha page api_key kind element s
  = if is_not_none (truthy api_key) && known kind
    then (inr false, s)
    else _manual_intervention page s.
Proof.
  unfold solve_captcha, bind, try_except, _solve_recaptcha, _solve_hcaptcha,
    _solve_text_captcha.
  destruct (truthy api_key) as [key |]; cbn [is_not_none andb ret];
    [| reflexivity].
  destruct (String.eqb kind "recaptcha"); [reflexivity |].
  destruct (String.eqb kind "hcaptcha"); [reflexivity |].
  destruct (String.eqb kind "text_captcha"); reflexivity.
Qed.

End Key.
End Solving.

(* ===================================================================== *)
(** * The endpoint                                                        *)
(* ===================================================================== *)

Import App.

Lemma get_set_key (d : dict) (k k' : string) (v : value) :
  get (set_key d k v) k' = if String.eqb k k' then Some v else get d k'.
Proof.
  induction d as [| [k0 v0] d IH]; cbn.
  - reflexivity.
  - destruct (String.eqb_spec k0 k) as [-> | Hne]; cbn.
    + destruct (String.eqb_spec k k'); reflexivity.
    + destruct (String.eqb_spec k0 k') as [-> | Hne'].
      * destruct (String.eqb_spec k k'); [congruence | reflexivity].
      * exact IH.
Qed.

Lemma get_app (d1 d2 : dict) (k : string) :
  get (d1 ++ d2) k = match get d1 k with Some v => Some v | None => get d2 k end.
Proof.
  induction d1 as [| [k0 v0] d1 IH]; cbn; [reflexivity |].
  destruct (String.eqb k0 k); [reflexivity | exact IH].
Qed.

(** X16.  [update] is [dict.update]: afterwards a key of the options has the
    value the options give it (the last one, should it be listed twice),
    and every other key has the value it had. *)
Theorem update_lookup (d o : dict) (k : string) :
  get (update d o) k
  = match get (rev o) k with
    | Some v => Some v
    | None => get d k
    end.
Proof.
  unfold update. revert d. induction o as [| [k0 v0] o IH]; intro d; cbn.
  - reflexivity.
  - rewrite IH, get_app, get_set_key. cbn.
    destruct (get (rev o) k); [reflexivity |].
    destruct (String.eqb k0 k); reflexivity.
Qed.

Lemma set_key_keys (d : dict) (k k' : string) (v : value) :
  In k' (keys d) \/ k' = k -> In k' (keys (set_key d k v)).
Proof.
  unfold keys. induction d as [| [k0 v0] d IH]; cbn.
  - intros [[] | ->]. now left.
  - destruct (String.eqb_spec k0 k) as [-> | Hne]; cbn.
    + intros [[-> | Hin] | ->]; auto.
    + intros [[-> | Hin] | ->]; auto.
Qed.

Lemma update_keeps_keys (d o : dict) (k : string) :
  In k (keys d) -> In k (keys (update d o)).
Proof.
  unfold update. revert d. induction o as [| [k0 v0] o IH]; intros d Hin; cbn.
  - exact Hin.
  - apply IH, set_key_keys. now left.
Qed.

Lemma update_adds_keys (d o : dict) (k : string) :
  In k (keys o) -> In k (keys (update d o)).
Proof.
  unfold update. revert d. induction o as [| [k0 v0] o IH]; intros d; cbn.
  - intros [].
  - intros [<- | Hin].
    + apply (update_keeps_keys _ o), set_key_keys. now right.
    + now apply IH.
Qed.

Lemma keys_ok_false (names : list string) (d : dict) (k : string) :
  In k (keys d) -> ~ In k names -> keys_ok names d = false.
Proof.
  intros Hin Hout. unfold keys_ok.
  destruct (forallb _ d) eqn:E; [exfalso | reflexivity].
  rewrite forallb_forall in E. unfold keys in Hin.
  apply in_map_iff in Hin. destruct Hin as ([k0 v0] & <- & Hkv).
  specialize (E _ Hkv). cbn in E. apply existsb_exists in E.
  destruct E as (x & Hx & Heq). apply String.eqb_eq in Heq. now subst x.
Qed.

Lemma parse_error_is_value_error (command : string) (e : exn) :
  parse_command command = inl e -> exists m, e = ValueError m.
Proof.
  unfold parse_command. generalize (normalize command) as t. intro t.
  unfold COMMAND_PATTERNS. cbn [try_patterns].
  repeat match goal with
         | |- context [re_match ?p t] => destruct (re_match p t)
         end;
    try discriminate;
    try (destruct (py_float _) eqn:E; [| discriminate];
         intros [= <-]; apply py_float_error in E; eauto).
  intros [= <-]. eauto.
Qed.

Section Endpoint.
Context {W H : Type} (page : api W H) (traceback : string).

(** X17.  A command the parser rejects is answered with status 500 and the
    parser's message, before the browser is touched: the [ValueError] of
    the parser is none of the errors [handle_error] is asked about. *)
Theorem interact_rejects_unparsed_commands (command : string)
        (options : option dict) (e : exn) (s : state W) :
  parse_command command = inl e ->
  interact page traceback true command options s
  = (inr (HTTPException 500 ("Unexpected error: " ++ Exn.message e)), s).
Proof.
  intro Hp. unfold interact. cbn [negb]. rewrite Hp.
  destruct (parse_error_is_value_error _ _ Hp) as (m & ->). reflexivity.
Qed.

(** X18.  A command the parser accepts is always answered with a
    [CommandResponse], never with status 500.  The action is executed
    with the parsed parameters updated by the options of the request.
    When it returns, the answer is success, with [Successfully
    executed: ] before the command as it was sent, and the handler's
    result as data; when it raises, the answer is failure with the
    message of that very error and, as data, the dict [handle_error]
    makes of it, whose [error_type] is one of the four classes the
    controller raises and never [UnexpectedError].  The state of the
    browser is the one the action left. *)
Theorem interact_answers_parsed_commands (command action : string)
        (params : dict) (options : option dict) (s : state W) :
  parse_command command = inr (action, params) ->
  let parameters :=
    update params match options with Some o => o | None => [] end in
  let run := execute page action parameters s in
  interact page traceback true command options s
  = (inr match fst run with
         | inr result =>
             CommandResponse true ("Successfully executed: " ++ command)
               (inl result)
         | inl e =>
             CommandResponse false (Exn.message e)
               (inr (ErrorHandler.handle_error
                       (ErrorHandler.of_exn e traceback)))
         end,
     snd run)
  /\ (forall e,
        fst run = inl e ->
        ErrorHandler.message
          (ErrorHandler.handle_error (ErrorHandler.of_exn e traceback))
        = Exn.message e
        /\ In (ErrorHandler.error_type
                 (ErrorHandler.handle_error (ErrorHandler.of_exn e traceback)))
              ["BrowserAutomationError"; "ElementNotFoundError";
               "NavigationError"; "TimeoutError"]).
Proof.
  intro Hp. cbv zeta.
  assert (Ht : forall parameters e,
             fst (execute page action parameters s) = inl e ->
             is_BrowserAutomationError e = true)
    by (intros parameters e; apply execute_typed).
  split.
  - unfold interact. cbn [negb]. rewrite Hp.
    assert (Hopt : match options with
                   | Some (kv :: o) => update params (kv :: o)
                   | _ => params
                   end
                   = update params match options with
                                   | Some o => o
                                   | None => []
                                   end)
      by (destruct options as [[| kv o] |]; reflexivity).
    rewrite Hopt.
    specialize (Ht (update params match options with
                                  | Some o => o
                                  | None => []
                                  end)).
    destruct (execute page action _ s) as [[e | result] s'];
      cbn [fst snd] in *; [| reflexivity].
    unfold on_error. now rewrite (Ht e eq_refl).
  - intros e He. specialize (Ht _ e He).
    destruct e; try discriminate Ht; cbn; auto 6.
Qed.

(** X19.  Options are passed to the handler as they are: an option whose name
    is no parameter of the handler the command was parsed to makes the
    command fail, with [BrowserAutomationError] and before any call on
    the page, however well the command itself was understood. *)
Theorem interact_rejects_foreign_options (command action : string)
        (params options : dict) (names : list string) (k : string)
        (s : state W) :
  parse_command command = inr (action, params) ->
  parameters_of action = Some names ->
  In k (keys options) ->
  ~ In k names ->
  initialized s = true ->
  exists m,
    interact page traceback true command (Some options) s
    = (inr (CommandResponse false
              ("Failed to execute " ++ action ++ ": " ++ m)
              (inr (ErrorHandler.Response "BrowserAutomationError"
                      ("Failed to execute " ++ action ++ ": " ++ m) []
                      None))), s).
Proof.
  intros Hp Hn Hk Hout Hi. unfold interact. cbn [negb]. rewrite Hp.
  destruct options as [| kv o]; [destruct Hk |].
  destruct (execute_bad_keys page action names (update params (kv :: o)) s
              Hi Hn) as (m & ->).
  { eapply keys_ok_false; [| exact Hout]. now apply update_adds_keys. }
  now exists m.
Qed.

End Endpoint.

(* ===================================================================== *)
(** * From the command to the page                                        *)
(* ===================================================================== *)

Section Opening.
Context {W H : Type} (page : api W H).

Lemma url_of_https (address : string) :
  url_of ("https://" ++ address) = ("https://" ++ address)%string.
Proof. reflexivity. Qed.

(** X20.  The address the parser makes of a navigation command is the address
    the page is sent to: it starts with [https://], and opening it is the
    first thing the dispatcher does on the page. *)
Theorem parsed_address_is_the_one_opened (command : string) (params : dict)
        (s : state W) :
  parse_command command = inr ("navigate", params) ->
  initialized s = true ->
  exists address rest,
    params = [("url", VStr ("https://" ++ address))]
    /\ since s (snd (execute page "navigate" params s))
       = EGoto ("https://" ++ address) :: rest.
Proof.
  intros Hp Hi.
  destruct (navigate_params_https _ _ Hp) as (address & -> & _).
  destruct (navigate_first page ("https://" ++ address) s) as (rest & Hr).
  rewrite url_of_https in Hr.
  exists address, rest. split; [reflexivity |].
  rewrite <- Hr. f_equal.
  unfold execute, bind, get_initialized. cbn [fst snd]. rewrite Hi.
  cbn [ret lookup_action action_map String.eqb Ascii.eqb Bool.eqb].
  unfold try_except.
  change (call_navigate page [("url", VStr ("https://" ++ address))])
    with (_navigate page ("https://" ++ address)).
  destruct (_navigate page ("https://" ++ address) s) as [[e | d] s1];
    [destruct (is_BrowserAutomationError e) |]; reflexivity.
Qed.

End Opening.

(* ===================================================================== *)
(** * The properties above on concrete pages                              *)
(* ===================================================================== *)

Import Pages.

Lemma login_without_credentials_fills_nothing_witness :
  (exists rest,
      since start
        (snd (_login (scripted blank) "example.com" (Some "") (Some "secret")
                start))
      = EGoto "https://example.com" :: rest)
  /\ Forall no_write
       (since start
          (snd (_login (scripted blank) "example.com" (Some "") (Some "secret")
                  start))).
Proof.
  destruct (login_without_credentials_fills_nothing (scripted blank)
              "example.com" (Some "") (Some "secret") start
              (or_introl eq_refl))
    as (_ & Hopen & _ & Hquiet & _).
  split; [exact Hopen | exact Hquiet].
Defined.

(** On a page that answers the request for its address, an empty user
    name is reported as a login, with nothing typed. *)
Example login_with_empty_user_name :
  _login (scripted blank) "example.com" (Some "") (Some "secret") start
  = (inr [("logged_in", VBool true); ("website", VStr "example.com");
          ("current_url", VStr "https://example.com/")],
     State 0 true
       ([EGoto "https://example.com"; EWaitForLoadState "networkidle"; ETitle]
        ++ map (fun b => EWaitForSelector ("text='" ++ b ++ "'") 2000)
               login_buttons
        ++ [EUrl])).
Proof. vm_compute. reflexivity. Qed.

Lemma submit_clicks_every_button_when_never_idle_witness :
  clicks (since start (snd (_submit (scripted busy_form) start))) = 7
  /\ enters (since start (snd (_submit (scripted busy_form) start))) <= 1
  /\ exists e, fst (_submit (scripted busy_form) start) = inl (submit_failed e).
Proof.
  apply (submit_clicks_every_button_when_never_idle (scripted busy_form) start).
  - intros sel w. exists 1, w. reflexivity.
  - intros h w. exists w. reflexivity.
  - intros w. exists timed_out, w. reflexivity.
Defined.

Lemma execute_rejects_unknown_parameters_witness :
  exists m,
    execute (scripted blank) "submit" [("force", VBool true)] start
    = (inl (BrowserAutomationError ("Failed to execute submit: " ++ m)), start).
Proof.
  apply (execute_rejects_unknown_parameters (scripted blank) "submit" []
           [("force", VBool true)] start).
  - reflexivity.
  - reflexivity.
  - reflexivity.
Defined.

Lemma parsed_address_is_the_one_opened_witness :
  exists address rest,
    [("url", VStr "https://example.com")]
    = [("url", VStr ("https://" ++ address))]
    /\ since start
         (snd (execute (scripted blank) "navigate"
                 [("url", VStr "https://example.com")] start))
       = EGoto ("https://" ++ address) :: rest.
Proof.
  apply (parsed_address_is_the_one_opened (scripted blank)
           "Go to http://Example.com" [("url", VStr "https://example.com")]
           start).
  - vm_compute. reflexivity.
  - reflexivity.
Defined.

Lemma interact_rejects_unparsed_commands_witness :
  interact (scripted blank) "Traceback" true "dance" None start
  = (inr (HTTPException 500
            "Unexpected error: Could not understand command: dance"), start).
Proof.
  apply (interact_rejects_unparsed_commands (scripted blank) "Traceback"
           "dance" None (ValueError "Could not understand command: dance")
           start).
  vm_compute. reflexivity.
Defined.

Lemma interact_answers_parsed_commands_witness :
  interact (scripted blank) "Traceback" true "Click on the login button"
    None start
  = (inr (CommandResponse false "Could not find element: login"
            (inr (ErrorHandler.Response "ElementNotFoundError"
                    "Could not find element: login" []
                    (Some [ "Check if the element identifier is correct";
                            "Try waiting longer for the element to appear";
                            "The page structure might have changed" ])))),
     snd (execute (scripted blank) "click" [("text", VStr "login")] start)).
Proof.
  apply (proj1 (interact_answers_parsed_commands (scripted blank) "Traceback"
                  "Click on the login button" "click"
                  [("text", VStr "login")] None start
                  ltac:(vm_compute; reflexivity))).
Defined.

(** On a blank page that command is answered with the dict of
    [handle_error] for an [ElementNotFoundError]. *)
Example interact_reports_missing_element :
  fst (interact (scripted blank) "Traceback" true "Click on the login button"
         None start)
  = inr (CommandResponse false "Could not find element: login"
           (inr (ErrorHandler.Response "ElementNotFoundError"
                   "Could not find element: login" []
                   (Some [ "Check if the element identifier is correct";
                           "Try waiting longer for the element to appear";
                           "The page structure might have changed" ])))).
Proof. vm_compute. reflexivity. Qed.

Lemma interact_rejects_foreign_options_witness :
  exists m,
    interact (scripted blank) "Traceback" true "Click on the login button"
      (Some [("timeout", VInt 100)]) start
    = (inr (CommandResponse false ("Failed to execute click: " ++ m)
              (inr (ErrorHandler.Response "BrowserAutomationError"
                      ("Failed to execute click: " ++ m) [] None))), start).
Proof.
  apply (interact_rejects_foreign_options (scripted blank) "Traceback"
           "Click on the login button" "click" [("text", VStr "login")]
           [("timeout", VInt 100)] ["text"%string] "timeout" start).
  - vm_compute. reflexivity.
  - reflexivity.
  - now left.
  - intros [Heq | []]. discriminate Heq.
  - reflexivity.
Defined.

(* ===================================================================== *)
(** * Starting and stopping the browser                                   *)
(* ===================================================================== *)

Import Lifecycle LifeObs.

Section Life.
Context {W : Type} (e : engine W).

Lemma close_spec (s : st W) :
  exists s',
    close e s = (inr tt, s')
    /\ (exists k, log s' = log s ++ firstn k (owed (self s)))
    /\ headless (self s') = headless (self s)
    /\ slow_mo (self s') = slow_mo (self s)
    /\ (initialized (self s) = false -> initialized (self s') = false)
    /\ ((forall x w, In x (owed (self s)) -> fst (e x w) = None) ->
        log s' = log s ++ owed (self s) /\ all_released (self s')).
Proof.
  destruct s as [w [hd sm pw br ct pg ini] l].
  unfold close, release, modify, try_except, bind, get, put, call, ret,
    owed, all_released.
  cbn.
  destruct pg, ct, br, pw; cbn;
    repeat match goal with
           | |- context [e ?x ?w0] =>
               let E := fresh "E" in
               destruct (e x w0) as [[ex |] ?w] eqn:E; cbn
           end;
    (eexists; split; [reflexivity |]); cbn;
    (split;
     [ first [ exists 0; cbn; rewrite ?app_nil_r, <- ?app_assoc; reflexivity
             | exists 1; cbn; rewrite ?app_nil_r, <- ?app_assoc; reflexivity
             | exists 2; cbn; rewrite ?app_nil_r, <- ?app_assoc; reflexivity
             | exists 3; cbn; rewrite ?app_nil_r, <- ?app_assoc; reflexivity
             | exists 4; cbn; rewrite ?app_nil_r, <- ?app_assoc; reflexivity ]
     | ]);
    (split; [reflexivity |]); (split; [reflexivity |]);
    (split; [auto |]);
    intro Hq;
    try (exfalso;
         match goal with
         | E : e ?x ?w0 = (Some _, _) |- _ =>
             let K := fresh "K" in
             assert (K : fst (e x w0) = None) by (apply Hq; cbn; tauto);
             rewrite E in K; discriminate K
         end);
    (split; [rewrite ?app_nil_r, <- ?app_assoc; reflexivity
            | repeat split ]).
Qed.

Lemma close_follows_attempt (s : st W) :
  exists s',
    close e s = (inr tt, s')
    /\ log s' = log s ++ fst (fst (attempt e (owed (self s)) (world s)))
    /\ world s' = snd (attempt e (owed (self s)) (world s))
    /\ match snd (fst (attempt e (owed (self s)) (world s))) with
       | None => all_released (self s')
       | Some _ =>
           owed (self s')
           = skipn (length (fst (fst (attempt e (owed (self s)) (world s)))) - 1)
                   (owed (self s))
           /\ initialized (self s') = initialized (self s)
       end.
Proof.
  destruct s as [w [hd sm pw br ct pg ini] l].
  unfold close, release, modify, try_except, bind, get, put, call, ret,
    owed, all_released.
  cbn.
  destruct pg, ct, br, pw; cbn;
    repeat match goal with
           | |- context [e ?x ?w0] =>
               let E := fresh "E" in
               destruct (e x w0) as [[ex |] ?w] eqn:E; cbn
           end;
    (eexists; split; [reflexivity |]); cbn;
    rewrite ?app_nil_r, <- ?app_assoc; repeat split.
Qed.

(** X21.  [close] never raises.  It makes the closing calls the controller owes
    (page, context, browser, engine, each only if held) in that order,
    and stops at the first that raises: the calls it makes are exactly
    the owed ones up to and including the first raising one.  When none
    raises, all four handles are gone and [initialized] is off; when one
    does, the handle it was to close and those after it stay set and
    [initialized] keeps its value.  It never turns [initialized] on and
    never touches the settings. *)
Theorem close_never_raises (s : st W) :
  exists s',
    close e s = (inr tt, s')
    /\ log s' = log s ++ fst (fst (attempt e (owed (self s)) (world s)))
    /\ world s' = snd (attempt e (owed (self s)) (world s))
    /\ match snd (fst (attempt e (owed (self s)) (world s))) with
       | None => all_released (self s')
       | Some _ =>
           owed (self s')
           = skipn (length (fst (fst (attempt e (owed (self s)) (world s)))) - 1)
                   (owed (self s))
           /\ initialized (self s') = initialized (self s)
       end
    /\ headless (self s') = headless (self s)
    /\ slow_mo (self s') = slow_mo (self s)
    /\ (initialized (self s) = false -> initialized (self s') = false)
    /\ ((forall x w, In x (owed (self s)) -> fst (e x w) = None) ->
        log s' = log s ++ owed (self s) /\ all_released (self s')).
Proof.
  destruct (close_follows_attempt s) as (s1 & E1 & L1 & W1 & M1).
  destruct (close_spec s) as (s2 & E2 & _ & Hh & Hm & Hi & Hr).
  assert (s2 = s1) by congruence. subst s2.
  exists s1. repeat split; try assumption; now apply Hr.
Qed.

Lemma app_cons_split {A} (d : A) (pre post l : list A) (x : A) :
  pre ++ x :: post = l ->
  exists k, k < length l /\ pre = firstn k l /\ x = nth k l d
            /\ post = skipn (S k) l.
Proof.
  intros <-. exists (length pre). rewrite length_app. cbn [length].
  split; [lia |].
  induction pre as [| p pre IH]; cbn [length firstn nth skipn app]; [auto |].
  destruct IH as (E1 & E2 & E3).
  split; [now rewrite <- E1 | split; assumption].
Qed.

Lemma close_cut_short (s : st W) (pre post : list step) (x : step) (ex : exn) :
  owed (self s) = pre ++ x :: post ->
  (forall y w, In y pre -> fst (e y w) = None) ->
  (forall w, fst (e x w) = Some ex) ->
  exists s',
    close e s = (inr tt, s')
    /\ log s' = log s ++ pre ++ [x]
    /\ owed (self s') = x :: post
    /\ initialized (self s') = initialized (self s).
Proof.
  intros Ho Hpre Hx.
  destruct (app_cons_split Start _ _ _ _ (eq_sym Ho)) as (k & Hk & -> & -> & ->).
  clear Ho. destruct s as [w [hd sm pw br ct pg ini] l].
  unfold close, release, modify, try_except, bind, get, put, call, ret.
  unfold owed in *. cbn in *.
  destruct pg, ct, br, pw; cbn in *;
    (destruct k as [| [| [| [| k]]]]; cbn in *; try lia);
    repeat match goal with
           | |- context [e ?y ?w0] =>
               let E := fresh "E" in
               destruct (e y w0) as [[r |] ?w] eqn:E; cbn;
               [ try (exfalso;
                      let K := fresh "K" in
                      assert (K : fst (e y w0) = None)
                        by (apply Hpre; cbn; tauto);
                      rewrite E in K; discriminate K)
               | try (exfalso;
                      let K := fresh "K" in
                      pose proof (Hx w0) as K;
                      rewrite E in K; discriminate K) ]
           end;
    (eexists; split; [reflexivity |]); cbn;
    (split; [rewrite <- ?app_assoc; reflexivity | split; reflexivity]).
Qed.

(** X22.  When a closing call raises, [close] returns as if nothing had
    happened, but the calls after it are not made: the handle whose
    closing raised and every handle after it stay set, and [initialized]
    is left as it was.  So a page that will not close leaves its browser
    running, and the controller still taking itself for initialized. *)
Theorem close_stops_at_the_first_failure (s : st W) (pre post : list step)
        (x : step) (ex : exn) :
  owed (self s) = pre ++ x :: post ->
  (forall y w, In y pre -> fst (e y w) = None) ->
  (forall w, fst (e x w) = Some ex) ->
  exists s',
    close e s = (inr tt, s')
    /\ log s' = log s ++ pre ++ [x]
    /\ owed (self s') = x :: post
    /\ initialized (self s') = initialized (self s).
Proof. apply close_cut_short. Qed.

Lemma initialize_ok (s : st W) :
  initialized (self s) = false ->
  (forall x w, In x (starts (self s)) -> fst (e x w) = None) ->
  exists s',
    initialize e s = (inr tt, s')
    /\ log s' = log s ++ starts (self s)
    /\ all_held (self s')
    /\ headless (self s') = headless (self s)
    /\ slow_mo (self s') = slow_mo (self s).
Proof.
  destruct s as [w [hd sm pw br ct pg ini] l]. cbn. intros -> Hs.
  unfold initialize, modify, try_except, bind, get, put, call, ret, starts,
    all_held in *.
  cbn -[close user_agent] in *.
  repeat match goal with
         | |- context [e ?y ?w0] =>
             let E := fresh "E" in
             destruct (e y w0) as [[r |] ?w] eqn:E; cbn -[close user_agent];
             [ exfalso;
               let K := fresh "K" in
               assert (K : fst (e y w0) = None)
                 by (apply Hs; cbn -[user_agent]; tauto);
               rewrite E in K; discriminate K
             | ]
         end.
  eexists. split; [reflexivity |]. cbn -[user_agent].
  rewrite <- !app_assoc. repeat split.
Qed.

Lemma initialize_failed (s : st W) (ex : exn) (s' : st W) :
  initialize e s = (inl ex, s') ->
  (exists cause,
      ex = BrowserAutomationError
             ("Browser initialization failed: " ++ message cause))
  /\ initialized (self s') = false
  /\ headless (self s') = headless (self s)
  /\ slow_mo (self s') = slow_mo (self s)
  /\ ((forall x w, is_closer x = true -> fst (e x w) = None) ->
      all_released (self s')).
Proof.
  destruct s as [w [hd sm pw br ct pg ini] l].
  unfold initialize, modify, try_except, bind, get, put, call, ret, raise.
  cbn -[close user_agent].
  destruct ini; [discriminate |].
  repeat match goal with
         | |- context [e ?y ?w0] =>
             let E := fresh "E" in
             destruct (e y w0) as [[r |] ?w] eqn:E; cbn -[close user_agent]
         end;
    try discriminate;
    match goal with
    | |- context [close e ?st] =>
        destruct (close_spec st) as (s1 & -> & _ & Hh & Hm & Hi & Hr)
    end;
    cbn -[close user_agent] in *;
    intros [= <- <-];
    (split; [eexists; reflexivity |]);
    (split; [now apply Hi |]);
    (split; [exact Hh |]); (split; [exact Hm |]);
    intro Hq; apply Hr; intros x w' Hin; apply Hq;
    unfold owed in Hin; cbn in Hin;
    repeat match type of Hin with
           | In _ (if ?b then _ else _) => destruct b; cbn in Hin
           | In _ ((if ?b then _ else _) ++ _) => destruct b; cbn in Hin
           | _ \/ _ => destruct Hin as [<- | Hin]; [reflexivity |]
           | False => destruct Hin
           end.
Qed.

(** X23.  On a controller that is not initialized, and with an engine whose
    four start-up calls return, [initialize] makes those calls in order
    (engine, browser with the controller's settings, context, page),
    sets the four handles and [initialized], and a second [initialize]
    right after it does nothing at all. *)
Theorem initialize_starts_once (s : st W) :
  initialized (self s) = false ->
  (forall x w, In x (starts (self s)) -> fst (e x w) = None) ->
  exists s',
    initialize e s = (inr tt, s')
    /\ log s' = log s ++ starts (self s)
    /\ all_held (self s')
    /\ initialize e s' = (inr tt, s').
Proof.
  intros Hi Hs. destruct (initialize_ok s Hi Hs) as (s' & E & L & Hh & _).
  exists s'. repeat split; try assumption; try apply Hh.
  unfold initialize, bind, get. cbn.
  destruct Hh as (_ & _ & _ & _ & ->). reflexivity.
Qed.

(** X24.  When a start-up call raises, the calls before it having returned,
    [initialize] raises [BrowserAutomationError] with the text of that
    very exception after [Browser initialization failed: ].  Before it
    does, it gives back what it had acquired: on a controller that held
    nothing, and with closing calls that return, it makes after the
    failed call the closing calls of the handles acquired so far, last
    acquired first, and leaves the controller without any handle and not
    initialized, its settings unchanged. *)
Theorem initialize_failure_cleans_up (s : st W) (pre post : list step)
        (x : step) (ex : exn) :
  all_released (self s) ->
  starts (self s) = pre ++ x :: post ->
  (forall y w, In y pre -> fst (e y w) = None) ->
  (forall w, fst (e x w) = Some ex) ->
  (forall y w, is_closer y = true -> fst (e y w) = None) ->
  exists s',
    initialize e s
    = (inl (BrowserAutomationError
              ("Browser initialization failed: " ++ message ex)), s')
    /\ log s' = log s ++ pre ++ [x] ++ rev (map undo pre)
    /\ all_released (self s')
    /\ headless (self s') = headless (self s)
    /\ slow_mo (self s') = slow_mo (self s).
Proof.
  intros Hr Ho Hpre Hx Hc.
  destruct (app_cons_split Start _ _ _ _ (eq_sym Ho)) as (k & Hk & -> & -> & ->).
  clear Ho. destruct s as [w [hd sm pw br ct pg ini] l].
  destruct Hr as (Hpw & Hbr & Hct & Hpg & Hini). cbn in Hpw, Hbr, Hct, Hpg, Hini.
  subst pw br ct pg ini.
  unfold initialize, close, release, modify, try_except, bind, get, put, call,
    ret, raise, all_released.
  unfold starts in *. cbn -[user_agent] in *.
  destruct k as [| [| [| [| k]]]]; cbn -[user_agent] in *; try lia;
    repeat match goal with
           | |- context [e ?y ?w0] =>
               let E := fresh "E" in
               destruct (e y w0) as [[?r |] ?w] eqn:E; cbn -[user_agent];
               [ try (exfalso;
                      let K := fresh "K" in
                      assert (K : fst (e y w0) = None)
                        by (first [ apply Hpre; cbn -[user_agent]; tauto
                                  | apply Hc; reflexivity ]);
                      rewrite E in K; discriminate K)
               | try (exfalso;
                      let K := fresh "K" in
                      pose proof (Hx w0) as K;
                      rewrite E in K; discriminate K) ]
           end;
    match goal with
    | E : e _ ?w0 = (Some ?r, _) |- _ =>
        let K := fresh "K" in
        pose proof (Hx w0) as K; rewrite E in K; cbn in K;
        injection K as ->
    end;
    (eexists; split; [reflexivity |]); cbn -[user_agent];
    rewrite <- ?app_assoc; repeat split.
Qed.

(** X25.  [initialize] followed by [close], on a controller without handles
    and an engine whose calls all return, is a round trip: the four
    start-up calls, then the four closing calls in the opposite order of
    acquisition, and a controller without handles again. *)
Theorem initialize_then_close (s : st W) :
  all_released (self s) ->
  (forall x w, fst (e x w) = None) ->
  exists s1 s2,
    initialize e s = (inr tt, s1)
    /\ close e s1 = (inr tt, s2)
    /\ log s2 = log s ++ starts (self s)
                ++ [PageClose; ContextClose; BrowserClose; Stop]
    /\ all_released (self s2)
    /\ headless (self s2) = headless (self s)
    /\ slow_mo (self s2) = slow_mo (self s).
Proof.
  intros Hr He.
  destruct (initialize_ok s (proj2 (proj2 (proj2 (proj2 Hr))))
              (fun x w _ => He x w)) as (s1 & E1 & L1 & Hh & Hd & Hm).
  destruct (close_spec s1) as (s2 & E2 & _ & Hd2 & Hm2 & _ & Hc).
  destruct (Hc (fun x w _ => He x w)) as (L2 & Hr2).
  exists s1, s2. split; [exact E1 |]. split; [exact E2 |].
  split; [| split; [exact Hr2 | split; congruence]].
  rewrite L2, L1, <- app_assoc. do 2 f_equal.
  destruct Hh as (Hpw & Hbr & Hct & Hpg & _).
  unfold owed. now rewrite Hpw, Hbr, Hct, Hpg.
Qed.

(** X26.  [reset_browser] never raises.  It answers [success] with a new
    controller that holds all four handles and has the default settings,
    or [error] with the message of the failed start-up and a controller
    that is not initialized. *)
Theorem reset_browser_never_raises (controller : bool) (s : st W) :
  exists status msg s',
    reset_browser e controller s = (inr (status, msg), s')
    /\ ((status = "success"%string
         /\ msg = "Browser reset successfully"%string
         /\ all_held (self s')
         /\ headless (self s') = false /\ slow_mo (self s') = 50%Z)
        \/ (status = "error"%string
            /\ initialized (self s') = false
            /\ exists cause,
                msg = ("Browser initialization failed: " ++ message cause)%string)).
Proof.
  unfold reset_browser, try_except, bind.
  assert (Hc : exists s1, (if controller then close e else ret tt) s = (inr tt, s1)).
  { destruct controller; [| now exists s].
    destruct (close_spec s) as (s1 & -> & _). now exists s1. }
  destruct Hc as (s1 & ->). unfold put at 1. cbn [fst snd].
  set (s2 := St (world s1) fresh (log s1)).
  destruct (initialize e s2) as [[ex | []] s3] eqn:Ei.
  - destruct (initialize_failed s2 ex s3 Ei) as ((cause & ->) & Hi & _).
    cbn [ret message]. do 3 eexists. split; [reflexivity |].
    right. split; [reflexivity |]. split; [exact Hi | now exists cause].
  - cbn [ret]. do 3 eexists. split; [reflexivity |]. left.
    assert (Hok : all_held (self s3) /\ headless (self s3) = false
                  /\ slow_mo (self s3) = 50%Z).
    { revert Ei. unfold s2. clear.
      unfold initialize, modify, try_except, bind, get, put, call, ret, raise.
      cbn -[close user_agent].
      repeat match goal with
             | |- context [e ?y ?w0] =>
                 let E := fresh "E" in
                 destruct (e y w0) as [[r |] ?w] eqn:E; cbn -[close user_agent]
             end;
        try (match goal with
             | |- context [close e ?st] =>
                 destruct (close_spec st) as (s4 & -> & _)
             end; discriminate).
      intros [= <-]. cbn. unfold all_held. cbn. repeat split. }
    tauto.
Qed.

(** X27.  Resetting a controller whose page will not close reports [success]
    although the old browser was never closed: after the failed
    [page.close()] no other closing call is made, the old handles are
    dropped with the old controller, and a second browser is started. *)
Theorem reset_browser_may_leak (s : st W) (ex : exn) :
  page (self s) = true ->
  (forall w, fst (e PageClose w) = Some ex) ->
  (forall x w, is_closer x = false -> fst (e x w) = None) ->
  exists s',
    reset_browser e true s
    = (inr ("success", "Browser reset successfully")%string, s')
    /\ log s' = log s ++ PageClose :: starts fresh
    /\ all_held (self s').
Proof.
  intros Hpg Hx Hs.
  assert (Ho : owed (self s) = [] ++ PageClose :: tl (owed (self s)))
    by (unfold owed; now rewrite Hpg).
  destruct (close_cut_short s [] _ PageClose ex Ho
              ltac:(intros y w []) Hx) as (s1 & E1 & L1 & _).
  unfold reset_browser, try_except, bind. rewrite E1. unfold put at 1.
  cbn [fst snd].
  destruct (initialize_ok (St (world s1) fresh (log s1)) eq_refl)
    as (s2 & E2 & L2 & Hh & _).
  { intros x w Hin. apply Hs.
    cbn -[user_agent] in Hin.
    repeat (destruct Hin as [<- | Hin]; [reflexivity |]). destruct Hin. }
  rewrite E2. cbn [ret]. exists s2. split; [reflexivity |].
  split; [| exact Hh]. rewrite L2. cbn [log self]. rewrite L1.
  cbn [app]. now rewrite <- app_assoc.
Qed.

End Life.

Lemma close_stops_at_the_first_failure_witness :
  exists s',
    close page_stuck (St tt running []) = (inr tt, s')
    /\ log s' = [PageClose]
    /\ owed (self s') = [PageClose; ContextClose; BrowserClose; Stop]
    /\ initialized (self s') = true.
Proof.
  apply (close_stops_at_the_first_failure page_stuck (St tt running [])
           [] [ContextClose; BrowserClose; Stop] PageClose
           (PageError "Target closed")).
  - reflexivity.
  - intros y w [].
  - reflexivity.
Defined.

Lemma initialize_starts_once_witness :
  exists s',
    initialize steady (St tt fresh []) = (inr tt, s')
    /\ log s' = [Start; Launch false 50; NewContext 1280 800 user_agent; NewPage]
    /\ all_held (self s')
    /\ initialize steady s' = (inr tt, s').
Proof.
  apply (initialize_starts_once steady (St tt fresh [])).
  - reflexivity.
  - reflexivity.
Defined.

Lemma initialize_failure_cleans_up_witness :
  exists s',
    initialize no_browser (St tt fresh [])
    = (inl (BrowserAutomationError
              "Browser initialization failed: Executable doesn't exist"), s')
    /\ log s' = [Start; Launch false 50; Stop]
    /\ all_released (self s')
    /\ headless (self s') = false
    /\ slow_mo (self s') = 50%Z.
Proof.
  apply (initialize_failure_cleans_up no_browser (St tt fresh [])
           [Start] [NewContext 1280 800 user_agent; NewPage]
           (Launch false 50) (PageError "Executable doesn't exist")).
  - repeat split.
  - reflexivity.
  - intros y w [<- | []]. reflexivity.
  - reflexivity.
  - intros y w Hy. destruct y; try reflexivity; discriminate Hy.
Defined.

Lemma initialize_then_close_witness :
  exists s1 s2,
    initialize steady (St tt fresh []) = (inr tt, s1)
    /\ close steady s1 = (inr tt, s2)
    /\ log s2 = [Start; Launch false 50; NewContext 1280 800 user_agent; NewPage;
                 PageClose; ContextClose; BrowserClose; Stop]
    /\ all_released (self s2)
    /\ headless (self s2) = false
    /\ slow_mo (self s2) = 50%Z.
Proof.
  apply (initialize_then_close steady (St tt fresh [])).
  - repeat split.
  - reflexivity.
Defined.

Lemma reset_browser_may_leak_witness :
  exists s',
    reset_browser page_stuck true (St tt running [])
    = (inr ("success", "Browser reset successfully")%string, s')
    /\ log s' = [PageClose; Start; Launch false 50;
                 NewContext 1280 800 user_agent; NewPage]
    /\ all_held (self s').
Proof.
  apply (reset_browser_may_leak page_stuck (St tt running [])
           (PageError "Target closed")).
  - reflexivity.
  - reflexivity.
  - intros x w Hx. destruct x; try reflexivity; discriminate Hx.
Defined.

